(** * AutoCompress: binary resolution and subprocess orchestration

    A shallow embedding of [src/autoCompress/resolve.ts] and
    [src/autoCompress/native.ts].

    - JavaScript numbers are IEEE-754 binary64 values, modelled with the
      Standard Library's [spec_float] at precision 53 and [emax] 1024.
    - JavaScript strings are [string]s; exit codes are [option Z]
      ([None] is [null], the child was ended by a signal).
    - The Node runtime (clock, file system, child processes, [path],
      [parseFloat], number printing) is a record of operations over an
      abstract world; every theorem holds for every runtime.
    - An [async] function is a program of the free monad [prog]; it is run
      alone by [run], and interleaved with others at its [await]s by
      [pool_step].
    - A child process is the list of events the event loop delivers for it;
      the handlers registered inside [new Promise] are folded over that
      list, and a promise keeps the first settlement only.

    The embedding comes first, then a small concrete runtime ([Demo]), the
    vocabulary of the statements, and the properties. *)

From Stdlib Require Import ZArith List Bool String Ascii Lia.
From Stdlib Require Import Floats.SpecFloat DecimalString.
Import ListNotations.

Local Open Scope string_scope.
Local Open Scope Z_scope.

(** ** JavaScript numbers *)

Module Num.

Definition prec : Z := 53.
Definition emax : Z := 1024.

Definition number : Type := spec_float.

Definition of_Z (z : Z) : number := binary_normalize prec emax z 0 false.

Definition mul : number -> number -> number := SFmul prec emax.
Definition div : number -> number -> number := SFdiv prec emax.
Definition ltb : number -> number -> bool := SFltb.
Definition leb : number -> number -> bool := SFleb.

Definition isNaN (x : number) : bool :=
  match x with S754_nan => true | _ => false end.

Definition isFinite (x : number) : bool :=
  match x with S754_zero _ | S754_finite _ _ _ => true | _ => false end.

Definition valid (x : number) : bool := valid_binary prec emax x.

(** [Math.floor]: zeros, infinities and NaN are returned as they are; a
    value with a non-negative exponent is an integer already; otherwise
    the signed mantissa is shifted right, which rounds towards minus
    infinity. *)
Definition floor (x : number) : number :=
  match x with
  | S754_finite s m e =>
      if 0 <=? e then x
      else binary_normalize prec emax
             (Z.shiftr (cond_Zopp s (Zpos m)) (- e)) 0 s
  | _ => x
  end.

End Num.

Import Num.

(** [handleFile], lines 56-58: [tgBits = target * 8 * 1024 * 1024] and
    [videoBitrate = Math.floor(tgBits / duration / 1000)]. *)
Definition tgBits (target : number) : number :=
  mul (mul (mul target (of_Z 8)) (of_Z 1024)) (of_Z 1024).

Definition videoBitrate (target duration : number) : number :=
  floor (div (div (tgBits target) duration) (of_Z 1000)).

(** ** JavaScript strings *)

Module Str.

Definition truthy (s : string) : bool :=
  match s with EmptyString => false | _ => true end.

Definition lower_ascii (c : ascii) : ascii :=
  let n := N_of_ascii c in
  if ((65 <=? n) && (n <=? 90))%N then ascii_of_N (n + 32) else c.

Fixpoint toLowerCase (s : string) : string :=
  match s with
  | EmptyString => EmptyString
  | String c s' => String (lower_ascii c) (toLowerCase s')
  end.

(** [s.includes(sub)] *)
Fixpoint includes (s sub : string) : bool :=
  if prefix sub s then true
  else match s with
       | EmptyString => false
       | String _ s' => includes s' sub
       end.

(** A string is held as its UTF-8 bytes. The white space that
    [String.prototype.trim] and [parseFloat] skip is the white space and
    the line terminators of ECMAScript: U+0009 to U+000D and U+0020, one
    byte each; U+00A0, two bytes; and U+1680, U+2000 to U+200A, U+2028,
    U+2029, U+202F, U+205F, U+3000 and U+FEFF, three bytes each. *)
Definition is_space (c : ascii) : bool :=
  let n := N_of_ascii c in
  ((9 <=? n) && (n <=? 13) || (n =? 32))%N.

Definition is_space2 (c d : ascii) : bool :=
  ((N_of_ascii c =? 194) && (N_of_ascii d =? 160))%N.

Definition is_space3 (c d e : ascii) : bool :=
  let '(x, y, z) := (N_of_ascii c, N_of_ascii d, N_of_ascii e) in
  ((x =? 225) && (y =? 154) && (z =? 128)
   || (x =? 226) && (y =? 128)
      && ((128 <=? z) && (z <=? 138) || (z =? 168) || (z =? 169) || (z =? 175))
   || (x =? 226) && (y =? 129) && (z =? 159)
   || (x =? 227) && (y =? 128) && (z =? 128)
   || (x =? 239) && (y =? 187) && (z =? 191))%N.

Fixpoint trimStart (s : string) : string :=
  match s with
  | EmptyString => EmptyString
  | String c r =>
      if is_space c then trimStart r
      else
        match r with
        | EmptyString => s
        | String d r1 =>
            if is_space2 c d then trimStart r1
            else
              match r1 with
              | EmptyString => s
              | String e r2 => if is_space3 c d e then trimStart r2 else s
              end
        end
  end.

(** What is left of [s] is dropped as soon as it is white space only. *)
Fixpoint trimEnd (s : string) : string :=
  match s with
  | EmptyString => EmptyString
  | String c s' =>
      match trimStart s with
      | EmptyString => EmptyString
      | _ => String c (trimEnd s')
      end
  end.

Definition trim (s : string) : string := trimEnd (trimStart s).

(** An integer printed in a template literal. *)
Definition of_Z (z : Z) : string := NilZero.string_of_int (Z.to_int z).

(** [`${code}`] for the exit code of a child. *)
Definition of_code (code : option Z) : string :=
  match code with Some z => of_Z z | None => "null" end.

(** [sub] occurs in [s], whatever the case of the letters of [s]. *)
Definition ci_contains (s sub : string) : Prop :=
  exists pre mid post,
    s = (pre ++ mid ++ post)%string /\ toLowerCase mid = toLowerCase sub.

Definition contains (s sub : string) : Prop :=
  exists pre post, s = (pre ++ sub ++ post)%string.

End Str.

(** ** Tool kinds, errors, events *)

Inductive kind := ffmpeg | ffprobe.

Definition kind_name (bin : kind) : string :=
  match bin with ffmpeg => "ffmpeg" | ffprobe => "ffprobe" end.

Definition kind_eqb (a b : kind) : bool :=
  match a, b with
  | ffmpeg, ffmpeg | ffprobe, ffprobe => true
  | _, _ => false
  end.

Definition bytes : Type := list Byte.byte.

(** One constructor for each [new Error(...)] of the two files, named after
    the error kind it stands for, and [RuntimeError] for an error object
    made by Node itself (a failed [spawn], a failed file operation). *)
Inductive error :=
| RuntimeError (name msg : string)
| ValidationTimeout (binPath : string) (timeoutMs : number)
| InvalidBinary (binPath : string) (bin : kind)
| NotResolvedPull
| InvalidConfig (bin : kind)
| NotFound (bin : kind) (userPath : string)
| NotResolved (bin : kind)
| ProbeExit (code : option Z) (errOut : string)
| ProbeInvalidData
| ProbeSpawnFailed (msg : string)
| Timeout (ffmpegTimeout : number)
| EncodeFailed (code : option Z) (errOut : string)
| EncodeSpawnFailed (err : string) (errOut : string).

(** What the event loop delivers for one child process and its timer. *)
Inductive event :=
| Stdout (d : string)
| Stderr (d : string)
| Close (code : option Z)
| ErrorEv (err : error)
| TimerFired.

(** Only output arrives: the child runs and has neither exited nor failed,
    and the timer has not fired. *)
Definition is_data (ev : event) : bool :=
  match ev with Stdout _ | Stderr _ => true | _ => false end.

Fixpoint stdout_of (evs : list event) : string :=
  match evs with
  | [] => ""
  | Stdout d :: r => (d ++ stdout_of r)%string
  | _ :: r => stdout_of r
  end.

Fixpoint stderr_of (evs : list event) : string :=
  match evs with
  | [] => ""
  | Stderr d :: r => (d ++ stderr_of r)%string
  | _ :: r => stderr_of r
  end.

(** ** Promises: the first [resolve] or [reject] settles, later ones are
    counted and ignored. *)

Record promise (A : Type) := mkPromise {
  outcome : option (A + error);
  settle_calls : nat
}.
Arguments mkPromise {A}.
Arguments outcome {A}.
Arguments settle_calls {A}.

Definition pending {A} : promise A := mkPromise None 0%nat.

Definition settle {A} (r : A + error) (p : promise A) : promise A :=
  mkPromise (match outcome p with None => Some r | o => o end)
            (S (settle_calls p)).

Definition resolve {A} (a : A) : promise A -> promise A := settle (inl a).
Definition reject {A} (e : error) : promise A -> promise A := settle (inr e).

Inductive timer := Armed | Cleared | Fired.

(** ** The Node runtime *)

(** A value in the argument array handed to [spawn]: a string,
    [undefined], or a member of [Object.prototype] (a function, or the
    prototype itself), which is what a lookup in an object literal gives
    for a key that the literal does not have and its prototype has. *)
Inductive arg :=
| Arg (s : string)
| Undefined
| Member (key : string).

Inductive effect :=
| E_cacheSet (bin : kind) (p : string)
| E_access (p : string)
| E_writeFile (p : string)
| E_readFile (p : string)
| E_unlink (p : string)
| E_spawn (p : string) (args : list arg).

Record Runtime (W : Type) := mkRuntime {
  Date_now : W -> Z * W;
  fs_access : string -> W -> bool * W;
  fs_writeFile : string -> bytes -> W -> option error * W;
  fs_readFile : string -> W -> (error + bytes) * W;
  fs_unlink : string -> W -> option error * W;
  (** [spawn] throws, or starts a child whose events are then delivered *)
  child_spawn : string -> list arg -> W -> (error + list event) * W;
  os_tmpdir : string;
  path_join : string -> string -> string;
  path_extname : string -> string;
  path_isAbsolute : string -> bool;
  process_platform : string;
  parseFloat : string -> number;
  Number_toString : number -> string;
  (** whether [Object.prototype] has a member of that name *)
  Object_prototype_has : string -> bool
}.
Arguments Date_now {W}.
Arguments fs_access {W}.
Arguments fs_writeFile {W}.
Arguments fs_readFile {W}.
Arguments fs_unlink {W}.
Arguments child_spawn {W}.
Arguments os_tmpdir {W}.
Arguments path_join {W}.
Arguments path_extname {W}.
Arguments path_isAbsolute {W}.
Arguments process_platform {W}.
Arguments parseFloat {W}.
Arguments Number_toString {W}.
Arguments Object_prototype_has {W}.

(** ** Asynchronous programs *)

Inductive op : Type -> Type :=
| DateNow : op Z
| CacheGet (bin : kind) : op (option string)
| CacheSet (bin : kind) (p : string) : op unit
| Access (p : string) : op bool
| WriteFile (p : string) (data : bytes) : op (option error)
| ReadFile (p : string) : op (error + bytes)
| Unlink (p : string) : op (option error)
| Spawn (p : string) (args : list arg) : op (error + list event).

(** The operations a caller awaits; the others run synchronously. *)
Definition is_async {X} (o : op X) : bool :=
  match o with
  | DateNow | CacheGet _ | CacheSet _ _ => false
  | _ => true
  end.

Inductive prog (A : Type) : Type :=
| Ret (a : A)
| Throw (e : error)
| Never
| Vis (X : Type) (o : op X) (k : X -> prog A).
Arguments Ret {A}.
Arguments Throw {A}.
Arguments Never {A}.
Arguments Vis {A X}.

Fixpoint bind {A B} (p : prog A) (f : A -> prog B) : prog B :=
  match p with
  | Ret a => f a
  | Throw e => Throw e
  | Never => Never
  | Vis o k => Vis o (fun x => bind (k x) f)
  end.

(** [try { p } catch (err) { h err }] *)
Fixpoint try_catch {A} (p : prog A) (h : error -> prog A) : prog A :=
  match p with
  | Ret a => Ret a
  | Throw e => h e
  | Never => Never
  | Vis o k => Vis o (fun x => try_catch (k x) h)
  end.

Definition call {X} (o : op X) : prog X := Vis o Ret.

Declare Scope prog_scope.
Delimit Scope prog_scope with prog.
Notation "x <- p ;; q" := (bind p (fun x => q))
  (at level 61, p at next level, right associativity) : prog_scope.
Notation "p ;; q" := (bind p (fun _ => q))
  (at level 61, right associativity) : prog_scope.
Local Open Scope prog_scope.

Record state (W : Type) := mkState {
  world : W;
  cache : kind -> option string;
  log : list effect
}.
Arguments mkState {W}.
Arguments world {W}.
Arguments cache {W}.
Arguments log {W}.

Definition cache_set (c : kind -> option string) (bin : kind) (p : string)
  : kind -> option string :=
  fun b => if kind_eqb b bin then Some p else c b.

Definition empty_cache : kind -> option string := fun _ => None.

Inductive res (A : Type) :=
| Val (a : A)
| Exn (e : error)
| Hang.
Arguments Val {A}.
Arguments Exn {A}.
Arguments Hang {A}.

Import Str.

Section Code.

Context {W : Type} (rt : Runtime W).

(** *** Running a program *)

Definition logged (s : state W) (w : W) (e : effect) : state W :=
  mkState w (cache s) (log s ++ [e]).

Definition perform {X} (o : op X) (s : state W) : X * state W :=
  match o in op X return X * state W with
  | DateNow =>
      let '(t, w) := Date_now rt (world s) in (t, mkState w (cache s) (log s))
  | CacheGet bin => (cache s bin, s)
  | CacheSet bin p =>
      (tt, mkState (world s) (cache_set (cache s) bin p)
                   (log s ++ [E_cacheSet bin p]))
  | Access p =>
      let '(b, w) := fs_access rt p (world s) in (b, logged s w (E_access p))
  | WriteFile p data =>
      let '(r, w) := fs_writeFile rt p data (world s) in
      (r, logged s w (E_writeFile p))
  | ReadFile p =>
      let '(r, w) := fs_readFile rt p (world s) in (r, logged s w (E_readFile p))
  | Unlink p =>
      let '(r, w) := fs_unlink rt p (world s) in (r, logged s w (E_unlink p))
  | Spawn p args =>
      let '(r, w) := child_spawn rt p args (world s) in
      (r, logged s w (E_spawn p args))
  end.

(** One call, from its start to its result, nothing else running. *)
Fixpoint run {A} (p : prog A) (s : state W) : res A * state W :=
  match p with
  | Ret a => (Val a, s)
  | Throw e => (Exn e, s)
  | Never => (Hang, s)
  | Vis o k => let '(x, s') := perform o s in run (k x) s'
  end.

(** Several calls in flight. A call runs until it awaits; [sync_run] is
    the stretch between two awaits, which nothing can interrupt. *)
Fixpoint sync_run {A} (p : prog A) (s : state W) : prog A * state W :=
  match p with
  | Vis o k =>
      if is_async o then (p, s)
      else let '(x, s') := perform o s in sync_run (k x) s'
  | _ => (p, s)
  end.

(** The event loop resumes a call: the operation it awaited completes and
    the call runs on to its next await (a call that has not started runs
    to its first await). *)
Definition resume {A} (p : prog A) (s : state W) : prog A * state W :=
  match p with
  | Vis o k =>
      if is_async o then let '(x, s') := perform o s in sync_run (k x) s'
      else sync_run p s
  | _ => (p, s)
  end.

Fixpoint set_nth {A} (i : nat) (x : A) (l : list A) : list A :=
  match l, i with
  | [], _ => []
  | _ :: r, O => x :: r
  | y :: r, S j => y :: set_nth j x r
  end.

Definition pool_step {A} (i : nat) (ps : list (prog A) * state W)
  : list (prog A) * state W :=
  match nth_error (fst ps) i with
  | Some p => let '(p', s') := resume p (snd ps) in (set_nth i p' (fst ps), s')
  | None => ps
  end.

(** The schedule lists which call the event loop resumes next. *)
Definition pool_run {A} (sched : list nat) (ps : list (prog A) * state W)
  : list (prog A) * state W :=
  fold_left (fun ps i => pool_step i ps) sched ps.

(** *** Error objects *)

Definition message (e : error) : string :=
  match e with
  | RuntimeError _ msg => msg
  | ValidationTimeout binPath timeoutMs =>
      binPath ++ " validation timed out after "
        ++ Number_toString rt timeoutMs ++ "ms"
  | InvalidBinary binPath bin =>
      binPath ++ " is not a valid " ++ kind_name bin ++ " binary"
  | NotResolvedPull => "requested binary has not been resolved"
  | InvalidConfig bin => kind_name bin ++ " path must be absolute"
  | NotFound bin userPath => kind_name bin ++ " not found at " ++ userPath
  | NotResolved bin =>
      kind_name bin
        ++ " not found, either needs installation or define a custom path"
  | ProbeExit code errOut =>
      "ffprobe exited with " ++ of_code code ++ ", " ++ errOut
  | ProbeInvalidData => "ffprobe invalid data"
  | ProbeSpawnFailed msg => "failed to spawn ffprobe: " ++ msg
  | Timeout ffmpegTimeout =>
      "ffmpeg exceeded alloted time of "
        ++ Number_toString rt (div ffmpegTimeout (Num.of_Z 1000))
  | EncodeFailed code errOut =>
      "ffmpeg exited with code " ++ of_code code ++ ", " ++ errOut
  | EncodeSpawnFailed err errOut =>
      "ffmpeg spawn error " ++ err ++ ". stderr: " ++ errOut
  end%string.

Definition error_name (e : error) : string :=
  match e with RuntimeError n _ => n | _ => "Error" end.

(** [Error.prototype.toString] *)
Definition toString (e : error) : string :=
  let n := error_name e in
  let m := message e in
  if negb (truthy n) then m
  else if negb (truthy m) then n
  else (n ++ ": " ++ m)%string.

(** *** resolve.ts *)

Definition candidatePaths (bin : kind) : list string :=
  let b := kind_name bin in
  if String.eqb (process_platform rt) "win32" then
    [ "C:\ffmpeg\bin\" ++ b ++ ".exe";
      "C:\Program Files\ffmpeg\bin\" ++ b ++ ".exe";
      "C:\Program Files (x86)\ffmpeg\bin\" ++ b ++ ".exe" ]%string
  else if String.eqb (process_platform rt) "darwin" then
    [ "/opt/homebrew/bin/" ++ b;
      "/usr/local/bin/" ++ b;
      "/usr/bin/" ++ b ]%string
  else
    [ "/usr/bin/" ++ b;
      "/usr/local/bin/" ++ b;
      "/bin/" ++ b;
      "/snap/bin/" ++ b;
      "/app/bin/" ++ b ]%string.

Record vstate := mkV {
  v_out : string;
  v_timeExceeded : bool;
  v_timer : timer;
  v_killed : bool;
  v_promise : promise unit
}.

Definition v_init : vstate := mkV "" false Armed false pending.

Definition clearTimeout (t : timer) : timer :=
  match t with Armed => Cleared | t => t end.

Definition code_is_zero (code : option Z) : bool :=
  match code with Some 0 => true | _ => false end.

(** The callbacks of [validateBinary]: the timer, [stdout.on("data")],
    [on("close")] and [on("error")]. A timer that was cleared or has
    fired delivers nothing. *)
Definition validate_handle (binPath : string) (bin : kind) (timeoutMs : number)
    (s : vstate) (ev : event) : vstate :=
  match ev with
  | TimerFired =>
      match v_timer s with
      | Armed =>
          mkV (v_out s) true Fired true
              (reject (ValidationTimeout binPath timeoutMs) (v_promise s))
      | _ => s
      end
  | Stdout d =>
      mkV (v_out s ++ d) (v_timeExceeded s) (v_timer s) (v_killed s)
          (v_promise s)
  | Stderr _ => s
  | Close code =>
      let t := clearTimeout (v_timer s) in
      if v_timeExceeded s then
        mkV (v_out s) (v_timeExceeded s) t (v_killed s) (v_promise s)
      else if negb (code_is_zero code)
              || negb (includes (toLowerCase (v_out s)) (kind_name bin)) then
        mkV (v_out s) (v_timeExceeded s) t (v_killed s)
            (reject (InvalidBinary binPath bin) (v_promise s))
      else
        mkV (v_out s) (v_timeExceeded s) t (v_killed s)
            (resolve tt (v_promise s))
  | ErrorEv err =>
      let t := clearTimeout (v_timer s) in
      if negb (v_timeExceeded s) then
        mkV (v_out s) (v_timeExceeded s) t (v_killed s)
            (reject err (v_promise s))
      else mkV (v_out s) (v_timeExceeded s) t (v_killed s) (v_promise s)
  end.

(** All the events of the child, then the timer if nothing cleared it. *)
Definition validate_run (binPath : string) (bin : kind) (timeoutMs : number)
    (evs : list event) : vstate :=
  let h := validate_handle binPath bin timeoutMs in
  h (fold_left h evs v_init) TimerFired.

Definition await {A} (p : promise A) : prog A :=
  match outcome p with
  | Some (inl a) => Ret a
  | Some (inr e) => Throw e
  | None => Never
  end.

Definition validateBinary (binPath : string) (bin : kind) (timeoutMs : number)
  : prog unit :=
  r <- call (Spawn binPath [Arg "-version"]) ;;
  match r with
  | inl e => Throw e
  | inr evs => await (v_promise (validate_run binPath bin timeoutMs evs))
  end.

Definition default_timeoutMs : number := Num.of_Z 5000.

Definition fileExists (filePath : string) : prog bool := call (Access filePath).

Definition as_truthy (o : option string) : option string :=
  match o with
  | Some s => if truthy s then Some s else None
  | None => None
  end.

Definition pullBinary (bin : kind) : prog string :=
  binPath <- call (CacheGet bin) ;;
  match as_truthy binPath with
  | Some p => Ret p
  | None => Throw NotResolvedPull
  end.

(** The [for] loop of [resolveBinary] over the candidates that are left
    ([searchedPaths] is written and never read). *)
Fixpoint try_candidates (bin : kind) (ps : list string) : prog string :=
  match ps with
  | [] => Throw (NotResolved bin)
  | p :: rest =>
      ex <- fileExists p ;;
      if ex then
        try_catch
          (validateBinary p bin default_timeoutMs ;;
           call (CacheSet bin p) ;;
           Ret p)
          (fun _ => try_candidates bin rest)
      else try_candidates bin rest
  end.

Definition resolveBinary (userPath : option string) (bin : kind) : prog string :=
  c <- call (CacheGet bin) ;;
  match as_truthy c with
  | Some p => Ret p
  | None =>
      match as_truthy userPath with
      | Some up =>
          if negb (path_isAbsolute rt up) then Throw (InvalidConfig bin)
          else
            ex <- fileExists up ;;
            if negb ex then Throw (NotFound bin up)
            else
              validateBinary up bin default_timeoutMs ;;
              call (CacheSet bin up) ;;
              Ret up
      | None => try_candidates bin (candidatePaths bin)
      end
  end.

(** *** native.ts *)

Inductive CompressResult :=
| Success (data : bytes)
| Failure (error : string).

Inductive TestResult :=
| TestOk
| TestFailed (error : string).

Definition testBinaries (ffmpegPath ffprobePath : option string)
  : prog TestResult :=
  try_catch
    (resolveBinary ffmpegPath ffmpeg ;;
     resolveBinary ffprobePath ffprobe ;;
     Ret TestOk)
    (fun err => Ret (TestFailed (message err))).

Record pstate := mkP {
  p_out : string;
  p_errOut : string;
  p_promise : promise number
}.

Definition p_init : pstate := mkP "" "" pending.

(** The callbacks of [getVideoDuration]; it sets no timer. *)
Definition probe_handle (s : pstate) (ev : event) : pstate :=
  match ev with
  | Stdout d => mkP (p_out s ++ d) (p_errOut s) (p_promise s)
  | Stderr d => mkP (p_out s) (p_errOut s ++ d) (p_promise s)
  | Close code =>
      if negb (code_is_zero code) then
        mkP (p_out s) (p_errOut s)
            (reject (ProbeExit code (trim (p_errOut s))) (p_promise s))
      else
        let duration := parseFloat rt (trim (p_out s)) in
        if isNaN duration || leb duration (Num.of_Z 0) then
          mkP (p_out s) (p_errOut s) (reject ProbeInvalidData (p_promise s))
        else
          mkP (p_out s) (p_errOut s) (resolve duration (p_promise s))
  | ErrorEv err =>
      mkP (p_out s) (p_errOut s)
          (reject (ProbeSpawnFailed (message err)) (p_promise s))
  | TimerFired => s
  end.

Definition probe_run (evs : list event) : pstate :=
  fold_left probe_handle evs p_init.

Definition probe_args (inputPath : string) : list arg :=
  [ Arg "-v"; Arg "error"; Arg "-show_entries"; Arg "format=duration";
    Arg "-of"; Arg "default=noprint_wrappers=1:nokey=1"; Arg inputPath ].

Definition getVideoDuration (inputPath : string) : prog number :=
  bin <- pullBinary ffprobe ;;
  r <- call (Spawn bin (probe_args inputPath)) ;;
  match r with
  | inl e => Throw e
  | inr evs => await (p_promise (probe_run evs))
  end.

Record cstate := mkC {
  c_errOut : string;
  c_timer : timer;
  c_killed : bool;
  c_promise : promise unit
}.

Definition c_init : cstate := mkC "" Armed false pending.

(** The callbacks of [compressVideo]; its timer is never cleared. *)
Definition compress_handle (ffmpegTimeout : number) (s : cstate) (ev : event)
  : cstate :=
  match ev with
  | Stderr d => mkC (c_errOut s ++ d) (c_timer s) (c_killed s) (c_promise s)
  | Stdout _ => s
  | TimerFired =>
      match c_timer s with
      | Armed =>
          mkC (c_errOut s) Fired true
              (reject (Timeout ffmpegTimeout) (c_promise s))
      | _ => s
      end
  | Close code =>
      if code_is_zero code then
        mkC (c_errOut s) (c_timer s) (c_killed s) (resolve tt (c_promise s))
      else
        mkC (c_errOut s) (c_timer s) (c_killed s)
            (reject (EncodeFailed code (c_errOut s)) (c_promise s))
  | ErrorEv err =>
      mkC (c_errOut s) (c_timer s) (c_killed s)
          (reject (EncodeSpawnFailed (toString err) (c_errOut s)) (c_promise s))
  end.

(** All the events of the child, then the timer if it has not fired yet. *)
Definition compress_run (ffmpegTimeout : number) (evs : list event) : cstate :=
  let h := compress_handle ffmpegTimeout in
  h (fold_left h evs c_init) TimerFired.

(** [resolutionMap[maxResolution]]: the three keys of the literal, then
    what the literal inherits, then [undefined]. *)
Definition resolutionMap (maxResolution : string) : arg :=
  if String.eqb maxResolution "1080" then
    Arg "scale='min(iw,1920)':'min(ih,1080)':force_original_aspect_ratio=decrease,pad=ceil(iw/2)*2:ceil(ih/2)*2"
  else if String.eqb maxResolution "720" then
    Arg "scale='min(iw,1280)':'min(ih,720)':force_original_aspect_ratio=decrease,pad=ceil(iw/2)*2:ceil(ih/2)*2"
  else if String.eqb maxResolution "480" then
    Arg "scale='min(iw,854)':'min(ih,480)':force_original_aspect_ratio=decrease,pad=ceil(iw/2)*2:ceil(ih/2)*2"
  else if Object_prototype_has rt maxResolution then Member maxResolution
  else Undefined.

Definition k_of (n : number) : string := (Number_toString rt n ++ "k")%string.

Definition compress_args (inputPath outputPath : string)
    (vidBitrate audioBitrate : number) (preset maxResolution : string)
  : list arg :=
  [ Arg "-y"; Arg "-i"; Arg inputPath; Arg "-c:v"; Arg "libx264";
    Arg "-b:v"; Arg (k_of vidBitrate);
    Arg "-maxrate"; Arg (k_of vidBitrate);
    Arg "-bufsize"; Arg (k_of (mul vidBitrate (Num.of_Z 2)));
    Arg "-preset"; Arg preset ]
  ++ (if negb (String.eqb maxResolution "original")
      then [ Arg "-vf"; resolutionMap maxResolution ] else [])
  ++ [ Arg "-c:a"; Arg "aac"; Arg "-b:a"; Arg (k_of audioBitrate);
       Arg "-map_metadata"; Arg "0"; Arg "-movflags"; Arg "+faststart";
       Arg outputPath ].

Definition compressVideo (inputPath outputPath : string)
    (vidBitrate audioBitrate : number) (preset maxResolution : string)
    (ffmpegTimeout : number) : prog unit :=
  bin <- pullBinary ffmpeg ;;
  r <- call (Spawn bin (compress_args inputPath outputPath vidBitrate
                          audioBitrate preset maxResolution)) ;;
  match r with
  | inl e => Throw e
  | inr evs => await (c_promise (compress_run ffmpegTimeout evs))
  end.

(** [Promise.allSettled(paths.map(p => unlink(p)))]: every deletion is
    started, no result is looked at. *)
Fixpoint cleanup (paths : list string) : prog unit :=
  match paths with
  | [] => Ret tt
  | p :: rest => call (Unlink p) ;; cleanup rest
  end.

Definition awaitWriteFile (p : string) (data : bytes) : prog unit :=
  r <- call (WriteFile p data) ;;
  match r with None => Ret tt | Some e => Throw e end.

Definition awaitReadFile (p : string) : prog bytes :=
  r <- call (ReadFile p) ;;
  match r with inr data => Ret data | inl e => Throw e end.

(** [err?.message || err?.toString() || "unk error"] *)
Definition errorText (err : error) : string :=
  if truthy (message err) then message err
  else if truthy (toString err) then toString err
  else "unk error".

Definition tooLow (videoBitrate : number) : string :=
  ("target bitrate too low (" ++ Number_toString rt videoBitrate ++ "k)")%string.

Definition fileExt (fileName : string) : string :=
  if truthy (path_extname rt fileName) then path_extname rt fileName
  else ".mp4".

Definition inPath_of (now : Z) (ext : string) : string :=
  path_join rt (os_tmpdir rt) ("ac_in_" ++ Str.of_Z now ++ ext)%string.

Definition outPath_of (now : Z) (ext : string) : string :=
  path_join rt (os_tmpdir rt) ("ac_out_" ++ Str.of_Z now ++ ext)%string.

(** The body of [handleFile] once the two paths are derived. *)
Definition handleFile_body (inPath outPath : string) (fileData : bytes)
    (target : number) (preset resolution : string) (timeout : number)
  : prog CompressResult :=
  try_catch
    (awaitWriteFile inPath fileData ;;
     duration <- getVideoDuration inPath ;;
     let audioBitrate := Num.of_Z 128 in
     let videoBitrate := videoBitrate target duration in
     if ltb videoBitrate (Num.of_Z 100) then
       cleanup [inPath] ;;
       Ret (Failure (tooLow videoBitrate))
     else
       compressVideo inPath outPath videoBitrate audioBitrate preset
                     resolution timeout ;;
       res <- awaitReadFile outPath ;;
       cleanup [inPath; outPath] ;;
       Ret (Success res))
    (fun err =>
       cleanup [inPath; outPath] ;;
       Ret (Failure (errorText err))).

Definition handleFile (fileData : bytes) (fileName : string) (target : number)
    (preset resolution : string) (timeout : number) : prog CompressResult :=
  let ext := fileExt fileName in
  t_in <- call DateNow ;;
  t_out <- call DateNow ;;
  handleFile_body (inPath_of t_in ext) (outPath_of t_out ext) fileData
                  target preset resolution timeout.

End Code.

(** ** A small concrete runtime

    A POSIX host with a list of existing files and a clock; what a spawned
    child does is given per executable by [script]. [parseFloat] reads an
    optional sign, then [Infinity] or decimal digits with an optional
    fraction; [Number_toString] prints the exact decimal expansion. It is
    the instance at which the general theorems are evaluated. *)

Module Demo.

Record machine := mkMachine {
  clock : Z;
  files : list string
}.

Definition has (p : string) (w : machine) : bool :=
  existsb (String.eqb p) (files w).

Definition enoent : error := RuntimeError "Error" "ENOENT: no such file or directory".

Definition is_digit (c : ascii) : bool :=
  let n := N_of_ascii c in ((48 <=? n) && (n <=? 57))%N.

Definition digit_val (c : ascii) : Z := Z.of_N (N_of_ascii c) - 48.

(** Leading digits of [s]: their value, how many there are, and the rest. *)
Fixpoint digits (s : string) (acc : Z) (n : nat) : Z * nat * string :=
  match s with
  | String c s' =>
      if is_digit c then digits s' (10 * acc + digit_val c) (S n)
      else (acc, n, s)
  | EmptyString => (acc, n, s)
  end.

Definition parse_unsigned (s : string) : number :=
  if prefix "Infinity" s then S754_infinity false
  else
    let '(i, ni, r) := digits s 0 0%nat in
    match r with
    | String "." r' =>
        let '(f, nf, _) := digits r' 0 0%nat in
        if ((ni + nf)%nat =? 0)%nat then S754_nan
        else div (Num.of_Z (i * 10 ^ Z.of_nat nf + f))
                 (Num.of_Z (10 ^ Z.of_nat nf))
    | _ => if (ni =? 0)%nat then S754_nan else Num.of_Z i
    end.

Definition parse_float (s : string) : number :=
  match Str.trimStart s with
  | String "-" r => SFopp (parse_unsigned r)
  | String "+" r => parse_unsigned r
  | r => parse_unsigned r
  end.

Fixpoint frac_digits (n : nat) (r d : Z) : string :=
  match n with
  | O => ""
  | S n' =>
      if r =? 0 then ""
      else (Str.of_Z (10 * r / d) ++ frac_digits n' (10 * r mod d) d)%string
  end.

Definition number_toString (x : number) : string :=
  match x with
  | S754_nan => "NaN"
  | S754_infinity s => if s then "-Infinity" else "Infinity"
  | S754_zero _ => "0"
  | S754_finite s m e =>
      let sign := if s then "-" else "" in
      if 0 <=? e then (sign ++ Str.of_Z (Zpos m * 2 ^ e))%string
      else
        let d := 2 ^ (- e) in
        let q := Zpos m / d in
        let r := Zpos m mod d in
        if r =? 0 then (sign ++ Str.of_Z q)%string
        else (sign ++ Str.of_Z q ++ "." ++ frac_digits (Z.to_nat (- e)) r d)%string
  end.

(** The text after the last dot of [s], with the dot; empty without one. *)
Fixpoint extname_from (s : string) (cur : string) : string :=
  match s with
  | EmptyString => cur
  | String "." s' => extname_from s' (String "." s')
  | String "/" s' => extname_from s' ""
  | String _ s' => extname_from s' cur
  end.

Definition extname (s : string) : string :=
  match s with
  | String _ s' => extname_from s' ""
  | EmptyString => ""
  end.

(** The members of [Object.prototype] in a realm where nothing was added
    to it. *)
Definition object_prototype : list string :=
  [ "constructor"; "hasOwnProperty"; "isPrototypeOf"; "propertyIsEnumerable";
    "toLocaleString"; "toString"; "valueOf"; "__proto__";
    "__defineGetter__"; "__defineSetter__"; "__lookupGetter__";
    "__lookupSetter__" ].

(** An encoder run (its arguments start with [-y]) that closes with code
    zero leaves its output file, the last argument. *)
Definition written (r : error + list event) (args : list arg)
  : list string :=
  match r, args, last args Undefined with
  | inr evs, Arg "-y" :: _, Arg out =>
      if existsb (fun ev => match ev with Close (Some 0) => true | _ => false end)
                 evs
      then [out] else []
  | _, _, _ => []
  end.

Definition rt (script : string -> list arg -> error + list event)
  : Runtime machine :=
  {| Date_now := fun w => (clock w, w);
     fs_access := fun p w => (has p w, w);
     fs_writeFile := fun p _ w => (None, mkMachine (clock w) (p :: files w));
     fs_readFile := fun p w =>
       (if has p w then inr [] else inl enoent, w);
     fs_unlink := fun p w =>
       (if has p w then None else Some enoent,
        mkMachine (clock w)
                (filter (fun q => negb (String.eqb p q)) (files w)));
     child_spawn := fun p args w =>
       (script p args,
        mkMachine (clock w) (written (script p args) args ++ files w));
     os_tmpdir := "/tmp";
     path_join := fun a b => (a ++ "/" ++ b)%string;
     path_extname := extname;
     path_isAbsolute := prefix "/";
     process_platform := "linux";
     parseFloat := parse_float;
     Number_toString := number_toString;
     Object_prototype_has := fun k => existsb (String.eqb k) object_prototype |}.

Definition start (w : machine) (c : kind -> option string) : state machine :=
  mkState w c [].

Definition is_version (args : list arg) : bool :=
  match args with [Arg "-version"] => true | _ => false end.

(** A host with several installations:
    - [/usr/bin]: an encoder and a probe that work;
    - [/opt/a], [/opt/b]: two more working encoders;
    - [/opt/slow]: an encoder that answers the version query and then
      never finishes an encode, and a probe that never answers the version
      query;
    - [/opt/fake]: an executable that is not the encoder;
    - [/opt/odd]: a probe that reports an infinite duration. *)
Definition host (p : string) (args : list arg)
  : error + list event :=
  if String.eqb p "/usr/bin/ffmpeg" || String.eqb p "/opt/a/ffmpeg"
     || String.eqb p "/opt/b/ffmpeg" then
    if is_version args
    then inr [Stdout "ffmpeg version 6.1 Copyright (c) the FFmpeg developers";
              Close (Some 0)]
    else inr [Stderr "frame=  240 fps= 60"; Close (Some 0)]
  else if String.eqb p "/usr/bin/ffprobe" then
    if is_version args
    then inr [Stdout "ffprobe version"; Stdout " 6.1"; Close (Some 0)]
    else inr [Stdout "120.000000"; Stdout (String (ascii_of_nat 10) "");
              Close (Some 0)]
  else if String.eqb p "/opt/slow/ffmpeg" then
    if is_version args
    then inr [Stdout "FFmpeg version 4.4"; Close (Some 0)]
    else inr [Stderr "frame=    1"; TimerFired; Close None]
  else if String.eqb p "/opt/slow/ffprobe" then
    inr [Stdout "ffprobe version"; TimerFired; Close None]
  else if String.eqb p "/opt/fake/ffmpeg" then
    inr [Stdout "hello"; Close (Some 0)]
  else if String.eqb p "/opt/odd/ffprobe" then
    if is_version args
    then inr [Stdout "ffprobe version 6.1"; Close (Some 0)]
    else inr [Stdout "Infinity"; Close (Some 0)]
  else inl enoent.

Definition disk : list string :=
  [ "/usr/bin/ffmpeg"; "/usr/bin/ffprobe"; "/opt/a/ffmpeg"; "/opt/b/ffmpeg";
    "/opt/slow/ffmpeg"; "/opt/slow/ffprobe"; "/opt/fake/ffmpeg";
    "/opt/odd/ffprobe" ].

Definition node : Runtime machine := rt host.

Definition boot : state machine := start (mkMachine 1700000000000 disk) empty_cache.

(** The state in which [cache.ffmpeg] and [cache.ffprobe] hold [e] and [p]. *)
Definition resolved (e p : string) : state machine :=
  start (mkMachine 1700000000000 disk)
        (cache_set (cache_set empty_cache ffmpeg e) ffprobe p).

End Demo.

(** * Vocabulary of the statements *)

(** What the caller of an awaited promise sees. *)
Definition res_of {A} (o : option (A + error)) : res A :=
  match o with
  | Some (inl a) => Val a
  | Some (inr e) => Exn e
  | None => Hang
  end.

Definition is_unlink (e : effect) : bool :=
  match e with E_unlink _ => true | _ => false end.

(** The encoder is the one child started with [-y] as its first argument. *)
Definition is_encoder_spawn (e : effect) : bool :=
  match e with E_spawn _ (Arg "-y" :: _) => true | _ => false end.

Definition is_end (ev : event) : bool :=
  match ev with Close _ | ErrorEv _ => true | _ => false end.

(** The runtime [rt] with another [unlink]. *)
Definition with_unlink {W} (rt : Runtime W)
    (u : string -> W -> option error * W) : Runtime W :=
  mkRuntime W (Date_now rt) (fs_access rt) (fs_writeFile rt) (fs_readFile rt) u
            (child_spawn rt) (os_tmpdir rt) (path_join rt) (path_extname rt)
            (path_isAbsolute rt) (process_platform rt) (parseFloat rt)
            (Number_toString rt) (Object_prototype_has rt).

Definition cache_writes (bin : kind) (l : list effect) : list string :=
  flat_map (fun e => match e with
                     | E_cacheSet k p => if kind_eqb k bin then [p] else []
                     | _ => []
                     end) l.

Definition writes_of (l : list effect) : list string :=
  flat_map (fun e => match e with E_writeFile p => [p] | _ => [] end) l.

(** What [validateBinary] throws for what [spawn] gave. *)
Definition validation_error (binPath : string) (bin : kind)
    (r : error + list event) : option error :=
  match r with
  | inl e => Some e
  | inr evs =>
      match outcome (v_promise (validate_run binPath bin default_timeoutMs evs))
      with
      | Some (inr e) => Some e
      | _ => None
      end
  end.

(** Which kind a program may cache a path for. *)
Definition op_writes_only (b : kind) {X} (o : op X) : Prop :=
  match o with CacheSet k _ => k = b | _ => True end.

Inductive writes_only (b : kind) {A} : prog A -> Prop :=
| wo_ret (a : A) : writes_only b (Ret a)
| wo_throw (e : error) : writes_only b (Throw e)
| wo_never : writes_only b Never
| wo_vis {X} (o : op X) (k : X -> prog A) :
    op_writes_only b o -> (forall x, writes_only b (k x)) ->
    writes_only b (Vis o k).

Section Vocabulary.

Context {W : Type} (rt : Runtime W).

(** A child started from the cached path of [bin]: what the caller gets
    and what is logged. *)
Definition spawn_step {A} (bin : kind) (args : list arg)
    (settle_of : list event -> option (A + error)) (s : state W)
  : res A * state W :=
  match as_truthy (cache s bin) with
  | None => (Exn NotResolvedPull, s)
  | Some b =>
      let '(r, w) := child_spawn rt b args (world s) in
      let s' := logged s w (E_spawn b args) in
      match r with
      | inl e => (Exn e, s')
      | inr evs => (res_of (settle_of evs), s')
      end
  end.

(** The two paths of a call and the state after the two clock readings. *)
Definition derive (fileName : string) (s : state W) : string * string * state W :=
  let '(t_in, w1) := Date_now rt (world s) in
  let '(t_out, w2) := Date_now rt w1 in
  (inPath_of rt t_in (fileExt rt fileName),
   outPath_of rt t_out (fileExt rt fileName),
   mkState w2 (cache s) (log s)).

(** The steps of [handleFile] up to the probed duration. *)
Definition probe_part (inPath : string) (fileData : bytes) : prog number :=
  awaitWriteFile inPath fileData ;; getVideoDuration rt inPath.

(** The steps from the encoder to the bytes read back. *)
Definition encode_part (inPath outPath : string) (vb : number)
    (preset resolution : string) (timeout : number) : prog bytes :=
  compressVideo rt inPath outPath vb (Num.of_Z 128) preset resolution timeout ;;
  awaitReadFile outPath.

Definition after_cleanup (paths : list string) (s : state W) : state W :=
  snd (run rt (cleanup paths) s).

(** A program that caches for [b] only leaves the entries of the other
    kinds alone. *)
Definition frame (b : kind) (s s' : state W) : Prop :=
  (forall k, k <> b -> cache s' k = cache s k)
  /\ exists l, log s' = (log s ++ l)%list
               /\ forall k q, In (E_cacheSet k q) l -> k = b.

(** Calls made one after another. *)
Fixpoint run_all (calls : list (option string * kind)) (s : state W)
  : list (res string) * state W :=
  match calls with
  | [] => ([], s)
  | (userPath, bin) :: rest =>
      let '(r, s1) := run rt (resolveBinary rt userPath bin) s in
      let '(rs, s2) := run_all rest s1 in
      (r :: rs, s2)
  end.

End Vocabulary.

(** The direct run of [Demo]: both tools resolved in [/usr/bin]. *)
Definition demo_call (fileName : string) (target : Z) (encoder probe : string)
  : res CompressResult * state Demo.machine :=
  run Demo.node
    (handleFile Demo.node [] fileName (Num.of_Z target) "medium" "720"
                (Num.of_Z 10000))
    (Demo.resolved encoder probe).

(** The host of [Demo] once auto-discovery has found the encoder. *)
Definition demo_discovered : state Demo.machine :=
  snd (run Demo.node (resolveBinary Demo.node None ffmpeg) Demo.boot).

(** ** Numbers: products by powers of two *)

(** [2^k] as a binary64 value, for [k] in the normal range. *)
Definition pow2 (k : Z) : number := S754_finite false 4503599627370496 (k - 52).

(** The product of a valid [x] by [2^k], [0 <= k]: the mantissa of a
    subnormal is shifted left as far as it can be, the rest of [k] goes
    to the exponent, and an exponent above the largest one overflows. *)
Definition scale (k : Z) (x : number) : number :=
  match x with
  | S754_finite s m e =>
      let j := Z.min k (prec - Zpos (digits2_pos m)) in
      if e + k - j <=? emax - prec
      then S754_finite s (Pos.shiftl_nat m (Z.to_nat j)) (e + k - j)
      else S754_infinity s
  | _ => x
  end.

Definition exact_rec (m : Z) : shr_record := Build_shr_record m false false.

(** The formula of the specification: the size in bytes is the target in
    megabytes times [1024*1024], and the bitrate is
    [floor(targetSizeBytes*8 / durationSeconds / 1000)]. *)
Definition targetSizeBytes (target : number) : number :=
  mul target (mul (Num.of_Z 1024) (Num.of_Z 1024)).

Definition spec_videoBitrateKbps (targetSizeBytes durationSeconds : number)
  : number :=
  floor (div (div (mul targetSizeBytes (Num.of_Z 8)) durationSeconds)
             (Num.of_Z 1000)).

(** * index.ts: the caller

    The renderer side of the plugin. A dropped or pasted [File] is its
    name, its MIME type and its size; reading its bytes
    ([file.arrayBuffer()]) is an operation of the host that can fail. The
    calls of [handleFiles] to the upload manager, the toasts and the
    notifications are the actions it returns, in order; what the calls of
    [processFile] gave, [Promise.all] returns in the order of the files. *)

Record File := mkFile {
  f_name : string;
  f_type : string;
  f_size : Z
}.

Definition FORMATS : list string :=
  [ "video/mp4"; "video/quicktime"; "video/x-msvideo"; "video/x-matroska";
    "video/webm"; "audio/mpeg"; "audio/wav"; "audio/flac" ].

Definition FORMATS_has (t : string) : bool := existsb (String.eqb t) FORMATS.

Record Settings := mkSettings {
  ffmpegTimeout : number;
  ffmpegPath : option string;
  ffprobePath : option string;
  compressionTarget : number;
  compressionThreshold : number;
  compressionPreset : string;
  maxResolution : string
}.

(** The defaults of [definePluginSettings]. *)
Definition default_settings : Settings :=
  mkSettings (Num.of_Z 10) None None (Num.of_Z 9) (Num.of_Z 10) "medium"
             "original".

Inductive ProcessResult :=
| Processed (file : File) (data : bytes) (size : number)
| NotProcessed (fileName : string) (error : string).

Definition is_processed (r : ProcessResult) : bool :=
  match r with Processed _ _ _ => true | NotProcessed _ _ => false end.

(** [x / (1024 * 1024)] *)
Definition megabytes (x : Z) : number :=
  div (Num.of_Z x) (mul (Num.of_Z 1024) (Num.of_Z 1024)).

Section Index.

Context {W : Type} (rt : Runtime W).
Variable st : Settings.
Variable arrayBuffer : File -> error + bytes.

(** [processFile]: the compressed [File] has the name and the type of the
    original and the bytes the native side returned. *)
Definition processFile (file : File) : prog ProcessResult :=
  try_catch
    (buffer <- match arrayBuffer file with
               | inr b => Ret b
               | inl e => Throw e
               end ;;
     res <- handleFile rt buffer (f_name file) (compressionTarget st)
                       (compressionPreset st) (maxResolution st)
                       (mul (ffmpegTimeout st) (Num.of_Z 1000)) ;;
     match res with
     | Failure e => Ret (NotProcessed (f_name file) e)
     | Success resArray =>
         let n := Z.of_nat (List.length resArray) in
         Ret (Processed (mkFile (f_name file) (f_type file) n) resArray
                        (megabytes n))
     end)
    (fun err => Ret (NotProcessed (f_name file) (message rt err))).

(** The test of the [for] loop of [handleFiles]. *)
Definition compressible (file : File) : bool :=
  FORMATS_has (f_type file)
  && ltb (compressionThreshold st) (megabytes (f_size file)).

Inductive action :=
| ClearAll (channelId : string)
| AddFiles (channelId : string) (files : list File)
| ShowToast (text : string)
| Invoke (file : File)
| ShowNotification (title body color : string)
| PreventDefault
| StopPropagation
| StopImmediatePropagation.

Definition newline : string := String (ascii_of_nat 10) "".

Fixpoint join (sep : string) (l : list string) : string :=
  match l with
  | [] => ""
  | [x] => x
  | x :: r => (x ++ sep ++ join sep r)%string
  end.

Definition failed_text (r : ProcessResult) : string :=
  match r with
  | NotProcessed fileName error => (fileName ++ " (" ++ error ++ ")")%string
  | Processed f _ _ => ""
  end.

Definition file_of (r : ProcessResult) : list File :=
  match r with Processed f _ _ => [f] | NotProcessed _ _ => [] end.

Definition of_len {A} (l : list A) : string :=
  Str.of_Z (Z.of_nat (List.length l)).

Definition summary (successful failed results : list ProcessResult) : string :=
  ("Compressed " ++ of_len successful ++ "/" ++ of_len results ++ " file(s)"
   ++ (if (0 <? List.length failed)%nat
       then newline ++ "Failed: " ++ join ", " (map failed_text failed)
       else ""))%string.

Definition color_of (successful failed : list ProcessResult) : string :=
  if (List.length failed =? 0)%nat then "#43b581"
  else if (List.length successful =? 0)%nat then "#f04747"
  else "#faa61a".

(** [handleFiles]; [results] is what [Promise.all] gave for the
    compressible files, in their order. *)
Definition handleFiles (channelId : option string)
    (results : list File -> list ProcessResult) (files : list File)
  : list action :=
  let compressibleFiles := filter compressible files in
  let otherFiles := filter (fun f => negb (compressible f)) files in
  match as_truthy channelId with
  | None => []
  | Some ch =>
      ClearAll ch ::
      if (List.length compressibleFiles =? 0)%nat then
        if (0 <? List.length otherFiles)%nat then [AddFiles ch otherFiles] else []
      else
        let rs := results compressibleFiles in
        let successful := filter is_processed rs in
        let failed := filter (fun r => negb (is_processed r)) rs in
        let toUpload := (flat_map file_of successful ++ otherFiles)%list in
        (ShowToast ("Preparing to compress " ++ of_len compressibleFiles ++ "/"
                      ++ of_len files ++ " file(s)")
           :: map Invoke compressibleFiles)
        ++ (if (0 <? List.length toUpload)%nat then [AddFiles ch toUpload] else [])
        ++ [ShowNotification "AutoCompress" (summary successful failed rs)
                             (color_of successful failed)]
  end.




End Index.

(** The files handed to the upload manager. *)
Definition uploads (acts : list action) : list File :=
  flat_map (fun a => match a with AddFiles _ fs => fs | _ => [] end) acts.

Definition is_failed (r : ProcessResult) : bool := negb (is_processed r).

(** The listeners of the document: [start] and [stop] of the plugin.
    Adding a listener that is registered already does nothing. *)
Inductive hook := hookDrop | hookDrag | hookPaste.

Definition hook_eqb (a b : hook) : bool :=
  match a, b with
  | hookDrop, hookDrop | hookDrag, hookDrag | hookPaste, hookPaste => true
  | _, _ => false
  end.

Definition listener : Type := string * hook.

Definition listener_eqb (a b : listener) : bool :=
  String.eqb (fst a) (fst b) && hook_eqb (snd a) (snd b).

Definition addEventListener (type : string) (h : hook) (ls : list listener)
  : list listener :=
  if existsb (listener_eqb (type, h)) ls then ls else (ls ++ [(type, h)])%list.

Definition removeEventListener (type : string) (h : hook) (ls : list listener)
  : list listener :=
  filter (fun l => negb (listener_eqb (type, h) l)) ls.

Definition plugin_start (ls : list listener) : list listener :=
  addEventListener "paste" hookPaste
    (addEventListener "dragover" hookDrag
       (addEventListener "drop" hookDrop ls)).

Definition plugin_stop (ls : list listener) : list listener :=
  removeEventListener "dragover" hookDrag
    (removeEventListener "drop" hookDrop ls).

(** * More vocabulary *)

(** A program without an await that can stay pending. *)
Inductive settles {A} : prog A -> Prop :=
| settles_ret (a : A) : settles (Ret a)
| settles_throw (e : error) : settles (Throw e)
| settles_vis {X} (o : op X) (k : X -> prog A) :
    (forall x, settles (k x)) -> settles (Vis o k).

(** A program that never writes the cache and never looks for a file. *)
Definition op_no_resolve {X} (o : op X) : Prop :=
  match o with CacheSet _ _ | Access _ => False | _ => True end.

Inductive no_resolve {A} : prog A -> Prop :=
| nr_ret (a : A) : no_resolve (Ret a)
| nr_throw (e : error) : no_resolve (Throw e)
| nr_never : no_resolve Never
| nr_vis {X} (o : op X) (k : X -> prog A) :
    op_no_resolve o -> (forall x, no_resolve (k x)) -> no_resolve (Vis o k).

Definition is_resolve_effect (e : effect) : bool :=
  match e with E_cacheSet _ _ | E_access _ => true | _ => false end.

Definition version_query : list arg := [Arg "-version"].

(** The trace of the candidates that did not make it: each one is tested
    for existence and, if it exists, asked for its version. *)
Inductive probes : list string -> list effect -> Prop :=
| probes_nil : probes [] []
| probes_absent (q : string) (qs : list string) (l : list effect) :
    probes qs l -> probes (q :: qs) (E_access q :: l)
| probes_invalid (q : string) (qs : list string) (l : list effect) :
    probes qs l ->
    probes (q :: qs) (E_access q :: E_spawn q version_query :: l).

Definition accessed (l : list effect) : list string :=
  flat_map (fun e => match e with E_access p => [p] | _ => [] end) l.

Definition spawned (l : list effect) : list string :=
  flat_map (fun e => match e with E_spawn p _ => [p] | _ => [] end) l.

Definition is_cacheSet (e : effect) : bool :=
  match e with E_cacheSet _ _ => true | _ => false end.

(** The host of [Demo] with an empty disk. *)
Definition demo_bare : state Demo.machine :=
  Demo.start (Demo.mkMachine 1700000000000 []) empty_cache.


(** The effects of a call of [handleFile] that goes all the way. *)
Definition full_run {W} (rt : Runtime W) (probe encoder inPath outPath : string)
    (vb : number) (preset resolution : string) : list effect :=
  [ E_writeFile inPath;
    E_spawn probe (probe_args inPath);
    E_spawn encoder (compress_args rt inPath outPath vb (Num.of_Z 128) preset
                                   resolution);
    E_readFile outPath;
    E_unlink inPath;
    E_unlink outPath ].

(** The children of a call of [handleFile]: the probe, started from the
    probe path of the cache [c] on the input, and the encoder, started
    from the encoder path of [c] on the input and the output. *)
Definition cached_tool {W} (rt : Runtime W) (c : kind -> option string)
    (inPath outPath preset resolution : string) (e : effect) : Prop :=
  match e with
  | E_spawn p a =>
      (a = probe_args inPath /\ as_truthy (c ffprobe) = Some p)
      \/ (exists vb,
            a = compress_args rt inPath outPath vb (Num.of_Z 128) preset
                              resolution
            /\ as_truthy (c ffmpeg) = Some p)
  | _ => True
  end.

(** The host of [Demo] with a probe path cached that does not exist. *)
Definition demo_missing_probe : state Demo.machine :=
  Demo.resolved "/usr/bin/ffmpeg" "/opt/none/ffprobe".

(** The host of [Demo] with one more encoder, which lacks the codec. *)
Definition broken_host (p : string) (args : list arg)
  : error + list event :=
  if String.eqb p "/opt/broken/ffmpeg"
  then inr [Stderr "Unknown encoder 'libx264'"; Close (Some 1)]
  else Demo.host p args.

Definition demo_broken : Runtime Demo.machine := Demo.rt broken_host.

(** The host of [Demo] with a temporary directory that cannot be written. *)
Definition erofs : error := RuntimeError "Error" "EROFS: read-only file system".

Definition demo_readonly : Runtime Demo.machine :=
  mkRuntime Demo.machine (Date_now Demo.node) (fs_access Demo.node)
            (fun _ _ w => (Some erofs, w)) (fs_readFile Demo.node)
            (fs_unlink Demo.node) (child_spawn Demo.node) (os_tmpdir Demo.node)
            (path_join Demo.node) (path_extname Demo.node)
            (path_isAbsolute Demo.node) (process_platform Demo.node)
            (parseFloat Demo.node) (Number_toString Demo.node)
            (Object_prototype_has Demo.node).

(** * Properties *)

(** ** Strings *)

Lemma prefix_app (a s : string) :
  prefix a s = true <-> exists post, s = (a ++ post)%string.
Proof.
  revert s; induction a as [|c a IH]; intros s.
  - split; [intros _; now exists s | intros _; now destruct s].
  - destruct s as [|d s]; simpl.
    + split; [discriminate | intros [post H]; discriminate].
    + destruct (ascii_dec c d) as [->|Hne].
      * rewrite IH. split; intros [post H]; exists post.
        -- now rewrite H.
        -- now inversion H.
      * split; [discriminate | intros [post H]; inversion H; congruence].
Qed.

Lemma includes_eq (s sub : string) :
  includes s sub =
  if prefix sub s then true
  else match s with
       | EmptyString => false
       | String _ s' => includes s' sub
       end.
Proof. now destruct s. Qed.

Lemma includes_contains (s sub : string) :
  includes s sub = true <-> contains s sub.
Proof.
  unfold contains. induction s as [|c s IH]; rewrite includes_eq.
  - destruct (prefix sub "") eqn:E.
    + split; [intros _ | reflexivity].
      apply prefix_app in E as [post E]. now exists "", post.
    + split; [discriminate | intros (pre & post & H)].
      destruct pre; [|discriminate]. simpl in H.
      assert (prefix sub "" = true) by (apply prefix_app; now exists post).
      congruence.
  - destruct (prefix sub (String c s)) eqn:E.
    + split; [intros _ | reflexivity].
      apply prefix_app in E as [post E]. now exists "", post.
    + rewrite IH. split.
      * intros (pre & post & H). exists (String c pre), post. now rewrite H.
      * intros (pre & post & H). destruct pre as [|d pre].
        -- simpl in H.
           assert (prefix sub (String c s) = true)
             by (apply prefix_app; now exists post).
           congruence.
        -- inversion H. now exists pre, post.
Qed.

Lemma toLowerCase_app (a b : string) :
  toLowerCase (a ++ b) = (toLowerCase a ++ toLowerCase b)%string.
Proof. induction a as [|c a IH]; simpl; [reflexivity | now rewrite IH]. Qed.

Lemma toLowerCase_split (s a b : string) :
  toLowerCase s = (a ++ b)%string ->
  exists s1 s2, s = (s1 ++ s2)%string /\
                toLowerCase s1 = a /\ toLowerCase s2 = b.
Proof.
  revert s; induction a as [|c a IH]; intros s H.
  - exists "", s. now simpl in *.
  - destruct s as [|d s]; [discriminate|]. simpl in H. inversion H as [[Hc Hs]].
    destruct (IH s Hs) as (s1 & s2 & -> & H1 & H2).
    exists (String d s1), s2. simpl. now rewrite H1, H2.
Qed.

Lemma kind_name_lower (bin : kind) : toLowerCase (kind_name bin) = kind_name bin.
Proof. now destruct bin. Qed.

(** [out.toLowerCase().includes(binName)] finds the tool name in [out]
    written in any case. *)
Lemma includes_lower_ci (out : string) (bin : kind) :
  includes (toLowerCase out) (kind_name bin) = true
  <-> ci_contains out (kind_name bin).
Proof.
  rewrite includes_contains. unfold contains, ci_contains. split.
  - intros (pre & post & H).
    apply toLowerCase_split in H as (s1 & r & -> & H1 & H).
    apply toLowerCase_split in H as (s2 & s3 & -> & H2 & H3).
    exists s1, s2, s3. split; [reflexivity|].
    now rewrite kind_name_lower.
  - intros (pre & mid & post & -> & H).
    exists (toLowerCase pre), (toLowerCase post).
    rewrite !toLowerCase_app, H. now rewrite kind_name_lower.
Qed.

(** ** Promises *)

Lemma settle_settled {A} (r r' : A + error) (p : promise A) :
  outcome p = Some r -> outcome (settle r' p) = Some r.
Proof. unfold settle; simpl. now intros ->. Qed.

Lemma settle_pending {A} (r : A + error) (p : promise A) :
  outcome p = None -> outcome (settle r p) = Some r.
Proof. unfold settle; simpl. now intros ->. Qed.

(** ** Programs *)

Section Run.

Context {W : Type} (rt : Runtime W).

Lemma run_bind {A B} (p : prog A) (f : A -> prog B) (s : state W) :
  run rt (bind p f) s =
  match run rt p s with
  | (Val a, s') => run rt (f a) s'
  | (Exn e, s') => (Exn e, s')
  | (Hang, s') => (Hang, s')
  end.
Proof.
  revert s; induction p as [a|e| |X o k IH]; intros s; simpl; try reflexivity.
  destruct (perform rt o s) as [x s']. apply IH.
Qed.

Lemma run_try_catch {A} (p : prog A) (h : error -> prog A) (s : state W) :
  run rt (try_catch p h) s =
  match run rt p s with
  | (Exn e, s') => run rt (h e) s'
  | r => r
  end.
Proof.
  revert s; induction p as [a|e| |X o k IH]; intros s; simpl; try reflexivity.
  destruct (perform rt o s) as [x s']. apply IH.
Qed.

Lemma run_call {X} (o : op X) (s : state W) :
  run rt (call o) s = (Val (fst (perform rt o s)), snd (perform rt o s)).
Proof. unfold call; simpl. now destruct (perform rt o s). Qed.

End Run.

Lemma str_app_assoc (a b c : string) :
  ((a ++ b) ++ c = a ++ (b ++ c))%string.
Proof. induction a as [|x a IH]; simpl; [reflexivity | now rewrite IH]. Qed.

Lemma str_app_nil_r (a : string) : (a ++ "")%string = a.
Proof. induction a as [|x a IH]; simpl; [reflexivity | now rewrite IH]. Qed.

(** Case analysis on every [if] of the goal. *)
Ltac split_ifs :=
  repeat match goal with
         | |- context [if ?b then _ else _] => destruct b; simpl
         end.

(** ** validateBinary *)

Section Validate.

Variables (binPath : string) (bin : kind) (timeoutMs : number).

Let h := validate_handle binPath bin timeoutMs.

(** While only output arrives, the handlers collect standard output and
    touch nothing else. *)
Lemma validate_data (pre : list event) (s : vstate) :
  forallb is_data pre = true ->
  fold_left h pre s =
  mkV (v_out s ++ stdout_of pre) (v_timeExceeded s) (v_timer s) (v_killed s)
      (v_promise s).
Proof.
  revert s; induction pre as [|ev pre IH]; intros s Hd; simpl.
  - rewrite str_app_nil_r. now destruct s.
  - simpl in Hd. apply andb_true_iff in Hd as [Hev Hd].
    destruct ev; try discriminate; rewrite (IH _ Hd); simpl.
    + now rewrite str_app_assoc.
    + reflexivity.
Qed.

(** Once the timeout has fired, [timeExceeded] keeps every handler from
    calling [resolve] or [reject]: the promise is not touched again. *)
Lemma validate_after_timeout (evs : list event) (s : vstate) :
  v_timeExceeded s = true -> v_timer s <> Armed ->
  let s' := fold_left h evs s in
  v_promise s' = v_promise s /\ v_killed s' = v_killed s
  /\ v_timeExceeded s' = true /\ v_timer s' <> Armed.
Proof.
  revert s; induction evs as [|ev evs IH]; intros s Ht Ha; simpl.
  - auto.
  - assert (Hs : v_promise (h s ev) = v_promise s
                 /\ v_killed (h s ev) = v_killed s
                 /\ v_timeExceeded (h s ev) = true
                 /\ v_timer (h s ev) <> Armed).
    { destruct s as [o te t k p]; simpl in *; subst te.
      destruct ev, t; simpl; try contradiction; repeat split;
        auto; discriminate. }
    destruct Hs as (Hp & Hk & Ht' & Ha').
    destruct (IH (h s ev) Ht' Ha') as (Hp2 & Hk2 & Ht2 & Ha2).
    repeat split; congruence.
Qed.

(** Once the child has closed, the timer is cleared: the child is not
    killed and the outcome stays what the close handler made it. *)
Lemma validate_after_close (evs : list event) (s : vstate) (r : unit + error) :
  v_timer s <> Armed -> outcome (v_promise s) = Some r ->
  let s' := fold_left h evs s in
  outcome (v_promise s') = Some r /\ v_killed s' = v_killed s
  /\ v_timer s' <> Armed.
Proof.
  revert s; induction evs as [|ev evs IH]; intros s Ha Hr; simpl.
  - auto.
  - assert (Hs : outcome (v_promise (h s ev)) = Some r
                 /\ v_killed (h s ev) = v_killed s
                 /\ v_timer (h s ev) <> Armed).
    { destruct s as [o te t k p]; simpl in *.
      destruct ev, t, te; simpl; try contradiction; split_ifs;
        repeat split; auto; try discriminate; now rewrite Hr. }
    destruct Hs as (Hr' & Hk & Ha').
    destruct (IH (h s ev) Ha' Hr') as (Hr2 & Hk2 & Ha2).
    repeat split; congruence.
Qed.

Lemma validate_run_fold (evs : list event) :
  validate_run binPath bin timeoutMs evs = fold_left h (evs ++ [TimerFired]) v_init.
Proof. unfold validate_run. now rewrite fold_left_app. Qed.

Lemma fold_left_mid {S} (f : S -> event -> S) (pre rest : list event)
    (ev : event) (s : S) :
  fold_left f (pre ++ ev :: rest) s = fold_left f rest (f (fold_left f pre s) ev).
Proof. now rewrite fold_left_app. Qed.

Lemma validate_run_timeout (pre post : list event) :
  forallb is_data pre = true ->
  let v := validate_run binPath bin timeoutMs (pre ++ TimerFired :: post) in
  v_promise v = mkPromise (Some (inr (ValidationTimeout binPath timeoutMs))) 1
  /\ v_killed v = true /\ v_timeExceeded v = true.
Proof.
  intros Hd v. subst v. rewrite validate_run_fold, <- app_assoc.
  change ((TimerFired :: post) ++ [TimerFired])%list
    with (TimerFired :: (post ++ [TimerFired]))%list.
  rewrite fold_left_mid, (validate_data _ _ Hd).
  match goal with
  | |- context [fold_left h ?l ?s1] =>
      destruct (validate_after_timeout l s1 eq_refl) as (Hp & Hk & Ht & _);
        [discriminate | rewrite Hp, Hk, Ht]
  end.
  now repeat split.
Qed.

Lemma validate_run_silent (pre : list event) :
  forallb is_data pre = true ->
  let v := validate_run binPath bin timeoutMs pre in
  v_promise v = mkPromise (Some (inr (ValidationTimeout binPath timeoutMs))) 1
  /\ v_killed v = true /\ v_timeExceeded v = true.
Proof.
  intros Hd v. subst v. unfold validate_run. fold h.
  rewrite (validate_data _ _ Hd). now repeat split.
Qed.

Lemma validate_run_close (pre post : list event) (code : option Z) :
  forallb is_data pre = true ->
  let v := validate_run binPath bin timeoutMs (pre ++ Close code :: post) in
  outcome (v_promise v) =
    Some (if code_is_zero code
             && includes (toLowerCase (stdout_of pre)) (kind_name bin)
          then inl tt else inr (InvalidBinary binPath bin))
  /\ v_killed v = false.
Proof.
  intros Hd v. subst v. rewrite validate_run_fold, <- app_assoc.
  change ((Close code :: post) ++ [TimerFired])%list
    with (Close code :: (post ++ [TimerFired]))%list.
  rewrite fold_left_mid, (validate_data _ _ Hd).
  match goal with
  | |- context [fold_left h ?l ?s1] =>
      match goal with
      | |- _ = Some ?r /\ _ =>
          assert (H1 : v_timer s1 <> Armed /\ outcome (v_promise s1) = Some r
                       /\ v_killed s1 = false);
            [ | destruct H1 as (Ha & Hr & Hk);
                destruct (validate_after_close l s1 r Ha Hr) as (Hr2 & Hk2 & _);
                split; congruence ]
      end
  end.
  simpl. destruct (code_is_zero code); simpl;
    [destruct (includes _ _); simpl|]; repeat split; discriminate.
Qed.

End Validate.

Section RunValidate.

Context {W : Type} (rt : Runtime W).

Lemma run_await {A} (p : promise A) (s : state W) :
  run rt (await p) s = (res_of (outcome p), s).
Proof. unfold await, res_of. now destruct (outcome p) as [[a|e]|]. Qed.

Lemma run_validateBinary (binPath : string) (bin : kind) (timeoutMs : number)
    (s : state W) :
  run rt (validateBinary binPath bin timeoutMs) s =
  let '(r, w) := child_spawn rt binPath [Arg "-version"] (world s) in
  let s' := logged s w (E_spawn binPath [Arg "-version"]) in
  match r with
  | inl e => (Exn e, s')
  | inr evs =>
      (res_of (outcome (v_promise (validate_run binPath bin timeoutMs evs))), s')
  end.
Proof.
  unfold validateBinary. simpl.
  destruct (child_spawn rt binPath _ (world s)) as [[e|evs] w]; simpl;
    [reflexivity | apply run_await].
Qed.

End RunValidate.

(** C7. [validateBinary] on a child that only produces output before the
    decisive event. If the timer fires first (explicitly, or because the
    child never exits), the child is killed, the call fails with the
    validation-timeout error and, [timeExceeded] being set, no handler
    calls [resolve] or [reject] afterwards: the promise was settled by one
    call. If the child closes first, the call succeeds exactly when the
    exit code is zero and the collected output contains the tool name in
    any case of letters, fails with the invalid-binary error otherwise,
    and the child is not killed. *)
Theorem validateBinary_outcome {W} (rt : Runtime W)
    (binPath : string) (bin : kind) (timeoutMs : number)
    (pre post : list event) (s : state W) (w' : W) :
  forallb is_data pre = true ->
  let call := run rt (validateBinary binPath bin timeoutMs) s in
  let spawned evs :=
    child_spawn rt binPath [Arg "-version"] (world s) = (inr evs, w') in
  (forall evs, evs = pre \/ evs = (pre ++ TimerFired :: post)%list ->
     spawned evs ->
     let v := validate_run binPath bin timeoutMs evs in
     fst call = Exn (ValidationTimeout binPath timeoutMs)
     /\ v_killed v = true /\ v_timeExceeded v = true
     /\ settle_calls (v_promise v) = 1%nat)
  /\ (forall code, spawned (pre ++ Close code :: post)%list ->
     let v := validate_run binPath bin timeoutMs (pre ++ Close code :: post) in
     (fst call = Val tt
        <-> code = Some 0 /\ ci_contains (stdout_of pre) (kind_name bin))
     /\ (fst call <> Val tt -> fst call = Exn (InvalidBinary binPath bin))
     /\ v_killed v = false).
Proof.
  intros Hd call spawned. subst call spawned. split.
  - intros evs Hevs Hs v. subst v. rewrite run_validateBinary, Hs. simpl.
    assert (H : v_promise (validate_run binPath bin timeoutMs evs) =
                mkPromise (Some (inr (ValidationTimeout binPath timeoutMs))) 1
                /\ v_killed (validate_run binPath bin timeoutMs evs) = true
                /\ v_timeExceeded (validate_run binPath bin timeoutMs evs) = true).
    { destruct Hevs as [-> | ->];
        [now apply validate_run_silent | now apply validate_run_timeout]. }
    destruct H as (-> & -> & ->). now repeat split.
  - intros code Hs v. subst v. rewrite run_validateBinary, Hs. simpl.
    destruct (validate_run_close binPath bin timeoutMs pre post code Hd)
      as (-> & ->).
    rewrite <- includes_lower_ci.
    destruct code as [[|c|c]|]; simpl;
      try (repeat split; try reflexivity; try discriminate;
           intros [H _]; discriminate).
    destruct (includes _ _); simpl; repeat split; try reflexivity;
      try discriminate; try tauto.
    intros [_ H]; discriminate.
Qed.

(** At the host of [Demo]: the probe in [/opt/slow] never answers the
    version query. *)
Lemma validateBinary_outcome_witness :
  fst (run Demo.node
         (validateBinary "/opt/slow/ffprobe" ffprobe default_timeoutMs)
         Demo.boot)
  = Exn (ValidationTimeout "/opt/slow/ffprobe" default_timeoutMs).
Proof.
  refine (proj1 (proj1 (validateBinary_outcome Demo.node "/opt/slow/ffprobe"
            ffprobe default_timeoutMs [Stdout "ffprobe version"] [Close None]
            Demo.boot _ eq_refl) _ (or_intror eq_refl) eq_refl)).
Defined.

(** ** compressVideo *)

Section Compress.

Context {W : Type} (rt : Runtime W).
Variable ffmpegTimeout : number.

Let h := compress_handle rt ffmpegTimeout.

Lemma compress_data (pre : list event) (s : cstate) :
  forallb is_data pre = true ->
  fold_left h pre s =
  mkC (c_errOut s ++ stderr_of pre) (c_timer s) (c_killed s) (c_promise s).
Proof.
  revert s; induction pre as [|ev pre IH]; intros s Hd; simpl.
  - rewrite str_app_nil_r. now destruct s.
  - simpl in Hd. apply andb_true_iff in Hd as [Hev Hd].
    destruct ev; try discriminate; rewrite (IH _ Hd); simpl.
    + reflexivity.
    + now rewrite str_app_assoc.
Qed.

(** A settled promise ignores every later [resolve] and [reject]; a killed
    child stays killed. *)
Lemma compress_settled (evs : list event) (s : cstate) (r : unit + error) :
  outcome (c_promise s) = Some r -> c_killed s = true ->
  let s' := fold_left h evs s in
  outcome (c_promise s') = Some r /\ c_killed s' = true.
Proof.
  revert s; induction evs as [|ev evs IH]; intros s Hr Hk; simpl.
  - auto.
  - apply IH.
    + destruct s as [e t k p]; simpl in *.
      destruct ev, t; simpl; split_ifs; auto; now rewrite Hr.
    + destruct s as [e t k p]; simpl in *.
      destruct ev, t; simpl; split_ifs; auto.
Qed.

Lemma compress_run_fold (evs : list event) :
  compress_run rt ffmpegTimeout evs = fold_left h (evs ++ [TimerFired]) c_init.
Proof. unfold compress_run. now rewrite fold_left_app. Qed.

(** The timer fires while the encoder is still running: it is killed and
    the promise is rejected with the timeout error, whatever is delivered
    afterwards. *)
Lemma compress_run_timeout (pre post : list event) :
  forallb is_data pre = true ->
  let c := compress_run rt ffmpegTimeout (pre ++ TimerFired :: post) in
  outcome (c_promise c) = Some (inr (Timeout ffmpegTimeout))
  /\ c_killed c = true.
Proof.
  intros Hd c. subst c. rewrite compress_run_fold, <- app_assoc.
  change ((TimerFired :: post) ++ [TimerFired])%list
    with (TimerFired :: (post ++ [TimerFired]))%list.
  rewrite fold_left_mid. fold h. rewrite (compress_data _ _ Hd).
  now apply compress_settled.
Qed.

Lemma compress_run_silent (pre : list event) :
  forallb is_data pre = true ->
  let c := compress_run rt ffmpegTimeout pre in
  outcome (c_promise c) = Some (inr (Timeout ffmpegTimeout))
  /\ c_killed c = true.
Proof.
  intros Hd c. subst c. unfold compress_run. fold h.
  rewrite (compress_data _ _ Hd). now split.
Qed.

(** [compressVideo] always settles: its timer is never cleared. *)
Lemma compress_run_settles (evs : list event) :
  outcome (c_promise (compress_run rt ffmpegTimeout evs)) <> None.
Proof.
  unfold compress_run. fold h.
  assert (H : forall l s,
             c_timer s = Armed \/ outcome (c_promise s) <> None ->
             c_timer (fold_left h l s) = Armed
             \/ outcome (c_promise (fold_left h l s)) <> None).
  { induction l as [|ev l IH]; intros s Hs; simpl; [assumption|].
    apply IH. destruct s as [e t k [o n]]; simpl in *.
    destruct Hs as [-> | Hs]; destruct ev; simpl; split_ifs; auto;
      right; simpl; destruct o; try discriminate; auto.
    destruct t; discriminate. }
  generalize (H evs c_init (or_introl eq_refl)). clear H. subst h. cbv zeta.
  generalize (fold_left (compress_handle rt ffmpegTimeout) evs c_init).
  intros [e t k [o n]] Hs; simpl in *.
  destruct Hs as [-> | Hs]; simpl; [destruct o; discriminate|].
  destruct t, o; simpl; try discriminate; now elim Hs.
Qed.

End Compress.

(** ** handleFile, step by step *)

Section RunNative.

Context {W : Type} (rt : Runtime W).

Lemma run_pullBinary (bin : kind) (s : state W) :
  run rt (pullBinary bin) s =
  (match as_truthy (cache s bin) with
   | Some p => Val p
   | None => Exn NotResolvedPull
   end, s).
Proof. unfold pullBinary. simpl. now destruct (as_truthy (cache s bin)). Qed.

Lemma run_getVideoDuration (inputPath : string) (s : state W) :
  run rt (getVideoDuration rt inputPath) s =
  spawn_step rt ffprobe (probe_args inputPath)
             (fun evs => outcome (p_promise (probe_run rt evs))) s.
Proof.
  unfold getVideoDuration, spawn_step. rewrite run_bind, run_pullBinary.
  destruct (as_truthy (cache s ffprobe)) as [b|]; [|reflexivity]. simpl.
  destruct (child_spawn rt b _ (world s)) as [[e|evs] w]; simpl;
    [reflexivity | apply run_await].
Qed.

Lemma run_compressVideo (inputPath outputPath : string)
    (vb ab : number) (preset res : string) (t : number) (s : state W) :
  run rt (compressVideo rt inputPath outputPath vb ab preset res t) s =
  spawn_step rt ffmpeg (compress_args rt inputPath outputPath vb ab preset res)
             (fun evs => outcome (c_promise (compress_run rt t evs))) s.
Proof.
  unfold compressVideo, spawn_step. rewrite run_bind, run_pullBinary.
  destruct (as_truthy (cache s ffmpeg)) as [b|]; [|reflexivity]. simpl.
  destruct (child_spawn rt b _ (world s)) as [[e|evs] w]; simpl;
    [reflexivity | apply run_await].
Qed.

Lemma run_cleanup (paths : list string) (s : state W) :
  exists w, run rt (cleanup paths) s =
            (Val tt, mkState w (cache s) (log s ++ map E_unlink paths)).
Proof.
  revert s; induction paths as [|p paths IH]; intros s; simpl.
  - exists (world s). rewrite app_nil_r. now destruct s.
  - destruct (fs_unlink rt p (world s)) as [r w1].
    destruct (IH (logged s w1 (E_unlink p))) as [w2 H].
    exists w2. unfold call in *. simpl. rewrite H. simpl.
    now rewrite <- app_assoc.
Qed.

Lemma run_handleFile (fileData : bytes) (fileName : string) (target : number)
    (preset resolution : string) (timeout : number) (s : state W) :
  run rt (handleFile rt fileData fileName target preset resolution timeout) s =
  let '(inPath, outPath, s0) := derive rt fileName s in
  run rt (handleFile_body rt inPath outPath fileData target preset resolution
                          timeout) s0.
Proof.
  unfold handleFile, derive. simpl.
  destruct (Date_now rt (world s)) as [t1 w1]. simpl.
  now destruct (Date_now rt w1) as [t2 w2].
Qed.

(** [handleFile] as the composition of its steps. *)
Lemma run_handleFile_body (inPath outPath : string) (fileData : bytes)
    (target : number) (preset resolution : string) (timeout : number)
    (s : state W) :
  run rt (handleFile_body rt inPath outPath fileData target preset resolution
                          timeout) s =
  match run rt (probe_part rt inPath fileData) s with
  | (Val d, s1) =>
      let vb := videoBitrate target d in
      if ltb vb (Num.of_Z 100) then
        (Val (Failure (tooLow rt vb)), after_cleanup rt [inPath] s1)
      else
        match run rt (encode_part rt inPath outPath vb preset resolution timeout) s1
        with
        | (Val data, s2) =>
            (Val (Success data), after_cleanup rt [inPath; outPath] s2)
        | (Exn e, s2) =>
            (Val (Failure (errorText rt e)), after_cleanup rt [inPath; outPath] s2)
        | (Hang, s2) => (Hang, s2)
        end
  | (Exn e, s1) =>
      (Val (Failure (errorText rt e)), after_cleanup rt [inPath; outPath] s1)
  | (Hang, s1) => (Hang, s1)
  end.
Proof.
  assert (Hc : forall paths r st,
             run rt (cleanup paths ;; Ret r) st
             = (Val r : res CompressResult, after_cleanup rt paths st)).
  { intros paths r st. rewrite run_bind. unfold after_cleanup.
    destruct (run_cleanup paths st) as [w ->]. reflexivity. }
  unfold handleFile_body, probe_part, encode_part.
  rewrite run_try_catch, !run_bind.
  destruct (run rt (awaitWriteFile inPath fileData) s) as [[[]|e|] s1];
    cbv beta iota; [ | apply Hc | reflexivity].
  rewrite run_bind.
  destruct (run rt (getVideoDuration rt inPath) s1) as [[d|e|] s2];
    cbv beta iota; [ | apply Hc | reflexivity].
  cbv zeta. destruct (ltb (videoBitrate target d) (Num.of_Z 100)).
  - rewrite Hc. reflexivity.
  - rewrite !run_bind.
    destruct (run rt (compressVideo rt inPath outPath _ _ preset resolution
                                    timeout) s2) as [[[]|e|] s3];
      cbv beta iota; [ | apply Hc | reflexivity].
    rewrite run_bind.
    destruct (run rt (awaitReadFile outPath) s3) as [[data|e|] s4];
      cbv beta iota; [ | apply Hc | reflexivity].
    rewrite Hc. reflexivity.
Qed.

End RunNative.

Section Steps.

Context {W : Type} (rt : Runtime W).

Lemma run_awaitWriteFile (p : string) (data : bytes) (s : state W) :
  run rt (awaitWriteFile p data) s =
  let '(r, w) := fs_writeFile rt p data (world s) in
  (match r with None => Val tt | Some e => Exn e end,
   logged s w (E_writeFile p)).
Proof.
  unfold awaitWriteFile. simpl.
  now destruct (fs_writeFile rt p data (world s)) as [[e|] w].
Qed.

Lemma run_awaitReadFile (p : string) (s : state W) :
  run rt (awaitReadFile p) s =
  let '(r, w) := fs_readFile rt p (world s) in
  (match r with inr d => Val d | inl e => Exn e end,
   logged s w (E_readFile p)).
Proof.
  unfold awaitReadFile. simpl.
  now destruct (fs_readFile rt p (world s)) as [[e|d] w].
Qed.

(** What [spawn_step] leaves in the log and in the cache. *)
Lemma spawn_step_log {A} (bin : kind) (args : list arg)
    (f : list event -> option (A + error)) (s : state W) :
  let s' := snd (spawn_step rt bin args f s) in
  cache s' = cache s
  /\ (log s' = log s
      \/ exists b, as_truthy (cache s bin) = Some b
                   /\ log s' = (log s ++ [E_spawn b args])%list).
Proof.
  unfold spawn_step. destruct (as_truthy (cache s bin)) as [b|]; simpl; auto.
  destruct (child_spawn rt b args (world s)) as [[e|evs] w]; simpl;
    split; auto; right; now exists b.
Qed.

Lemma spawn_step_val {A} (bin : kind) (args : list arg)
    (f : list event -> option (A + error)) (s s' : state W) (a : A) :
  spawn_step rt bin args f s = (Val a, s') ->
  exists b evs w,
    as_truthy (cache s bin) = Some b
    /\ child_spawn rt b args (world s) = (inr evs, w)
    /\ f evs = Some (inl a)
    /\ s' = logged s w (E_spawn b args).
Proof.
  unfold spawn_step. destruct (as_truthy (cache s bin)) as [b|]; [|discriminate].
  destruct (child_spawn rt b args (world s)) as [[e|evs] w] eqn:Hs;
    [discriminate|].
  unfold res_of. destruct (f evs) as [[a'|e]|] eqn:E; try discriminate.
  intros H. inversion H; subst. exists b, evs, w. repeat split; auto.
Qed.

Lemma spawn_step_hang {A} (bin : kind) (args : list arg)
    (f : list event -> option (A + error)) (s s' : state W) :
  spawn_step rt bin args f s = (Hang, s') ->
  exists b evs w,
    child_spawn rt b args (world s) = (inr evs, w) /\ f evs = None.
Proof.
  unfold spawn_step. destruct (as_truthy (cache s bin)) as [b|]; [|discriminate].
  destruct (child_spawn rt b args (world s)) as [[e|evs] w] eqn:E; [discriminate|].
  unfold res_of. destruct (f evs) as [[a'|e]|] eqn:F; try discriminate.
  intros _. now exists b, evs, w.
Qed.

(** The probe was run and resolved with [d]. *)
Lemma probe_part_val (inPath : string) (fileData : bytes) (s s1 : state W)
    (d : number) :
  run rt (probe_part rt inPath fileData) s = (Val d, s1) ->
  exists b evs,
    as_truthy (cache s ffprobe) = Some b
    /\ outcome (p_promise (probe_run rt evs)) = Some (inl d)
    /\ cache s1 = cache s
    /\ log s1 = (log s ++ [E_writeFile inPath; E_spawn b (probe_args inPath)])%list.
Proof.
  unfold probe_part. rewrite run_bind, run_awaitWriteFile.
  destruct (fs_writeFile rt inPath fileData (world s)) as [[e|] w];
    [discriminate|].
  rewrite run_getVideoDuration. intros H.
  apply spawn_step_val in H as (b & evs & w' & Hb & _ & Hd & ->).
  exists b, evs. simpl in *. repeat split; auto.
  now rewrite <- app_assoc.
Qed.

(** Up to the probe, nothing is deleted and the encoder is not started. *)
Lemma probe_part_log (inPath : string) (fileData : bytes) (s : state W) :
  let s1 := snd (run rt (probe_part rt inPath fileData) s) in
  exists l, log s1 = (log s ++ l)%list
            /\ forallb (fun e => negb (is_unlink e)) l = true
            /\ existsb is_encoder_spawn l = false.
Proof.
  unfold probe_part. rewrite run_bind, run_awaitWriteFile.
  destruct (fs_writeFile rt inPath fileData (world s)) as [[e|] w];
    cbv beta iota zeta.
  - now exists [E_writeFile inPath].
  - rewrite run_getVideoDuration.
    match goal with
    | |- context [spawn_step rt ?b ?a ?f ?st] =>
        destruct (spawn_step_log b a f st) as (_ & [H | (b' & _ & H)])
    end; simpl in H; rewrite H.
    + now exists [E_writeFile inPath].
    + exists [E_writeFile inPath; E_spawn b' (probe_args inPath)].
      now rewrite <- app_assoc.
Qed.

(** From the encoder to reading the output, nothing is deleted, and the
    steps do not wait for ever. *)
Lemma encode_part_log (inPath outPath : string) (vb : number)
    (preset resolution : string) (timeout : number) (s : state W) :
  let r := run rt (encode_part rt inPath outPath vb preset resolution timeout) s in
  fst r <> Hang
  /\ exists l, log (snd r) = (log s ++ l)%list
               /\ forallb (fun e => negb (is_unlink e)) l = true.
Proof.
  unfold encode_part. rewrite run_bind, run_compressVideo.
  unfold spawn_step.
  destruct (as_truthy (cache s ffmpeg)) as [b|]; cbv beta iota zeta.
  - destruct (child_spawn rt b _ (world s)) as [[e|evs] w]; cbv beta iota zeta.
    + simpl. split; [discriminate|]. now eexists [_].
    + pose proof (compress_run_settles rt timeout evs) as Hs.
      unfold res_of.
      destruct (outcome (c_promise (compress_run rt timeout evs)))
        as [[[]|e]|]; [ | | now elim Hs].
      * rewrite run_awaitReadFile.
        destruct (fs_readFile rt outPath _) as [[e|data] w2]; simpl;
          (split; [discriminate|]);
          eexists [_; _]; now rewrite <- app_assoc.
      * simpl. split; [discriminate|]. now eexists [_].
  - simpl. split; [discriminate|]. exists []. now rewrite app_nil_r.
Qed.

(** A probe that closes or fails to start settles the promise. *)
Lemma probe_run_settles (evs : list event) :
  existsb is_end evs = true ->
  outcome (p_promise (probe_run rt evs)) <> None.
Proof.
  unfold probe_run.
  assert (Hk : forall l s, outcome (p_promise s) <> None ->
                           outcome (p_promise (fold_left (probe_handle rt) l s))
                           <> None).
  { induction l as [|ev l IH]; intros s Hs; simpl; [assumption|].
    apply IH. destruct s as [o e [[r|] n]]; [|now elim Hs].
    destruct ev; simpl; split_ifs; discriminate. }
  generalize p_init.
  induction evs as [|ev evs IH]; intros s He; simpl in *; [discriminate|].
  destruct (is_end ev) eqn:E; simpl in He.
  - apply Hk. destruct s as [o e [[r|] n]];
      destruct ev; try discriminate; simpl; split_ifs; discriminate.
  - now apply IH.
Qed.

End Steps.

Section HandleFile.

Context {W : Type} (rt : Runtime W).

Lemma derive_state (fileName : string) (s s0 : state W) (inPath outPath : string) :
  derive rt fileName s = (inPath, outPath, s0) ->
  log s0 = log s /\ cache s0 = cache s.
Proof.
  unfold derive. destruct (Date_now rt (world s)) as [t1 w1].
  destruct (Date_now rt w1) as [t2 w2]. intros H. inversion H. now subst.
Qed.

Lemma after_cleanup_log (paths : list string) (s : state W) :
  log (after_cleanup rt paths s) = (log s ++ map E_unlink paths)%list.
Proof.
  unfold after_cleanup. now destruct (run_cleanup rt paths s) as [w ->].
Qed.

(** Deleting with another [unlink] changes no step before the cleanup. *)
Lemma probe_part_unlink (u : string -> W -> option error * W)
    (inPath : string) (fileData : bytes) (s : state W) :
  run (with_unlink rt u) (probe_part (with_unlink rt u) inPath fileData) s
  = run rt (probe_part rt inPath fileData) s.
Proof.
  unfold probe_part. rewrite !run_bind, !run_awaitWriteFile.
  change (fs_writeFile (with_unlink rt u)) with (fs_writeFile rt).
  destruct (fs_writeFile rt inPath fileData (world s)) as [[e|] w];
    [reflexivity|].
  now rewrite !run_getVideoDuration.
Qed.

Lemma encode_part_unlink (u : string -> W -> option error * W)
    (inPath outPath : string) (vb : number) (preset resolution : string)
    (timeout : number) (s : state W) :
  run (with_unlink rt u)
      (encode_part (with_unlink rt u) inPath outPath vb preset resolution
                   timeout) s
  = run rt (encode_part rt inPath outPath vb preset resolution timeout) s.
Proof.
  unfold encode_part. rewrite !run_bind, !run_compressVideo.
  change (@spawn_step _ (with_unlink rt u) unit) with (@spawn_step _ rt unit).
  change (compress_args (with_unlink rt u)) with (compress_args rt).
  change (compress_run (with_unlink rt u)) with (compress_run rt).
  destruct (spawn_step rt ffmpeg _ _ s) as [[[]|e|] s1]; try reflexivity.
  now rewrite !run_awaitReadFile.
Qed.

End HandleFile.

(** C3. Whatever [handleFile] returns, it returns it after its deletions:
    the last effects of the call are the [unlink] of the temporary input
    and, unless the call stopped before the encoder was started, of the
    temporary output; no outcome is an exception, and the outcome is the
    same with any other [unlink] (failing or not). The only call that
    does not return is one whose probe neither closes nor fails. *)
Theorem handleFile_cleanup {W} (rt : Runtime W)
    (fileData : bytes) (fileName : string) (target : number)
    (preset resolution : string) (timeout : number) (s s0 : state W)
    (inPath outPath : string) :
  derive rt fileName s = (inPath, outPath, s0) ->
  let call :=
    run rt (handleFile rt fileData fileName target preset resolution timeout) s in
  (forall e, fst call <> Exn e)
  /\ (forall r, fst call = Val r ->
      exists work paths,
        log (snd call) = (log s ++ work ++ map E_unlink paths)%list
        /\ forallb (fun e => negb (is_unlink e)) work = true
        /\ ((paths = [inPath] /\ existsb is_encoder_spawn work = false)
            \/ paths = [inPath; outPath]))
  /\ (fst call = Hang ->
      exists b evs w0 w1,
        child_spawn rt b (probe_args inPath) w0 = (inr evs, w1)
        /\ existsb is_end evs = false)
  /\ (forall u,
        fst (run (with_unlink rt u)
               (handleFile (with_unlink rt u) fileData fileName target preset
                           resolution timeout) s)
        = fst call).
Proof.
  intros Hd call. subst call.
  destruct (derive_state rt _ _ _ _ _ Hd) as [Hlog _].
  assert (Hu : forall u,
             fst (run (with_unlink rt u)
                    (handleFile (with_unlink rt u) fileData fileName target
                                preset resolution timeout) s)
             = fst (run rt (handleFile rt fileData fileName target preset
                                       resolution timeout) s)).
  { intros u. rewrite !run_handleFile.
    change (derive (with_unlink rt u) fileName s) with (derive rt fileName s).
    rewrite Hd, !run_handleFile_body, probe_part_unlink.
    destruct (run rt (probe_part rt inPath fileData) s0) as [[d|e|] s1];
      try reflexivity.
    cbv zeta. destruct (ltb (videoBitrate target d) (Num.of_Z 100));
      [reflexivity|].
    rewrite encode_part_unlink.
    now destruct (run rt (encode_part rt inPath outPath _ preset resolution
                                      timeout) s1) as [[data|e|] s2]. }
  refine ((fun H => conj (proj1 H) (conj (proj1 (proj2 H))
                      (conj (proj2 (proj2 H)) Hu))) _).
  clear Hu. rewrite run_handleFile, Hd, run_handleFile_body.
  pose proof (probe_part_log rt inPath fileData s0) as (l1 & Hl1 & Hn1 & He1).
  destruct (run rt (probe_part rt inPath fileData) s0) as [[d|e|] s1] eqn:Hp;
    simpl in Hl1.
  - cbv zeta. destruct (ltb (videoBitrate target d) (Num.of_Z 100)).
    + repeat split; try discriminate; auto.
      intros r _. exists l1, [inPath]. simpl.
      rewrite after_cleanup_log, Hl1, Hlog, <- app_assoc. auto.
    + pose proof (encode_part_log rt inPath outPath (videoBitrate target d)
                    preset resolution timeout s1) as (Hh & l2 & Hl2 & Hn2).
      destruct (run rt (encode_part rt inPath outPath _ preset resolution
                                    timeout) s1) as [[data|e|] s2];
        simpl in Hh, Hl2; [ | | now elim Hh];
        (repeat split; try discriminate; auto;
         intros r _; exists (l1 ++ l2)%list, [inPath; outPath];
         simpl; rewrite after_cleanup_log, Hl2, Hl1, Hlog, forallb_app, Hn1, Hn2,
           <- !app_assoc; auto).
  - repeat split; try discriminate; auto.
    intros r _. exists l1, [inPath; outPath]. simpl.
    rewrite after_cleanup_log, Hl1, Hlog, <- app_assoc. auto.
  - repeat split; try discriminate; auto.
    unfold probe_part in Hp. rewrite run_bind, run_awaitWriteFile in Hp.
    destruct (fs_writeFile rt inPath fileData (world s0)) as [[e|] w];
      [discriminate|].
    rewrite run_getVideoDuration in Hp.
    apply spawn_step_hang in Hp as (b & evs & w' & Hs & Hn).
    exists b, evs, w, w'. split; [exact Hs|].
    destruct (existsb is_end evs) eqn:E; [|reflexivity].
    now elim (probe_run_settles rt evs E).
Qed.

(** ** getVideoDuration *)

Section Probe.

Context {W : Type} (rt : Runtime W).

Lemma probe_data (pre : list event) (s : pstate) :
  forallb is_data pre = true ->
  fold_left (probe_handle rt) pre s =
  mkP (p_out s ++ stdout_of pre) (p_errOut s ++ stderr_of pre) (p_promise s).
Proof.
  revert s; induction pre as [|ev pre IH]; intros s Hd; simpl.
  - rewrite !str_app_nil_r. now destruct s.
  - simpl in Hd. apply andb_true_iff in Hd as [Hev Hd].
    destruct ev; try discriminate; rewrite (IH _ Hd); simpl;
      now rewrite str_app_assoc.
Qed.

Lemma probe_settled (evs : list event) (s : pstate) (r : number + error) :
  outcome (p_promise s) = Some r ->
  outcome (p_promise (fold_left (probe_handle rt) evs s)) = Some r.
Proof.
  revert s; induction evs as [|ev evs IH]; intros s Hr; simpl; [assumption|].
  apply IH. destruct s as [o e p]; simpl in *.
  destruct ev; simpl; split_ifs; auto; now rewrite Hr.
Qed.

(** What the close handler decides when the probe closes after producing
    output only. *)
Lemma probe_run_close (pre post : list event) (code : option Z) :
  forallb is_data pre = true ->
  outcome (p_promise (probe_run rt (pre ++ Close code :: post))) =
  Some (if code_is_zero code then
          let duration := parseFloat rt (trim (stdout_of pre)) in
          if isNaN duration || leb duration (Num.of_Z 0)
          then inr ProbeInvalidData else inl duration
        else inr (ProbeExit code (trim (stderr_of pre)))).
Proof.
  intros Hd. unfold probe_run. rewrite fold_left_mid, (probe_data _ _ Hd).
  apply probe_settled. simpl.
  destruct (code_is_zero code); simpl; [|reflexivity].
  now destruct (isNaN _ || leb _ _).
Qed.

(** What [getVideoDuration] rejects: a probe that closes with another code
    than zero, with the trimmed standard error in the text of the error;
    and a duration that is NaN or at most zero, which covers text that is
    no number, zero, a negative number and minus infinity. *)
Lemma getVideoDuration_rejects (pre post : list event) (code : option Z) :
  forallb is_data pre = true ->
  let settled := outcome (p_promise (probe_run rt (pre ++ Close code :: post))) in
  let duration := parseFloat rt (trim (stdout_of pre)) in
  (code_is_zero code = false ->
     settled = Some (inr (ProbeExit code (trim (stderr_of pre))))
     /\ contains (message rt (ProbeExit code (trim (stderr_of pre))))
                 (trim (stderr_of pre)))
  /\ (code_is_zero code = true ->
      isNaN duration = true \/ leb duration (Num.of_Z 0) = true ->
      settled = Some (inr ProbeInvalidData))
  /\ leb (S754_infinity true) (Num.of_Z 0) = true
  /\ leb (S754_infinity false) (Num.of_Z 0) = false.
Proof.
  intros Hd settled duration. subst settled duration.
  rewrite (probe_run_close pre post code Hd).
  split; [|split; [|split; reflexivity]].
  - intros ->. split; [reflexivity|].
    exists ("ffprobe exited with " ++ of_code code ++ ", ")%string, "".
    simpl. now rewrite str_app_nil_r, !str_app_assoc.
  - intros -> H. cbv zeta.
    destruct H as [-> | ->]; [reflexivity | now rewrite orb_true_r].
Qed.

End Probe.

(** The early return of [handleFile]. *)
Lemma too_low_result {W} (rt : Runtime W)
    (fileData : bytes) (fileName : string) (target : number)
    (preset resolution : string) (timeout : number) (s s0 s1 : state W)
    (inPath outPath : string) (d : number) :
  derive rt fileName s = (inPath, outPath, s0) ->
  run rt (probe_part rt inPath fileData) s0 = (Val d, s1) ->
  ltb (videoBitrate target d) (Num.of_Z 100) = true ->
  run rt (handleFile rt fileData fileName target preset resolution timeout) s
  = (Val (Failure (tooLow rt (videoBitrate target d))),
     after_cleanup rt [inPath] s1).
Proof.
  intros Hd Hp Hlt.
  rewrite run_handleFile, Hd, run_handleFile_body, Hp. cbv zeta.
  now rewrite Hlt.
Qed.

(** C4. A call whose probe gave a duration for which the computed bitrate
    is below 100 returns the failure [target bitrate too low (<bitrate>k)],
    whose text contains the printed bitrate; all the call has done is
    write the input, run the probe and delete the input: no encoder was
    started. *)
Theorem handleFile_bitrate_too_low {W} (rt : Runtime W)
    (fileData : bytes) (fileName : string) (target : number)
    (preset resolution : string) (timeout : number) (s s0 s1 : state W)
    (inPath outPath : string) (d : number) :
  derive rt fileName s = (inPath, outPath, s0) ->
  run rt (probe_part rt inPath fileData) s0 = (Val d, s1) ->
  ltb (videoBitrate target d) (Num.of_Z 100) = true ->
  let vb := videoBitrate target d in
  let call :=
    run rt (handleFile rt fileData fileName target preset resolution timeout) s in
  fst call = Val (Failure (tooLow rt vb))
  /\ contains (tooLow rt vb) (Number_toString rt vb)
  /\ exists probe done,
       as_truthy (cache s ffprobe) = Some probe
       /\ done = [ E_writeFile inPath; E_spawn probe (probe_args inPath);
                   E_unlink inPath ]
       /\ log (snd call) = (log s ++ done)%list
       /\ existsb is_encoder_spawn done = false.
Proof.
  intros Hd Hp Hlt vb call. subst vb call.
  destruct (derive_state rt _ _ _ _ _ Hd) as [Hlog Hcache].
  rewrite (too_low_result rt _ _ _ _ _ _ _ _ _ _ _ _ Hd Hp Hlt).
  apply probe_part_val in Hp as (b & evs & Hb & _ & _ & Hl).
  split; [reflexivity|]. split.
  - exists "target bitrate too low (", "k)". reflexivity.
  - exists b, [E_writeFile inPath; E_spawn b (probe_args inPath); E_unlink inPath].
    rewrite <- Hcache. repeat split; auto.
    simpl. rewrite after_cleanup_log, Hl, Hlog, <- app_assoc. reflexivity.
Qed.

(** C2. A call whose encoder is still running (it has produced output
    only) when the timer fires. The call has started the encoder: the
    step [compressVideo] of the call starts one child, from the cached
    encoder path and with the encoder arguments, and what it returns is,
    for every course of events of that child, what the handlers of that
    child settled. Here the timer handler kills the child and rejects the
    promise with the timeout error, which keeps that outcome whatever
    close or error event is delivered later; so [compressVideo] throws
    the timeout error and [handleFile] returns the failure whose text is
    the timeout message, which is the text of no encode or spawn failure.
    All the call has done is: write the input, run the probe, start the
    encoder, delete the input and delete the output; the output is not
    read. *)
Theorem handleFile_timeout {W} (rt : Runtime W)
    (fileData : bytes) (fileName : string) (target : number)
    (preset resolution : string) (timeout : number) (s s0 s1 : state W)
    (inPath outPath : string) (d : number) (bin : string)
    (pre post : list event) (w' : W) :
  derive rt fileName s = (inPath, outPath, s0) ->
  run rt (probe_part rt inPath fileData) s0 = (Val d, s1) ->
  ltb (videoBitrate target d) (Num.of_Z 100) = false ->
  as_truthy (cache s1 ffmpeg) = Some bin ->
  child_spawn rt bin
    (compress_args rt inPath outPath (videoBitrate target d) (Num.of_Z 128)
                   preset resolution) (world s1)
  = (inr (pre ++ TimerFired :: post)%list, w') ->
  forallb is_data pre = true ->
  (forall late,
     let c := compress_run rt timeout (pre ++ TimerFired :: late) in
     c_killed c = true
     /\ outcome (c_promise c) = Some (inr (Timeout timeout)))
  /\ fst (run rt (handleFile rt fileData fileName target preset resolution
                             timeout) s)
     = Val (Failure (message rt (Timeout timeout)))
  /\ (forall code errOut,
        message rt (Timeout timeout) <> message rt (EncodeFailed code errOut))
  /\ (forall err errOut,
        message rt (Timeout timeout) <> message rt (EncodeSpawnFailed err errOut))
  /\ (let args := compress_args rt inPath outPath (videoBitrate target d)
                                (Num.of_Z 128) preset resolution in
      let encode := compressVideo rt inPath outPath (videoBitrate target d)
                                  (Num.of_Z 128) preset resolution timeout in
      let call := run rt (handleFile rt fileData fileName target preset
                                     resolution timeout) s in
      (forall (s' : state W) (evs : list event) (w : W),
         as_truthy (cache s' ffmpeg) = Some bin ->
         child_spawn rt bin args (world s') = (inr evs, w) ->
         run rt encode s'
         = (res_of (outcome (c_promise (compress_run rt timeout evs))),
            logged s' w (E_spawn bin args)))
      /\ run rt encode s1
         = (Exn (Timeout timeout), logged s1 w' (E_spawn bin args))
      /\ is_encoder_spawn (E_spawn bin args) = true
      /\ exists probe,
           as_truthy (cache s ffprobe) = Some probe
           /\ as_truthy (cache s ffmpeg) = Some bin
           /\ log (snd call)
              = (log s ++ [ E_writeFile inPath;
                            E_spawn probe (probe_args inPath);
                            E_spawn bin args;
                            E_unlink inPath; E_unlink outPath ])%list).
Proof.
  intros Hd Hp Hlt Hbin Hsp Hdata.
  assert (Hrun : forall (s' : state W) evs w,
             as_truthy (cache s' ffmpeg) = Some bin ->
             child_spawn rt bin
               (compress_args rt inPath outPath (videoBitrate target d)
                              (Num.of_Z 128) preset resolution) (world s')
             = (inr evs, w) ->
             run rt (compressVideo rt inPath outPath (videoBitrate target d)
                                   (Num.of_Z 128) preset resolution timeout) s'
             = (res_of (outcome (c_promise (compress_run rt timeout evs))),
                logged s' w
                  (E_spawn bin (compress_args rt inPath outPath
                                  (videoBitrate target d) (Num.of_Z 128)
                                  preset resolution)))).
  { intros s' evs w Hb Hs. rewrite run_compressVideo. unfold spawn_step.
    now rewrite Hb, Hs. }
  assert (Hto : outcome (c_promise (compress_run rt timeout
                                      (pre ++ TimerFired :: post)))
                = Some (inr (Timeout timeout))).
  { now destruct (compress_run_timeout rt timeout pre post Hdata). }
  split; [|split; [|split; [|split]]].
  - intros late c. subst c.
    destruct (compress_run_timeout rt timeout pre late Hdata) as [Ho Hk].
    now split.
  - rewrite run_handleFile, Hd, run_handleFile_body, Hp. cbv zeta. rewrite Hlt.
    unfold encode_part. rewrite run_bind, (Hrun _ _ _ Hbin Hsp), Hto.
    reflexivity.
  - intros code errOut H. simpl in H. discriminate H.
  - intros err errOut H. simpl in H. discriminate H.
  - cbv zeta. split; [exact Hrun|]. split; [|split; [reflexivity|]].
    + now rewrite (Hrun _ _ _ Hbin Hsp), Hto.
    + destruct (derive_state rt _ _ _ _ _ Hd) as [Hlog Hcache].
      rewrite run_handleFile, Hd, run_handleFile_body, Hp. cbv zeta.
      rewrite Hlt. unfold encode_part.
      rewrite run_bind, (Hrun _ _ _ Hbin Hsp), Hto. cbn [res_of fst snd].
      apply probe_part_val in Hp as (probe & evs & Hb & _ & Hc & Hl).
      exists probe. rewrite <- Hcache. split; [exact Hb|].
      split; [now rewrite <- Hc|].
      rewrite after_cleanup_log. cbn [log logged map].
      rewrite Hl, Hlog, <- !app_assoc. reflexivity.
Qed.

(** A 9 MB target for the 120 s clip of [/usr/bin/ffprobe], with the
    encoder of [/opt/slow]: the encoder is started, and the output is
    never read. *)
Lemma handleFile_timeout_witness :
  fst (demo_call "clip.mov" 9 "/opt/slow/ffmpeg" "/usr/bin/ffprobe")
  = Val (Failure "ffmpeg exceeded alloted time of 10")
  /\ log (snd (demo_call "clip.mov" 9 "/opt/slow/ffmpeg" "/usr/bin/ffprobe"))
     = [ E_writeFile "/tmp/ac_in_1700000000000.mov";
         E_spawn "/usr/bin/ffprobe" (probe_args "/tmp/ac_in_1700000000000.mov");
         E_spawn "/opt/slow/ffmpeg"
           (compress_args Demo.node "/tmp/ac_in_1700000000000.mov"
              "/tmp/ac_out_1700000000000.mov"
              (videoBitrate (Num.of_Z 9) (Num.of_Z 120)) (Num.of_Z 128)
              "medium" "720");
         E_unlink "/tmp/ac_in_1700000000000.mov";
         E_unlink "/tmp/ac_out_1700000000000.mov" ].
Proof.
  split; [|reflexivity].
  refine (proj1 (proj2
    (handleFile_timeout Demo.node [] "clip.mov" (Num.of_Z 9) "medium" "720"
       (Num.of_Z 10000) (Demo.resolved "/opt/slow/ffmpeg" "/usr/bin/ffprobe")
       _ _ _ _ _ _ [Stderr "frame=    1"] [Close None] _
       eq_refl eq_refl eq_refl eq_refl eq_refl eq_refl))).
Defined.

(** A 1 MB target for the same clip: 69 kbps. *)
Lemma handleFile_bitrate_too_low_witness :
  fst (demo_call "clip" 1 "/usr/bin/ffmpeg" "/usr/bin/ffprobe")
  = Val (Failure "target bitrate too low (69k)").
Proof.
  refine (proj1
    (handleFile_bitrate_too_low Demo.node [] "clip" (Num.of_Z 1) "medium" "720"
       (Num.of_Z 10000) (Demo.resolved "/usr/bin/ffmpeg" "/usr/bin/ffprobe")
       _ _ _ _ _ eq_refl eq_refl eq_refl)).
Defined.

(** A call that succeeds: it ends with the two deletions. *)
Lemma handleFile_cleanup_witness :
  exists work paths,
    log (snd (demo_call "clip.mov" 9 "/usr/bin/ffmpeg" "/usr/bin/ffprobe"))
    = (log (Demo.resolved "/usr/bin/ffmpeg" "/usr/bin/ffprobe")
         ++ work ++ map E_unlink paths)%list
    /\ forallb (fun e => negb (is_unlink e)) work = true
    /\ ((paths = ["/tmp/ac_in_1700000000000.mov"]
         /\ existsb is_encoder_spawn work = false)
        \/ paths = [ "/tmp/ac_in_1700000000000.mov";
                     "/tmp/ac_out_1700000000000.mov" ]).
Proof.
  refine (proj1 (proj2
    (handleFile_cleanup Demo.node [] "clip.mov" (Num.of_Z 9) "medium" "720"
       (Num.of_Z 10000) (Demo.resolved "/usr/bin/ffmpeg" "/usr/bin/ffprobe")
       _ _ _ eq_refl)) (Success []) eq_refl).
Defined.

(** C8 (the case the code misses). A probe that closes with code zero
    after printing text that [parseFloat] reads as [Infinity]: the
    duration is neither NaN nor at most zero, so the promise of
    [getVideoDuration] is resolved with it. The call goes on to the
    bitrate and, when that is below 100, reports it as too low; that text
    is not the one of the invalid-data failure of the probe. *)
Theorem getVideoDuration_accepts_infinity {W} (rt : Runtime W)
    (fileData : bytes) (fileName : string) (target : number)
    (preset resolution : string) (timeout : number) (s s0 : state W)
    (inPath outPath probe : string) (pre post : list event) (w1 w2 : W) :
  derive rt fileName s = (inPath, outPath, s0) ->
  fs_writeFile rt inPath fileData (world s0) = (None, w1) ->
  as_truthy (cache s0 ffprobe) = Some probe ->
  child_spawn rt probe (probe_args inPath) w1
  = (inr (pre ++ Close (Some 0) :: post)%list, w2) ->
  forallb is_data pre = true ->
  parseFloat rt (trim (stdout_of pre)) = S754_infinity false ->
  ltb (videoBitrate target (S754_infinity false)) (Num.of_Z 100) = true ->
  let inf := S754_infinity false in
  isFinite inf = false
  /\ outcome (p_promise (probe_run rt (pre ++ Close (Some 0) :: post)))
     = Some (inl inf)
  /\ fst (run rt (handleFile rt fileData fileName target preset resolution
                             timeout) s)
     = Val (Failure (tooLow rt (videoBitrate target inf)))
  /\ tooLow rt (videoBitrate target inf) <> errorText rt ProbeInvalidData.
Proof.
  intros Hd Hw Hb Hsp Hdata Hpf Hlt inf. subst inf.
  assert (Ho : outcome (p_promise (probe_run rt (pre ++ Close (Some 0) :: post)))
               = Some (inl (S754_infinity false))).
  { rewrite (probe_run_close rt pre post (Some 0) Hdata). simpl.
    now rewrite Hpf. }
  repeat split; auto.
  - rewrite (too_low_result rt fileData fileName target preset
               resolution timeout s s0
               (logged (logged s0 w1 (E_writeFile inPath)) w2
                       (E_spawn probe (probe_args inPath)))
               inPath outPath (S754_infinity false) Hd);
      [reflexivity | | exact Hlt].
    unfold probe_part. rewrite run_bind, run_awaitWriteFile, Hw.
    rewrite run_getVideoDuration. unfold spawn_step. simpl.
    now rewrite Hb, Hsp, Ho.
  - intros H. discriminate H.
Qed.

(** The probe of [/opt/odd] prints [Infinity]. *)
Lemma getVideoDuration_accepts_infinity_witness :
  fst (demo_call "clip" 9 "/usr/bin/ffmpeg" "/opt/odd/ffprobe")
  = Val (Failure "target bitrate too low (0k)").
Proof.
  refine (proj1 (proj2 (proj2
    (getVideoDuration_accepts_infinity Demo.node [] "clip" (Num.of_Z 9)
       "medium" "720" (Num.of_Z 10000)
       (Demo.resolved "/usr/bin/ffmpeg" "/opt/odd/ffprobe")
       _ _ _ _ [Stdout "Infinity"] [] _ _
       eq_refl eq_refl eq_refl eq_refl eq_refl eq_refl eq_refl)))).
Defined.

(** The names of the input and of the output of one call differ, and a
    file name without extension gets [.mp4]. *)
Lemma temp_names_differ (t_in t_out : Z) (ext : string) :
  ("ac_in_" ++ Str.of_Z t_in ++ ext)%string
  <> ("ac_out_" ++ Str.of_Z t_out ++ ext)%string.
Proof. simpl. discriminate. Qed.

Lemma fileExt_default {W} (rt : Runtime W) (fileName : string) :
  path_extname rt fileName = "" -> fileExt rt fileName = ".mp4".
Proof. unfold fileExt. now intros ->. Qed.

(** C9 (the case the code misses). Two calls for files with the same
    extension that read the same millisecond from the clock derive the
    same input path and the same output path. *)
Theorem handleFile_same_clock_same_paths {W} (rt : Runtime W)
    (fileName1 fileName2 : string) (s1 s2 : state W) (t : Z) (w1 w1' w2 w2' : W) :
  fileExt rt fileName1 = fileExt rt fileName2 ->
  Date_now rt (world s1) = (t, w1) -> Date_now rt w1 = (t, w1') ->
  Date_now rt (world s2) = (t, w2) -> Date_now rt w2 = (t, w2') ->
  fst (derive rt fileName1 s1) = fst (derive rt fileName2 s2).
Proof.
  intros He H1 H1' H2 H2'. unfold derive.
  rewrite H1, H1', H2, H2', He. reflexivity.
Qed.

(** Two clips dropped together on the host of [Demo]. *)
Lemma handleFile_same_clock_same_paths_witness :
  fst (derive Demo.node "a.mp4" Demo.boot)
  = ("/tmp/ac_in_1700000000000.mp4", "/tmp/ac_out_1700000000000.mp4")
  /\ fst (derive Demo.node "b.mp4" Demo.boot)
     = ("/tmp/ac_in_1700000000000.mp4", "/tmp/ac_out_1700000000000.mp4").
Proof.
  split; [reflexivity|].
  refine (eq_sym (handleFile_same_clock_same_paths Demo.node "a.mp4" "b.mp4"
                    Demo.boot Demo.boot 1700000000000 _ _ _ _
                    eq_refl eq_refl eq_refl eq_refl eq_refl)).
Defined.

(** ** resolveBinary *)

Lemma writes_only_bind (b : kind) {A B} (p : prog A) (f : A -> prog B) :
  writes_only b p -> (forall a, writes_only b (f a)) -> writes_only b (bind p f).
Proof.
  intros Hp Hf. induction Hp; simpl; auto; try constructor; auto.
Qed.

Lemma writes_only_try_catch (b : kind) {A} (p : prog A) (h : error -> prog A) :
  writes_only b p -> (forall e, writes_only b (h e)) ->
  writes_only b (try_catch p h).
Proof.
  intros Hp Hh. induction Hp; simpl; auto; try constructor; auto.
Qed.

Lemma writes_only_call (b : kind) {X} (o : op X) :
  op_writes_only b o -> writes_only b (call o).
Proof. intros H. constructor; [exact H | constructor]. Qed.

Lemma writes_only_validateBinary (b : kind) (binPath : string) (bin : kind)
    (t : number) :
  writes_only b (validateBinary binPath bin t).
Proof.
  unfold validateBinary. apply writes_only_bind.
  - now apply writes_only_call.
  - intros [e|evs]; [constructor|]. unfold await.
    destruct (outcome _) as [[u|e]|]; constructor.
Qed.

Create HintDb writes.
#[local] Hint Resolve writes_only_bind writes_only_try_catch writes_only_call
  writes_only_validateBinary : writes.
#[local] Hint Constructors writes_only : writes.

Section Resolve.

Context {W : Type} (rt : Runtime W).

Lemma try_candidates_cons (bin : kind) (p : string) (rest : list string) :
  try_candidates bin (p :: rest) =
  (ex <- fileExists p ;;
   if ex then
     try_catch
       (validateBinary p bin default_timeoutMs ;;
        call (CacheSet bin p) ;;
        Ret p)
       (fun _ => try_candidates bin rest)
   else try_candidates bin rest).
Proof. reflexivity. Qed.

Lemma writes_only_try_candidates (bin : kind) (ps : list string) :
  writes_only bin (try_candidates bin ps).
Proof.
  induction ps as [|p ps IH]; [constructor|]. rewrite try_candidates_cons.
  apply writes_only_bind; [now apply writes_only_call|].
  intros [|]; [|exact IH].
  apply writes_only_try_catch; [|auto].
  apply writes_only_bind; [auto with writes|]. intros _.
  apply writes_only_bind; [now apply writes_only_call | constructor].
Qed.

Lemma writes_only_resolveBinary (userPath : option string) (bin : kind) :
  writes_only bin (resolveBinary rt userPath bin).
Proof.
  unfold resolveBinary. apply writes_only_bind; [now apply writes_only_call|].
  intros c. destruct (as_truthy c); [constructor|].
  destruct (as_truthy userPath) as [up|];
    [|apply writes_only_try_candidates].
  destruct (negb (path_isAbsolute rt up)); [constructor|].
  apply writes_only_bind; [now apply writes_only_call|].
  intros ex. destruct (negb ex); [constructor|].
  apply writes_only_bind; [auto with writes|]. intros _.
  apply writes_only_bind; [now apply writes_only_call | constructor].
Qed.

Lemma frame_refl (b : kind) (s : state W) : frame b s s.
Proof.
  split; [reflexivity|]. exists []. rewrite app_nil_r. split; [reflexivity|].
  intros k q [].
Qed.

Lemma frame_trans (b : kind) (s1 s2 s3 : state W) :
  frame b s1 s2 -> frame b s2 s3 -> frame b s1 s3.
Proof.
  intros [Hc1 (l1 & Hl1 & Hw1)] [Hc2 (l2 & Hl2 & Hw2)]. split.
  - intros k Hk. now rewrite Hc2, Hc1.
  - exists (l1 ++ l2)%list. rewrite Hl2, Hl1, app_assoc. split; [reflexivity|].
    intros k q Hin. apply in_app_or in Hin as [H|H]; eauto.
Qed.

Lemma kind_eqb_eq (a b : kind) : kind_eqb a b = true <-> a = b.
Proof. destruct a, b; simpl; split; congruence. Qed.

Lemma frame_perform (b : kind) {X} (o : op X) (s : state W) :
  op_writes_only b o -> frame b s (snd (perform rt o s)).
Proof.
  assert (Hl : forall w e, (forall k q, e <> E_cacheSet k q) ->
                           frame b s (logged s w e)).
  { intros w e He. split; [reflexivity|]. exists [e]. split; [reflexivity|].
    intros k q [H|[]]. now elim (He k q). }
  destruct o; simpl; intros Ho.
  - destruct (Date_now rt (world s)) as [t w]. simpl.
    split; [reflexivity|]. exists []. rewrite app_nil_r.
    split; [reflexivity | intros k q []].
  - apply frame_refl.
  - subst bin. split.
    + intros k Hk. simpl. unfold cache_set.
      destruct (kind_eqb k b) eqn:E; [|reflexivity].
      apply kind_eqb_eq in E. contradiction.
    + exists [E_cacheSet b p]. split; [reflexivity|].
      intros k q [H|[]]. now inversion H.
  - destruct (fs_access rt p (world s)). apply Hl. discriminate.
  - destruct (fs_writeFile rt p data (world s)). apply Hl. discriminate.
  - destruct (fs_readFile rt p (world s)). apply Hl. discriminate.
  - destruct (fs_unlink rt p (world s)). apply Hl. discriminate.
  - destruct (child_spawn rt p args (world s)). apply Hl. discriminate.
Qed.

Lemma frame_run (b : kind) {A} (p : prog A) (s : state W) :
  writes_only b p -> frame b s (snd (run rt p s)).
Proof.
  intros Hp. revert s. induction Hp; intros s; simpl; try apply frame_refl.
  destruct (perform rt o s) as [x s1] eqn:E.
  apply frame_trans with s1; [|auto].
  pose proof (frame_perform b o s H) as F. now rewrite E in F.
Qed.

(** A cache hit: the path is returned at once; no file is looked for, no
    child is started, the cache is not written. *)
Lemma resolveBinary_hit (userPath : option string) (bin : kind) (p : string)
    (s : state W) :
  as_truthy (cache s bin) = Some p ->
  run rt (resolveBinary rt userPath bin) s = (Val p, s)
  /\ resume rt (resolveBinary rt userPath bin) s = (Ret p, s).
Proof.
  intros H. unfold resolveBinary. simpl. now rewrite H.
Qed.

Lemma truthy_as_truthy (p : string) : truthy p = true -> as_truthy (Some p) = Some p.
Proof. simpl. now intros ->. Qed.

Lemma as_truthy_inv (o : option string) (p : string) :
  as_truthy o = Some p -> o = Some p /\ truthy p = true.
Proof.
  destruct o as [q|]; simpl; [|discriminate].
  destruct (truthy q) eqn:E; [|discriminate]. intros H. inversion H. now subst.
Qed.

Lemma candidatePaths_truthy (bin : kind) (p : string) :
  In p (candidatePaths rt bin) -> truthy p = true.
Proof.
  unfold candidatePaths.
  destruct (String.eqb _ "win32"); [|destruct (String.eqb _ "darwin")];
    simpl; intros H; repeat destruct H as [<- | H]; auto; contradiction.
Qed.

Lemma cache_set_same (c : kind -> option string) (bin : kind) (p : string) :
  cache_set c bin p bin = Some p.
Proof. unfold cache_set. now destruct bin. Qed.

Lemma try_candidates_val (bin : kind) (ps : list string) (s s' : state W)
    (p : string) :
  run rt (try_candidates bin ps) s = (Val p, s') ->
  In p ps /\ cache s' bin = Some p.
Proof.
  revert s; induction ps as [|q ps IH]; intros s; [discriminate|].
  rewrite try_candidates_cons, run_bind. unfold fileExists.
  rewrite run_call. unfold perform.
  destruct (fs_access rt q (world s)) as [[|] w]; cbn [fst snd].
  - rewrite run_try_catch, run_bind, run_validateBinary.
    destruct (child_spawn rt q _ _) as [[e|evs] w2]; cbv beta iota zeta.
    + intros H. apply IH in H as [H1 H2]. split; [now right | exact H2].
    + destruct (res_of _) as [[]|e|].
      * rewrite run_bind, run_call. simpl.
        intros H. inversion H; subst. simpl. split; [auto|].
        apply cache_set_same.
      * intros H. apply IH in H as [H1 H2]. split; [now right | exact H2].
      * discriminate.
  - intros H. apply IH in H as [H1 H2]. split; [now right | exact H2].
Qed.

(** A call that succeeds leaves the path it returns in the cache. *)
Lemma resolveBinary_caches (userPath : option string) (bin : kind)
    (p : string) (s s' : state W) :
  run rt (resolveBinary rt userPath bin) s = (Val p, s') ->
  as_truthy (cache s' bin) = Some p.
Proof.
  unfold resolveBinary. rewrite run_bind, run_call. simpl.
  destruct (as_truthy (cache s bin)) as [c|] eqn:Hc.
  - simpl. intros H. inversion H; subst. exact Hc.
  - destruct (as_truthy userPath) as [up|] eqn:Hu.
    + apply as_truthy_inv in Hu as [_ Ht].
      destruct (negb (path_isAbsolute rt up)); [discriminate|].
      simpl. destruct (fs_access rt up (world s)) as [[|] w]; simpl;
        [|discriminate].
      destruct (child_spawn rt up _ w) as [[e|evs] w2]; simpl; [discriminate|].
      rewrite run_bind, run_await. destruct (res_of _) as [[]|e|];
        simpl; try discriminate.
      intros H. inversion H; subst. simpl.
      rewrite cache_set_same. now apply truthy_as_truthy.
    + intros H. apply try_candidates_val in H as [Hin Hcache].
      rewrite Hcache. apply truthy_as_truthy.
      now apply candidatePaths_truthy with bin.
Qed.

Lemma run_all_hit (calls : list (option string * kind)) (bin : kind)
    (p : string) (s : state W) :
  as_truthy (cache s bin) = Some p ->
  let r := run_all rt calls s in
  as_truthy (cache (snd r) bin) = Some p
  /\ (forall i up, nth_error calls i = Some (up, bin) ->
                   nth_error (fst r) i = Some (Val p))
  /\ exists l, log (snd r) = (log s ++ l)%list
               /\ forall q, ~ In (E_cacheSet bin q) l.
Proof.
  revert s; induction calls as [|[up b] calls IH]; intros s Hc; cbn [run_all].
  - simpl. split; [exact Hc|]. split; [intros [|i] up H; discriminate|].
    exists []. rewrite app_nil_r. split; [reflexivity | intros q []].
  - destruct (run rt (resolveBinary rt up b) s) as [r s1] eqn:E.
    assert (H1 : as_truthy (cache s1 bin) = Some p
                 /\ (b = bin -> r = Val p)
                 /\ exists l, log s1 = (log s ++ l)%list
                              /\ forall q, ~ In (E_cacheSet bin q) l).
    { destruct (kind_eqb b bin) eqn:Eb.
      - apply kind_eqb_eq in Eb. subst b.
        destruct (resolveBinary_hit up bin p s Hc) as [Hr _].
        rewrite Hr in E. inversion E; subst. repeat split; auto.
        exists []. rewrite app_nil_r. split; [reflexivity | intros q []].
      - assert (Hne : bin <> b).
        { intros ->. destruct b; discriminate. }
        pose proof (frame_run b _ s (writes_only_resolveBinary up b))
          as [Hcache (l & Hl & Hw)].
        rewrite E in Hcache, Hl. simpl in Hcache, Hl.
        rewrite (Hcache bin Hne). repeat split; auto.
        + intros ->. destruct bin; discriminate.
        + exists l. split; [exact Hl|]. intros q Hin.
          apply Hw in Hin. congruence. }
    destruct H1 as (Hc1 & Hr & l1 & Hl1 & Hw1).
    specialize (IH s1 Hc1). cbv zeta in IH.
    destruct (run_all rt calls s1) as [rs s2].
    destruct IH as (Hc2 & Hn & l2 & Hl2 & Hw2). cbn [fst snd] in *.
    split; [exact Hc2|]. split.
    + intros [|i] up' H; simpl in *.
      * inversion H; subst. now rewrite Hr.
      * eauto.
    + exists (l1 ++ l2)%list. rewrite Hl2, Hl1, app_assoc.
      split; [reflexivity|]. intros q Hin.
      apply in_app_or in Hin as [H|H]; [now apply (Hw1 q) | now apply (Hw2 q)].
Qed.

End Resolve.

(** C5, as the code has it. Once a call of [resolveBinary] has succeeded
    with [p], the cache holds [p]; every call for that kind that starts
    while [p] is cached returns [p] at once, whatever its user path: run
    alone or resumed among other calls it ends in its first step, and the
    state (world, cache, log) is untouched, so nothing was looked for,
    validated or written. Hence in any sequence of calls made one after
    another, the calls for that kind all return [p] and the cache entry of
    the kind is never written again. *)
Theorem resolveBinary_memoized {W} (rt : Runtime W) (s0 s : state W)
    (userPath0 : option string) (bin : kind) (p : string) :
  run rt (resolveBinary rt userPath0 bin) s0 = (Val p, s) ->
  as_truthy (cache s bin) = Some p
  /\ (forall s' userPath,
        as_truthy (cache s' bin) = Some p ->
        run rt (resolveBinary rt userPath bin) s' = (Val p, s')
        /\ resume rt (resolveBinary rt userPath bin) s' = (Ret p, s'))
  /\ (forall calls,
        let r := run_all rt calls s in
        as_truthy (cache (snd r) bin) = Some p
        /\ (forall i userPath,
              nth_error calls i = Some (userPath, bin) ->
              nth_error (fst r) i = Some (Val p))
        /\ exists l, log (snd r) = (log s ++ l)%list
                     /\ forall q, ~ In (E_cacheSet bin q) l).
Proof.
  intros H. apply resolveBinary_caches in H. split; [exact H|]. split.
  - intros s' up Hc. now apply resolveBinary_hit.
  - intros calls. now apply run_all_hit.
Qed.

(** On the host of [Demo], after auto-discovery found [/usr/bin/ffmpeg],
    a call with another valid user path still returns [/usr/bin/ffmpeg]. *)
Lemma resolveBinary_memoized_witness :
  run Demo.node (resolveBinary Demo.node (Some "/opt/a/ffmpeg") ffmpeg)
      demo_discovered
  = (Val "/usr/bin/ffmpeg", demo_discovered).
Proof.
  refine (proj1 (proj1 (proj2
    (resolveBinary_memoized Demo.node Demo.boot demo_discovered None ffmpeg
       "/usr/bin/ffmpeg" eq_refl)) demo_discovered (Some "/opt/a/ffmpeg")
       eq_refl)).
Defined.

(** C5, as stated, fails when two calls overlap. On the host of [Demo] two
    calls for the encoder start while the cache is empty, one with the
    user path [/opt/a/ffmpeg] and one with [/opt/b/ffmpeg]. The first
    returns [/opt/a/ffmpeg] and caches it; the second, already past its
    cache test, then caches [/opt/b/ffmpeg]: the entry is written twice
    and changes. *)
Lemma resolveBinary_overlap_overwrites :
  let calls := [ resolveBinary Demo.node (Some "/opt/a/ffmpeg") ffmpeg;
                 resolveBinary Demo.node (Some "/opt/b/ffmpeg") ffmpeg ] in
  let mid := pool_run Demo.node [0; 1; 0; 0]%nat (calls, Demo.boot) in
  let fin := pool_run Demo.node [1; 1]%nat mid in
  nth_error (fst mid) 0 = Some (Ret "/opt/a/ffmpeg")
  /\ cache (snd mid) ffmpeg = Some "/opt/a/ffmpeg"
  /\ nth_error (fst fin) 1 = Some (Ret "/opt/b/ffmpeg")
  /\ cache (snd fin) ffmpeg = Some "/opt/b/ffmpeg"
  /\ cache_writes ffmpeg (log (snd fin)) = ["/opt/a/ffmpeg"; "/opt/b/ffmpeg"].
Proof. vm_compute. repeat split. Qed.

(** C6. A call with a non-empty user path and no cached path. A relative
    path fails as invalid configuration before anything is looked at; an
    absolute path that does not exist fails as not found after the one
    existence test; a path whose validation fails fails with that error
    after the existence test and the version query. In the three cases
    the cache is unchanged and the log shows nothing else: no candidate
    location was tried. *)
Theorem resolveBinary_user_path {W} (rt : Runtime W) (s : state W)
    (userPath : string) (bin : kind) :
  as_truthy (cache s bin) = None ->
  truthy userPath = true ->
  let call := run rt (resolveBinary rt (Some userPath) bin) s in
  (path_isAbsolute rt userPath = false ->
     call = (Exn (InvalidConfig bin), s))
  /\ (path_isAbsolute rt userPath = true ->
      forall w1,
        fs_access rt userPath (world s) = (false, w1) ->
        call = (Exn (NotFound bin userPath), logged s w1 (E_access userPath)))
  /\ (path_isAbsolute rt userPath = true ->
      forall w1 r w2 e,
        fs_access rt userPath (world s) = (true, w1) ->
        child_spawn rt userPath [Arg "-version"] w1 = (r, w2) ->
        validation_error userPath bin r = Some e ->
        call = (Exn e,
                mkState w2 (cache s)
                  (log s ++ [ E_access userPath;
                              E_spawn userPath [Arg "-version"] ]))).
Proof.
  intros Hc Ht call. subst call. unfold resolveBinary.
  rewrite run_bind, run_call. simpl. rewrite Hc, Ht.
  split; [|split].
  - intros ->. reflexivity.
  - intros -> w1 Ha. simpl. now rewrite Ha.
  - intros -> w1 r w2 e Ha Hs He. simpl. rewrite Ha. simpl. rewrite Hs.
    unfold logged. simpl. rewrite <- app_assoc. simpl.
    destruct r as [e'|evs]; simpl in He.
    + inversion He; subst. reflexivity.
    + rewrite run_bind, run_await.
      destruct (outcome _) as [[[]|e']|]; try discriminate.
      inversion He; subst. reflexivity.
Qed.

(** On the host of [Demo]: a relative path that names an existing tool. *)
Lemma resolveBinary_user_path_witness :
  run Demo.node (resolveBinary Demo.node (Some "usr/bin/ffmpeg") ffmpeg) Demo.boot
  = (Exn (InvalidConfig ffmpeg), Demo.boot).
Proof.
  refine (proj1 (resolveBinary_user_path Demo.node Demo.boot "usr/bin/ffmpeg"
                   ffmpeg eq_refl eq_refl) eq_refl).
Defined.

(** C10. The empty string is falsy: [resolveBinary] with the empty user
    path is the same program as [resolveBinary] with no user path. With no
    cached path it is the loop over the candidate locations; it does not
    fail as invalid configuration although the empty path is not
    absolute. *)
Theorem resolveBinary_empty_user_path {W} (rt : Runtime W) (bin : kind) :
  resolveBinary rt (Some "") bin = resolveBinary rt None bin
  /\ forall s : state W,
       as_truthy (cache s bin) = None ->
       run rt (resolveBinary rt (Some "") bin) s
       = run rt (try_candidates bin (candidatePaths rt bin)) s.
Proof.
  split; [reflexivity|].
  intros s Hc. unfold resolveBinary. rewrite run_bind, run_call. simpl.
  now rewrite Hc.
Qed.

(** On the host of [Demo] the empty path finds [/usr/bin/ffprobe]. *)
Lemma resolveBinary_empty_user_path_witness :
  fst (run Demo.node (resolveBinary Demo.node (Some "") ffprobe) Demo.boot)
  = Val "/usr/bin/ffprobe".
Proof.
  rewrite (proj2 (resolveBinary_empty_user_path Demo.node ffprobe) Demo.boot
             eq_refl).
  reflexivity.
Defined.

(** ** Numbers: products by powers of two

    [tgBits] multiplies by 8, 1024 and 1024. In binary64 such a product is
    exact up to overflow, so the order of the factors does not matter. *)

Lemma digits2_size (m : positive) : digits2_pos m = Pos.size m.
Proof. induction m; simpl; congruence. Qed.

Lemma shiftl_nat_Z (m : positive) (n : nat) :
  Zpos (Pos.shiftl_nat m n) = Zpos m * 2 ^ Z.of_nat n.
Proof.
  induction n as [|n IH].
  - simpl. lia.
  - rewrite Nat2Z.inj_succ, Z.pow_succ_r by lia.
    change (Pos.shiftl_nat m (S n)) with (xO (Pos.shiftl_nat m n)).
    rewrite Pos2Z.inj_xO, IH. lia.
Qed.

Lemma digits2_shiftl (m : positive) (n : nat) :
  Zpos (digits2_pos (Pos.shiftl_nat m n)) = Zpos (digits2_pos m) + Z.of_nat n.
Proof.
  induction n as [|n IH].
  - simpl. lia.
  - change (Pos.shiftl_nat m (S n)) with (xO (Pos.shiftl_nat m n)).
    simpl digits2_pos. rewrite Pos2Z.inj_succ, IH. lia.
Qed.

Lemma shiftl_nat_add (m : positive) (a b : nat) :
  Pos.shiftl_nat (Pos.shiftl_nat m a) b = Pos.shiftl_nat m (a + b).
Proof.
  induction b as [|b IH].
  - now rewrite Nat.add_0_r.
  - rewrite Nat.add_succ_r.
    change (Pos.shiftl_nat ?x (S ?n)) with (xO (Pos.shiftl_nat x n)).
    now rewrite IH.
Qed.

Lemma iter_pos_nat {A} (f : A -> A) (p : positive) (x : A) :
  iter_pos f p x = Nat.iter (Pos.to_nat p) f x.
Proof.
  revert x; induction p as [p IH|p IH|]; intros x; cbn [iter_pos].
  - rewrite !IH, Pos2Nat.inj_xI, Nat.iter_succ_r, <- Nat.iter_add.
    f_equal. lia.
  - rewrite !IH, Pos2Nat.inj_xO, <- Nat.iter_add. f_equal. lia.
  - reflexivity.
Qed.

Lemma shr_exact (a : positive) (n : nat) :
  Nat.iter n shr_1 (exact_rec (Zpos (Pos.shiftl_nat a n))) = exact_rec (Zpos a).
Proof.
  induction n as [|n IH]; [reflexivity|].
  rewrite Nat.iter_succ_r.
  change (Pos.shiftl_nat a (S n)) with (xO (Pos.shiftl_nat a n)).
  exact IH.
Qed.

Lemma shr_exact_Z (a : positive) (E n : Z) :
  0 <= n ->
  shr (exact_rec (Zpos (Pos.shiftl_nat a (Z.to_nat n)))) E n = (exact_rec (Zpos a), E + n).
Proof.
  intros Hn. destruct n as [|p|p]; [| |lia].
  - simpl. now rewrite Z.add_0_r.
  - unfold shr. rewrite iter_pos_nat. 
    change (Z.to_nat (Zpos p)) with (Pos.to_nat p). now rewrite shr_exact.
Qed.

Lemma shr_fexp_exact (M a : positive) (E n : Z) :
  fexp prec emax (Zpos (digits2_pos M) + E) - E = n ->
  0 <= n ->
  M = Pos.shiftl_nat a (Z.to_nat n) ->
  shr_fexp prec emax (Zpos M) E loc_Exact = (exact_rec (Zpos a), E + n).
Proof.
  intros Hf Hn ->. unfold shr_fexp. cbn [Zdigits2 shr_record_of_loc].
  rewrite Hf. now apply shr_exact_Z.
Qed.

Lemma valid_finite (s : bool) (m : positive) (e : Z) :
  valid (S754_finite s m e) = true ->
  let d := Zpos (digits2_pos m) in
  1 <= d <= 53 /\ -1074 <= e <= 971 /\ (d = 53 \/ e = -1074).
Proof.
  unfold valid, valid_binary, bounded, canonical_mantissa, fexp, emin, prec, emax.
  intros H. apply andb_true_iff in H as [H1 H2].
  apply Z.eqb_eq in H1. apply Z.leb_le in H2. lia.
Qed.

Lemma mul_pow2 (s : bool) (m : positive) (e k : Z) :
  valid (S754_finite s m e) = true -> 0 <= k ->
  mul (S754_finite s m e) (pow2 k) = scale k (S754_finite s m e).
Proof.
  intros Hv Hk. destruct (valid_finite s m e Hv) as (Hd & He & Hc).
  unfold mul, pow2, SFmul, scale. rewrite xorb_false_r.
  set (d := Zpos (digits2_pos m)) in *.
  set (j := Z.min k (prec - d)).
  assert (Hj : 0 <= j <= 52) by (unfold j, prec; lia).
  set (a := Pos.shiftl_nat m (Z.to_nat j)).
  assert (Hda : Zpos (digits2_pos a) = d + j).
  { unfold a. rewrite digits2_shiftl. fold d. lia. }
  assert (HM : (m * 4503599627370496)%positive
               = Pos.shiftl_nat a (Z.to_nat (52 - j))).
  { unfold a. rewrite shiftl_nat_add. apply Pos2Z.inj.
    rewrite shiftl_nat_Z, Pos2Z.inj_mul.
    replace (Z.of_nat (Z.to_nat j + Z.to_nat (52 - j))) with 52 by lia.
    reflexivity. }
  unfold binary_round_aux.
  rewrite (shr_fexp_exact (m * 4503599627370496) a (e + (k - 52)) (52 - j)).
  - cbn [exact_rec shr_m loc_of_shr_record round_nearest_even].
    rewrite (shr_fexp_exact a a (e + (k - 52) + (52 - j)) 0).
    + cbn [exact_rec shr_m].
      replace (e + (k - 52) + (52 - j) + 0) with (e + k - j) by lia.
      reflexivity.
    + rewrite Hda. unfold fexp, emin, prec, emax, j, prec. lia.
    + lia.
    + reflexivity.
  - rewrite HM, digits2_shiftl, Hda.
    unfold fexp, emin, prec, emax, j, prec. lia.
  - lia.
  - exact HM.
Qed.

Lemma mul_pow2_any (x : number) (k : Z) :
  valid x = true -> 0 <= k -> mul x (pow2 k) = scale k x.
Proof.
  destruct x as [s|s| |s m e]; intros Hv Hk.
  - simpl. now rewrite xorb_false_r.
  - simpl. now rewrite xorb_false_r.
  - reflexivity.
  - now apply mul_pow2.
Qed.

Lemma scale_valid (x : number) (k : Z) :
  valid x = true -> 0 <= k -> valid (scale k x) = true.
Proof.
  destruct x as [s|s| |s m e]; intros Hv Hk; try reflexivity.
  destruct (valid_finite s m e Hv) as (Hd & He & Hc).
  unfold scale. set (j := Z.min k (prec - Zpos (digits2_pos m))).
  destruct (e + k - j <=? emax - prec) eqn:E; [|reflexivity].
  apply Z.leb_le in E.
  unfold valid, valid_binary, bounded, canonical_mantissa.
  apply andb_true_iff. split; [|now apply Z.leb_le].
  apply Z.eqb_eq. rewrite digits2_shiftl.
  unfold fexp, emin, j, prec, emax in *. lia.
Qed.

Lemma scale_scale (x : number) (a b : Z) :
  valid x = true -> 0 <= a -> 0 <= b -> scale a (scale b x) = scale (b + a) x.
Proof.
  destruct x as [s|s| |s m e]; intros Hv Ha Hb; try reflexivity.
  destruct (valid_finite s m e Hv) as (Hd & He & Hc).
  unfold scale at 2 3.
  set (d := Zpos (digits2_pos m)) in *.
  set (jb := Z.min b (prec - d)). set (j := Z.min (b + a) (prec - d)).
  destruct (e + b - jb <=? emax - prec) eqn:Eb.
  - apply Z.leb_le in Eb. unfold scale.
    rewrite digits2_shiftl. fold d.
    set (ja := Z.min a (prec - (d + Z.of_nat (Z.to_nat jb)))).
    assert (Hj : jb + ja = j /\ 0 <= jb /\ 0 <= ja)
      by (unfold ja, jb, j, prec in *; lia).
    replace (e + b - jb + a - ja) with (e + (b + a) - j) by lia.
    destruct (e + (b + a) - j <=? emax - prec); [|reflexivity].
    rewrite shiftl_nat_add. f_equal. f_equal. lia.
  - apply Z.leb_gt in Eb. simpl scale.
    assert (E : (e + (b + a) - j <=? emax - prec) = false).
    { apply Z.leb_gt. unfold jb, j, prec, emax in *. lia. }
    now rewrite E.
Qed.

Lemma of_Z_8 : Num.of_Z 8 = pow2 3.
Proof. reflexivity. Qed.

Lemma of_Z_1024 : Num.of_Z 1024 = pow2 10.
Proof. reflexivity. Qed.

Lemma tgBits_assoc (target : number) :
  valid target = true ->
  mul (mul (mul target (Num.of_Z 8)) (Num.of_Z 1024)) (Num.of_Z 1024)
  = mul (mul (mul target (Num.of_Z 1024)) (Num.of_Z 1024)) (Num.of_Z 8).
Proof.
  intros Hv. rewrite of_Z_8, of_Z_1024.
  assert (H3 : valid (scale 3 target) = true) by (apply scale_valid; [auto|lia]).
  assert (H10 : valid (scale 10 target) = true) by (apply scale_valid; [auto|lia]).
  rewrite (mul_pow2_any target 3), (mul_pow2_any target 10) by (auto || lia).
  rewrite !(mul_pow2_any (scale _ target)) by (auto || lia).
  rewrite !(scale_scale target) by (auto || lia).
  rewrite !mul_pow2_any; try lia; try (apply scale_valid; [auto|lia]).
  rewrite !(scale_scale target) by (auto || lia).
  reflexivity.
Qed.

Lemma of_Z_1024_1024 : mul (Num.of_Z 1024) (Num.of_Z 1024) = pow2 20.
Proof. reflexivity. Qed.

(** C1. For every binary64 target and every duration, the bitrate of
    [handleFile] is the formula of the specification evaluated in binary64
    arithmetic; 9 MB and 120 s give 629, which is also the value of the
    formula over the integers. *)
Theorem videoBitrate_formula (target duration : number) :
  valid target = true ->
  videoBitrate target duration
  = spec_videoBitrateKbps (targetSizeBytes target) duration
  /\ videoBitrate (Num.of_Z 9) (Num.of_Z 120) = Num.of_Z 629
  /\ 9 * 1024 * 1024 * 8 / 120 / 1000 = 629.
Proof.
  intros Hv. split; [|split; reflexivity].
  unfold videoBitrate, spec_videoBitrateKbps, targetSizeBytes, tgBits.
  do 3 f_equal.
  rewrite of_Z_1024_1024, of_Z_8, of_Z_1024.
  assert (H3 : valid (scale 3 target) = true) by (apply scale_valid; [auto|lia]).
  rewrite (mul_pow2_any target 3), (mul_pow2_any target 20) by (auto || lia).
  rewrite (mul_pow2_any (scale 3 target)) by (auto || lia).
  rewrite (scale_scale target) by (auto || lia).
  rewrite !mul_pow2_any; try lia; try (apply scale_valid; [auto|lia]).
  rewrite !(scale_scale target) by (auto || lia).
  reflexivity.
Qed.

(** The default target of the settings and a two-minute clip. *)
Lemma videoBitrate_formula_witness :
  videoBitrate (Num.of_Z 9) (Num.of_Z 120)
  = spec_videoBitrateKbps (targetSizeBytes (Num.of_Z 9)) (Num.of_Z 120).
Proof.
  exact (proj1 (videoBitrate_formula (Num.of_Z 9) (Num.of_Z 120) eq_refl)).
Defined.

(** Two clips dropped together on the host of [Demo]: both calls start in
    the same millisecond and then write their input to the same file. *)
Lemma handleFile_overlap_same_input :
  let call name data :=
    handleFile Demo.node data name (Num.of_Z 9) "medium" "original"
               (Num.of_Z 10000) in
  let calls := [ call "a.mp4" [Byte.x01]; call "b.mp4" [Byte.x02] ] in
  let r := pool_run Demo.node [0; 1; 0; 1]%nat
             (calls, Demo.resolved "/usr/bin/ffmpeg" "/usr/bin/ffprobe") in
  writes_of (log (snd r))
  = [ "/tmp/ac_in_1700000000000.mp4"; "/tmp/ac_in_1700000000000.mp4" ].
Proof. vm_compute. reflexivity. Qed.

(** * More of resolve.ts *)

Section Settles.

Context {W : Type} (rt : Runtime W).

(** The timer of [validateBinary] is armed until a handler settles the
    promise: the promise never stays pending. *)
Lemma validate_run_settles (binPath : string) (bin : kind) (t : number)
    (evs : list event) :
  outcome (v_promise (validate_run binPath bin t evs)) <> None.
Proof.
  unfold validate_run.
  assert (H : forall l s,
             (v_timer s = Armed /\ v_timeExceeded s = false)
             \/ outcome (v_promise s) <> None ->
             let s' := fold_left (validate_handle binPath bin t) l s in
             (v_timer s' = Armed /\ v_timeExceeded s' = false)
             \/ outcome (v_promise s') <> None).
  { induction l as [|ev l IH]; intros s Hs; simpl; [assumption|].
    apply IH. destruct s as [o te tm k [oc n]]; simpl in *.
    destruct Hs as [[-> ->] | Hs].
    - destruct ev; simpl; split_ifs; auto; right; simpl;
        destruct oc; discriminate.
    - right. destruct ev, tm, te; simpl; split_ifs; simpl; auto;
        destruct oc; try discriminate; auto. }
  generalize (H evs v_init (or_introl (conj eq_refl eq_refl))). clear H.
  cbv zeta.
  generalize (fold_left (validate_handle binPath bin t) evs v_init).
  intros [o te tm k [oc n]] Hs; simpl in *.
  destruct Hs as [[-> ->] | Hs]; simpl; [destruct oc; discriminate|].
  destruct tm, oc; simpl; try discriminate; now elim Hs.
Qed.

Lemma settles_bind {A B} (p : prog A) (f : A -> prog B) :
  settles p -> (forall a, settles (f a)) -> settles (bind p f).
Proof. intros Hp Hf. induction Hp; simpl; auto; constructor; auto. Qed.

Lemma settles_try_catch {A} (p : prog A) (h : error -> prog A) :
  settles p -> (forall e, settles (h e)) -> settles (try_catch p h).
Proof. intros Hp Hh. induction Hp; simpl; auto; constructor; auto. Qed.

Lemma settles_call {X} (o : op X) : settles (call o).
Proof. constructor. constructor. Qed.

Lemma settles_validateBinary (binPath : string) (bin : kind) (t : number) :
  settles (validateBinary binPath bin t).
Proof.
  unfold validateBinary. apply settles_bind; [apply settles_call|].
  intros [e|evs]; [constructor|]. unfold await.
  pose proof (validate_run_settles binPath bin t evs) as H.
  destruct (outcome _) as [[u|e]|]; [constructor | constructor | now elim H].
Qed.

Lemma settles_try_candidates (bin : kind) (ps : list string) :
  settles (try_candidates bin ps).
Proof.
  induction ps as [|p ps IH]; [constructor|]. rewrite try_candidates_cons.
  apply settles_bind; [apply settles_call|]. intros [|]; [|exact IH].
  apply settles_try_catch; [|auto].
  apply settles_bind; [apply settles_validateBinary|]. intros _.
  apply settles_bind; [apply settles_call | constructor].
Qed.

Lemma settles_resolveBinary (userPath : option string) (bin : kind) :
  settles (resolveBinary rt userPath bin).
Proof.
  unfold resolveBinary. apply settles_bind; [apply settles_call|].
  intros c. destruct (as_truthy c); [constructor|].
  destruct (as_truthy userPath) as [up|]; [|apply settles_try_candidates].
  destruct (negb (path_isAbsolute rt up)); [constructor|].
  apply settles_bind; [apply settles_call|].
  intros ex. destruct (negb ex); [constructor|].
  apply settles_bind; [apply settles_validateBinary|]. intros _.
  apply settles_bind; [apply settles_call | constructor].
Qed.

Lemma settles_run {A} (p : prog A) (s : state W) :
  settles p -> fst (run rt p s) <> Hang.
Proof.
  intros Hp. revert s. induction Hp; intros s; simpl; try discriminate.
  destruct (perform rt o s) as [x s1]. auto.
Qed.

(** [testBinaries] as the composition of its two resolutions. *)
Lemma run_testBinaries (ffmpegPath ffprobePath : option string) (s : state W) :
  run rt (testBinaries rt ffmpegPath ffprobePath) s =
  match run rt (resolveBinary rt ffmpegPath ffmpeg) s with
  | (Val _, s1) =>
      match run rt (resolveBinary rt ffprobePath ffprobe) s1 with
      | (Val _, s2) => (Val TestOk, s2)
      | (Exn e, s2) => (Val (TestFailed (message rt e)), s2)
      | (Hang, s2) => (Hang, s2)
      end
  | (Exn e, s1) => (Val (TestFailed (message rt e)), s1)
  | (Hang, s1) => (Hang, s1)
  end.
Proof.
  unfold testBinaries. rewrite run_try_catch, run_bind.
  destruct (run rt (resolveBinary rt ffmpegPath ffmpeg) s) as [[p|e|] s1];
    cbv beta iota; try reflexivity.
  rewrite run_bind.
  now destruct (run rt (resolveBinary rt ffprobePath ffprobe) s1)
    as [[q|e|] s2].
Qed.

End Settles.

(** X1. Resolution always comes back: whatever the file system and the
    children do, [resolveBinary] and [testBinaries] return or throw; they
    never wait for ever, because every version query is bounded by the
    timer of [validateBinary]. *)
Theorem resolveBinary_never_pending {W} (rt : Runtime W) (s : state W)
    (userPath ffmpegPath ffprobePath : option string) (bin : kind) :
  fst (run rt (resolveBinary rt userPath bin) s) <> Hang
  /\ exists r, fst (run rt (testBinaries rt ffmpegPath ffprobePath) s) = Val r.
Proof.
  split; [apply settles_run, settles_resolveBinary|].
  rewrite run_testBinaries.
  pose proof (settles_run rt _ s (settles_resolveBinary rt ffmpegPath ffmpeg)) as H1.
  destruct (run rt (resolveBinary rt ffmpegPath ffmpeg) s) as [[p|e|] s1];
    cbn [fst] in *; [ | eauto | now elim H1].
  pose proof (settles_run rt _ s1 (settles_resolveBinary rt ffprobePath ffprobe))
    as H2.
  destruct (run rt (resolveBinary rt ffprobePath ffprobe) s1) as [[q|e|] s2];
    cbn [fst] in *; [eauto | eauto | now elim H2].
Qed.

Section Discovery.

Context {W : Type} (rt : Runtime W).

Lemma validate_run_error (binPath : string) (bin : kind) (t : number)
    (pre post : list event) (err : error) :
  forallb is_data pre = true ->
  let v := validate_run binPath bin t (pre ++ ErrorEv err :: post) in
  outcome (v_promise v) = Some (inr err) /\ v_killed v = false.
Proof.
  intros Hd v. subst v. rewrite validate_run_fold, <- app_assoc.
  change ((ErrorEv err :: post) ++ [TimerFired])%list
    with (ErrorEv err :: (post ++ [TimerFired]))%list.
  rewrite fold_left_mid, (validate_data _ _ _ _ _ Hd).
  match goal with
  | |- context [fold_left ?h ?l ?s1] =>
      destruct (validate_after_close binPath bin t l s1 (inr err))
        as (Hr & Hk & _); [discriminate | reflexivity | ]
  end.
  split; [exact Hr | exact Hk].
Qed.

(** The loop over the candidates, from any state: a success names the
    first candidate that exists and validates, a failure has tried them
    all. *)
Lemma try_candidates_run (bin : kind) (ps : list string) (s : state W) :
  match run rt (try_candidates bin ps) s with
  | (Val p, s') =>
      exists pre post l w1 w2 w3 evs,
        ps = (pre ++ p :: post)%list
        /\ probes pre l
        /\ log s' = (log s ++ l ++ [ E_access p; E_spawn p version_query;
                                     E_cacheSet bin p ])%list
        /\ cache s' = cache_set (cache s) bin p
        /\ fs_access rt p w1 = (true, w2)
        /\ child_spawn rt p version_query w2 = (inr evs, w3)
        /\ outcome (v_promise (validate_run p bin default_timeoutMs evs))
           = Some (inl tt)
  | (Exn e, s') =>
      e = NotResolved bin
      /\ exists l, probes ps l /\ log s' = (log s ++ l)%list
                   /\ cache s' = cache s
  | (Hang, _) => False
  end.
Proof.
  revert s; induction ps as [|q ps IH]; intros s.
  - simpl. split; [reflexivity|]. exists []. rewrite app_nil_r.
    repeat split. constructor.
  - rewrite try_candidates_cons, run_bind. unfold fileExists.
    rewrite run_call. unfold perform.
    destruct (fs_access rt q (world s)) as [[|] w] eqn:Ea; cbn [fst snd].
    + rewrite run_try_catch, run_bind, run_validateBinary.
      cbn [world logged].
      destruct (child_spawn rt q _ w) as [[e|evs] w2] eqn:Es;
        cbv beta iota zeta.
      * specialize (IH (logged (logged s w (E_access q)) w2
                               (E_spawn q [Arg "-version"]))).
        destruct (run rt (try_candidates bin ps) _) as [[p|e'|] s'];
          [ | | exact IH].
        -- destruct IH as (pre & post & l & w1 & w2' & w3 & evs & -> & Hp
                           & Hl & Hc & Hrest).
           exists (q :: pre), post, (E_access q :: E_spawn q version_query :: l),
             w1, w2', w3, evs.
           repeat split; try apply Hrest; auto.
           ++ now constructor.
           ++ rewrite Hl. simpl. now rewrite <- !app_assoc.
        -- destruct IH as (-> & l & Hp & Hl & Hc). split; [reflexivity|].
           exists (E_access q :: E_spawn q version_query :: l).
           repeat split; auto; [now constructor|].
           rewrite Hl. simpl. now rewrite <- !app_assoc.
      * pose proof (validate_run_settles q bin default_timeoutMs evs) as Hs.
        unfold res_of.
        destruct (outcome (v_promise (validate_run q bin default_timeoutMs evs)))
          as [[[]|e]|] eqn:Ev; [ | | now elim Hs].
        -- rewrite run_bind, run_call. simpl.
           exists [], ps, [], (world s), w, w2, evs.
           split; [reflexivity|]. split; [constructor|].
           split; [now rewrite <- !app_assoc|].
           split; [reflexivity|]. split; [exact Ea|]. split; [exact Es|].
           exact Ev.
        -- specialize (IH (logged (logged s w (E_access q)) w2
                                  (E_spawn q [Arg "-version"]))).
           destruct (run rt (try_candidates bin ps) _) as [[p|e'|] s'];
             [ | | exact IH].
           ++ destruct IH as (pre & post & l & w1 & w2' & w3 & evs' & -> & Hp
                              & Hl & Hc & Hrest).
              exists (q :: pre), post,
                (E_access q :: E_spawn q version_query :: l), w1, w2', w3, evs'.
              repeat split; try apply Hrest; auto.
              ** now constructor.
              ** rewrite Hl. simpl. now rewrite <- !app_assoc.
           ++ destruct IH as (-> & l & Hp & Hl & Hc). split; [reflexivity|].
              exists (E_access q :: E_spawn q version_query :: l).
              repeat split; auto; [now constructor|].
              rewrite Hl. simpl. now rewrite <- !app_assoc.
    + specialize (IH (logged s w (E_access q))).
      destruct (run rt (try_candidates bin ps) _) as [[p|e'|] s'];
        [ | | exact IH].
      * destruct IH as (pre & post & l & w1 & w2' & w3 & evs' & -> & Hp
                        & Hl & Hc & Hrest).
        exists (q :: pre), post, (E_access q :: l), w1, w2', w3, evs'.
        repeat split; try apply Hrest; auto.
        -- now constructor.
        -- rewrite Hl. simpl. now rewrite <- !app_assoc.
      * destruct IH as (-> & l & Hp & Hl & Hc). split; [reflexivity|].
        exists (E_access q :: l).
        repeat split; auto; [now constructor|].
        rewrite Hl. simpl. now rewrite <- !app_assoc.
Qed.

Lemma run_resolveBinary_miss (userPath : option string) (bin : kind)
    (s : state W) :
  as_truthy (cache s bin) = None ->
  run rt (resolveBinary rt userPath bin) s =
  match as_truthy userPath with
  | Some up =>
      if negb (path_isAbsolute rt up) then (Exn (InvalidConfig bin), s)
      else
        let '(ex, w1) := fs_access rt up (world s) in
        let s1 := logged s w1 (E_access up) in
        if negb ex then (Exn (NotFound bin up), s1)
        else
          let '(r, w2) := child_spawn rt up version_query w1 in
          let s2 := logged s1 w2 (E_spawn up version_query) in
          match r with
          | inl e => (Exn e, s2)
          | inr evs =>
              match outcome (v_promise (validate_run up bin default_timeoutMs evs))
              with
              | Some (inl _) =>
                  (Val up, mkState w2 (cache_set (cache s) bin up)
                                   (log s2 ++ [E_cacheSet bin up]))
              | Some (inr e) => (Exn e, s2)
              | None => (Hang, s2)
              end
          end
  | None => run rt (try_candidates bin (candidatePaths rt bin)) s
  end.
Proof.
  intros Hc. unfold resolveBinary. rewrite run_bind, run_call. simpl.
  rewrite Hc. destruct (as_truthy userPath) as [up|]; [|reflexivity].
  destruct (negb (path_isAbsolute rt up)); [reflexivity|]. simpl.
  destruct (fs_access rt up (world s)) as [[|] w1]; simpl; [|reflexivity].
  unfold version_query.
  destruct (child_spawn rt up _ w1) as [[e|evs] w2]; simpl; [reflexivity|].
  rewrite run_bind, run_await. unfold res_of.
  now destruct (outcome _) as [[[]|e]|].
Qed.

End Discovery.

Section ResolveMore.

Context {W : Type} (rt : Runtime W).

Lemma probes_facts (ps : list string) (l : list effect) :
  probes ps l ->
  accessed l = ps /\ existsb is_cacheSet l = false /\ incl (spawned l) ps.
Proof.
  induction 1 as [|q qs l Hp (Ha & Hc & Hs)|q qs l Hp (Ha & Hc & Hs)]; simpl.
  - repeat split. intros x [].
  - rewrite Ha. repeat split; auto. now apply incl_tl.
  - rewrite Ha. repeat split; auto.
    intros x [<- | Hx]; [now left | right; now apply Hs].
Qed.

(** A call that does not return a path wrote nothing to the cache, and
    had found no cached path. *)
Lemma resolveBinary_exn (userPath : option string) (bin : kind)
    (s s' : state W) (e : error) :
  run rt (resolveBinary rt userPath bin) s = (Exn e, s') ->
  as_truthy (cache s bin) = None
  /\ cache s' = cache s
  /\ exists l, log s' = (log s ++ l)%list /\ existsb is_cacheSet l = false.
Proof.
  destruct (as_truthy (cache s bin)) as [c|] eqn:Hc.
  - destruct (resolveBinary_hit rt userPath bin c s Hc) as [-> _]. discriminate.
  - rewrite (run_resolveBinary_miss rt userPath bin s Hc).
    intros Hrun. split; [reflexivity|]. revert Hrun.
    destruct (as_truthy userPath) as [up|].
    + destruct (negb (path_isAbsolute rt up)).
      * intros H. inversion H; subst. split; [reflexivity|].
        exists []. now rewrite app_nil_r.
      * destruct (fs_access rt up (world s)) as [[|] w1]; simpl.
        -- destruct (child_spawn rt up version_query w1) as [[e'|evs] w2]; simpl.
           ++ intros H. inversion H; subst. split; [reflexivity|]. simpl.
              eexists [_; _]. now rewrite <- app_assoc.
           ++ destruct (outcome _) as [[[]|e']|]; try discriminate.
              intros H. inversion H; subst. split; [reflexivity|]. simpl.
              eexists [_; _]. now rewrite <- app_assoc.
        -- intros H. inversion H; subst. split; [reflexivity|]. simpl.
           now eexists [_].
    + pose proof (try_candidates_run rt bin (candidatePaths rt bin) s) as H.
      intros E. rewrite E in H. destruct H as (_ & l & Hp & Hl & Hcache).
      split; [exact Hcache|]. exists l. split; [exact Hl|].
      now apply (probes_facts _ _ Hp).
Qed.

End ResolveMore.

(** X2. [validateBinary] when the child cannot be started. If [spawn]
    throws, the call fails with that error. If the error event arrives
    before the child closes and before the timer fires, the call fails
    with the error of the event, the timer is cleared and the child is
    not killed. *)
Theorem validateBinary_spawn_failure {W} (rt : Runtime W)
    (binPath : string) (bin : kind) (timeoutMs : number)
    (pre post : list event) (s : state W) (w' : W) :
  forallb is_data pre = true ->
  let call := run rt (validateBinary binPath bin timeoutMs) s in
  (forall e,
     child_spawn rt binPath version_query (world s) = (inl e, w') ->
     call = (Exn e, logged s w' (E_spawn binPath version_query)))
  /\ (forall err,
        child_spawn rt binPath version_query (world s)
        = (inr (pre ++ ErrorEv err :: post)%list, w') ->
        let v := validate_run binPath bin timeoutMs (pre ++ ErrorEv err :: post) in
        fst call = Exn err /\ v_killed v = false /\ v_timeExceeded v = false).
Proof.
  intros Hd call. subst call. unfold version_query. split.
  - intros e Hs. now rewrite run_validateBinary, Hs.
  - intros err Hs. rewrite run_validateBinary, Hs. simpl.
    destruct (validate_run_error binPath bin timeoutMs pre post err Hd)
      as [Ho Hk].
    rewrite Ho. repeat split; auto.
    rewrite validate_run_fold, <- app_assoc.
    change ((ErrorEv err :: post) ++ [TimerFired])%list
      with (ErrorEv err :: (post ++ [TimerFired]))%list.
    rewrite fold_left_mid, (validate_data _ _ _ _ _ Hd).
    match goal with
    | |- v_timeExceeded (fold_left ?h ?l ?s1) = false =>
        assert (Hi : forall l0 s0, v_timer s0 <> Armed ->
                                   v_timeExceeded s0 = false ->
                                   v_timeExceeded (fold_left h l0 s0) = false)
    end.
    { induction l0 as [|ev l0 IH]; intros s0 Ha Ht; simpl; [assumption|].
      destruct s0 as [o te tm k pr]; simpl in *; subst te.
      apply IH; destruct ev, tm; simpl; split_ifs; auto; try discriminate;
        now elim Ha. }
    apply Hi; [discriminate | reflexivity].
Qed.

(** On the host of [Demo] nothing can be started from [/opt/none]. *)
Lemma validateBinary_spawn_failure_witness :
  fst (run Demo.node (validateBinary "/opt/none/ffmpeg" ffmpeg default_timeoutMs)
           Demo.boot)
  = Exn Demo.enoent.
Proof.
  exact (f_equal fst
    (proj1 (validateBinary_spawn_failure Demo.node "/opt/none/ffmpeg" ffmpeg
              default_timeoutMs [] [] Demo.boot _ eq_refl)
           Demo.enoent eq_refl)).
Defined.

(** X3. Auto-discovery that succeeds. With no cached path and no user
    path, a returned path [p] is a candidate of the platform; the
    candidates before it were tried in order, each tested for existence
    and, if present, asked for its version; [p] exists, its version query
    validated, and the call ends by caching [p]. No candidate after [p]
    is touched. *)
Theorem resolveBinary_discovery_found {W} (rt : Runtime W) (s s' : state W)
    (userPath : option string) (bin : kind) (p : string) :
  as_truthy (cache s bin) = None ->
  as_truthy userPath = None ->
  run rt (resolveBinary rt userPath bin) s = (Val p, s') ->
  exists pre post l,
    candidatePaths rt bin = (pre ++ p :: post)%list
    /\ probes pre l
    /\ accessed l = pre
    /\ log s' = (log s ++ l ++ [ E_access p; E_spawn p version_query;
                                 E_cacheSet bin p ])%list
    /\ cache s' = cache_set (cache s) bin p
    /\ exists w1 w2 w3 evs,
         fs_access rt p w1 = (true, w2)
         /\ child_spawn rt p version_query w2 = (inr evs, w3)
         /\ outcome (v_promise (validate_run p bin default_timeoutMs evs))
            = Some (inl tt).
Proof.
  intros Hc Hu Hr. rewrite (run_resolveBinary_miss rt _ _ _ Hc), Hu in Hr.
  pose proof (try_candidates_run rt bin (candidatePaths rt bin) s) as H.
  rewrite Hr in H.
  destruct H as (pre & post & l & w1 & w2 & w3 & evs & Hps & Hp & Hl & Hcs & H).
  exists pre, post, l. repeat split; auto.
  - now apply (probes_facts _ _ Hp).
  - now exists w1, w2, w3, evs.
Qed.

(** On the host of [Demo] the first candidate of the encoder is installed. *)
Lemma resolveBinary_discovery_found_witness :
  exists pre post l,
    candidatePaths Demo.node ffmpeg = (pre ++ "/usr/bin/ffmpeg" :: post)%list
    /\ probes pre l
    /\ accessed l = pre
    /\ log demo_discovered
       = (log Demo.boot ++ l ++ [ E_access "/usr/bin/ffmpeg";
                                  E_spawn "/usr/bin/ffmpeg" version_query;
                                  E_cacheSet ffmpeg "/usr/bin/ffmpeg" ])%list
    /\ cache demo_discovered
       = cache_set (cache Demo.boot) ffmpeg "/usr/bin/ffmpeg"
    /\ exists w1 w2 w3 evs,
         fs_access Demo.node "/usr/bin/ffmpeg" w1 = (true, w2)
         /\ child_spawn Demo.node "/usr/bin/ffmpeg" version_query w2
            = (inr evs, w3)
         /\ outcome (v_promise (validate_run "/usr/bin/ffmpeg" ffmpeg
                                             default_timeoutMs evs))
            = Some (inl tt).
Proof.
  exact (resolveBinary_discovery_found Demo.node Demo.boot demo_discovered None
           ffmpeg "/usr/bin/ffmpeg" eq_refl eq_refl eq_refl).
Defined.

(** X4. Auto-discovery that fails. With no cached path and no user path,
    a call that returns no path fails with the not-resolved error after
    testing every candidate of the platform, in order; a child was started
    only for a candidate just tested, and the cache is as it was. *)
Theorem resolveBinary_discovery_exhausted {W} (rt : Runtime W) (s : state W)
    (userPath : option string) (bin : kind) :
  as_truthy (cache s bin) = None ->
  as_truthy userPath = None ->
  let call := run rt (resolveBinary rt userPath bin) s in
  (forall p, fst call <> Val p) ->
  fst call = Exn (NotResolved bin)
  /\ cache (snd call) = cache s
  /\ exists l,
       log (snd call) = (log s ++ l)%list
       /\ probes (candidatePaths rt bin) l
       /\ accessed l = candidatePaths rt bin
       /\ incl (spawned l) (candidatePaths rt bin)
       /\ existsb is_cacheSet l = false.
Proof.
  intros Hc Hu call Hn. subst call.
  rewrite (run_resolveBinary_miss rt _ _ _ Hc), Hu in *.
  pose proof (try_candidates_run rt bin (candidatePaths rt bin) s) as H.
  destruct (run rt (try_candidates bin (candidatePaths rt bin)) s)
    as [[p|e|] s'].
  - now elim (Hn p).
  - destruct H as (-> & l & Hp & Hl & Hcache). simpl.
    repeat split; auto. exists l.
    destruct (probes_facts _ _ Hp) as (Ha & Hcs & Hs). repeat split; auto.
  - contradiction.
Qed.

(** On an empty disk the five candidates of the encoder are tested and
    nothing is started. *)
Lemma resolveBinary_discovery_exhausted_witness :
  fst (run Demo.node (resolveBinary Demo.node None ffmpeg) demo_bare)
  = Exn (NotResolved ffmpeg).
Proof.
  refine (proj1 (resolveBinary_discovery_exhausted Demo.node demo_bare None
                   ffmpeg eq_refl eq_refl _)).
  intros p H. vm_compute in H. discriminate H.
Defined.

(** X5. A user path that is accepted. With no cached path, a call with a
    non-empty user path that returns a path returns that very path; it is
    absolute, it exists, its version query validated, and all the call
    did is the existence test, the version query and the cache write: the
    user path is taken and no candidate location is looked at. *)
Theorem resolveBinary_accepts_user_path {W} (rt : Runtime W) (s s' : state W)
    (userPath : string) (bin : kind) (p : string) :
  as_truthy (cache s bin) = None ->
  truthy userPath = true ->
  run rt (resolveBinary rt (Some userPath) bin) s = (Val p, s') ->
  p = userPath
  /\ path_isAbsolute rt userPath = true
  /\ log s' = (log s ++ [ E_access userPath; E_spawn userPath version_query;
                          E_cacheSet bin userPath ])%list
  /\ cache s' = cache_set (cache s) bin userPath
  /\ exists w1 w2 evs,
       fs_access rt userPath (world s) = (true, w1)
       /\ child_spawn rt userPath version_query w1 = (inr evs, w2)
       /\ outcome (v_promise (validate_run userPath bin default_timeoutMs evs))
          = Some (inl tt).
Proof.
  intros Hc Ht. rewrite (run_resolveBinary_miss rt _ _ _ Hc).
  rewrite (truthy_as_truthy _ Ht).
  destruct (path_isAbsolute rt userPath); simpl; [|discriminate].
  destruct (fs_access rt userPath (world s)) as [[|] w1] eqn:Ea; simpl;
    [|discriminate].
  destruct (child_spawn rt userPath version_query w1) as [[e|evs] w2] eqn:Es;
    simpl; [discriminate|].
  destruct (outcome _) as [[[]|e]|] eqn:Ev; try discriminate.
  intros H. inversion H; subst. simpl.
  repeat split; auto; [now rewrite <- !app_assoc|].
  now exists w1, w2, evs.
Qed.

(** On the host of [Demo], the encoder of [/opt/a]. *)
Lemma resolveBinary_accepts_user_path_witness :
  log (snd (run Demo.node (resolveBinary Demo.node (Some "/opt/a/ffmpeg") ffmpeg)
                Demo.boot))
  = [ E_access "/opt/a/ffmpeg"; E_spawn "/opt/a/ffmpeg" version_query;
      E_cacheSet ffmpeg "/opt/a/ffmpeg" ].
Proof.
  exact (proj1 (proj2 (proj2
    (resolveBinary_accepts_user_path Demo.node Demo.boot _ "/opt/a/ffmpeg" ffmpeg
       "/opt/a/ffmpeg" eq_refl eq_refl eq_refl)))).
Defined.

(** X6. Only a validated path is ever cached: a call of [resolveBinary]
    that does not return a path (whatever its user path, whatever the
    reason) leaves both cache entries as they were and performs no cache
    write. *)
Theorem resolveBinary_failure_keeps_cache {W} (rt : Runtime W) (s : state W)
    (userPath : option string) (bin : kind) :
  let call := run rt (resolveBinary rt userPath bin) s in
  (forall p, fst call <> Val p) ->
  cache (snd call) = cache s
  /\ exists l, log (snd call) = (log s ++ l)%list
               /\ existsb is_cacheSet l = false.
Proof.
  intros call Hn. subst call.
  pose proof (settles_run rt _ s (settles_resolveBinary rt userPath bin)) as Hh.
  destruct (run rt (resolveBinary rt userPath bin) s) as [[p|e|] s'] eqn:E.
  - now elim (Hn p).
  - now destruct (resolveBinary_exn rt _ _ _ _ _ E) as (_ & Hc & Hl).
  - now elim Hh.
Qed.

(** On the host of [Demo], [/opt/fake/ffmpeg] is not the encoder. *)
Lemma resolveBinary_failure_keeps_cache_witness :
  cache (snd (run Demo.node
                (resolveBinary Demo.node (Some "/opt/fake/ffmpeg") ffmpeg)
                Demo.boot))
  = cache Demo.boot.
Proof.
  refine (proj1 (resolveBinary_failure_keeps_cache Demo.node Demo.boot
                   (Some "/opt/fake/ffmpeg") ffmpeg _)).
  intros p H. vm_compute in H. discriminate H.
Defined.

(** X7. [pullBinary] reads what [resolveBinary] wrote: after a call of
    [resolveBinary] that returned [p], [pullBinary] for the same kind
    returns [p]; for a kind with no cached path it throws; in both cases
    it changes nothing. *)
Theorem pullBinary_after_resolveBinary {W} (rt : Runtime W) (s s' : state W)
    (userPath : option string) (bin : kind) (p : string) :
  run rt (resolveBinary rt userPath bin) s = (Val p, s') ->
  run rt (pullBinary bin) s' = (Val p, s')
  /\ forall (s0 : state W) (other : kind),
       as_truthy (cache s0 other) = None ->
       run rt (pullBinary other) s0 = (Exn NotResolvedPull, s0).
Proof.
  intros H. apply resolveBinary_caches in H. split.
  - now rewrite run_pullBinary, H.
  - intros s0 other H0. now rewrite run_pullBinary, H0.
Qed.

Lemma pullBinary_after_resolveBinary_witness :
  run Demo.node (pullBinary ffmpeg) demo_discovered
  = (Val "/usr/bin/ffmpeg", demo_discovered).
Proof.
  exact (proj1 (pullBinary_after_resolveBinary Demo.node Demo.boot
                  demo_discovered None ffmpeg "/usr/bin/ffmpeg" eq_refl)).
Defined.

(** X8. On every platform the candidate locations of the two tools are
    all different: no location is tested twice in one discovery, and no
    location is a candidate for both tools. *)
Theorem candidatePaths_distinct {W} (rt : Runtime W) :
  NoDup (candidatePaths rt ffmpeg ++ candidatePaths rt ffprobe).
Proof.
  unfold candidatePaths.
  destruct (String.eqb _ "win32"); [|destruct (String.eqb _ "darwin")];
    simpl; repeat (constructor; [simpl; intuition discriminate|]);
    constructor.
Qed.

(** X9. [testBinaries] resolves the encoder, then the probe. If the
    encoder cannot be resolved, the result is the text of that error and
    nothing is done for the probe. A result without error means both
    paths are cached, so [pullBinary] succeeds for both; a result with an
    error means a kind is left without cached path. *)
Theorem testBinaries_outcome {W} (rt : Runtime W) (s : state W)
    (ffmpegPath ffprobePath : option string) :
  let call := run rt (testBinaries rt ffmpegPath ffprobePath) s in
  (forall e s1,
     run rt (resolveBinary rt ffmpegPath ffmpeg) s = (Exn e, s1) ->
     call = (Val (TestFailed (message rt e)), s1))
  /\ (fst call = Val TestOk ->
      exists e p,
        run rt (pullBinary ffmpeg) (snd call) = (Val e, snd call)
        /\ run rt (pullBinary ffprobe) (snd call) = (Val p, snd call))
  /\ (forall msg,
        fst call = Val (TestFailed msg) ->
        as_truthy (cache (snd call) ffmpeg) = None
        \/ as_truthy (cache (snd call) ffprobe) = None).
Proof.
  intros call. subst call. rewrite run_testBinaries.
  destruct (run rt (resolveBinary rt ffmpegPath ffmpeg) s) as [[e|err|] s1]
    eqn:E1.
  - pose proof (resolveBinary_caches rt _ _ _ _ _ E1) as Hc1.
    pose proof (frame_run rt ffprobe _ s1
                  (writes_only_resolveBinary rt ffprobePath ffprobe)) as [Hf _].
    destruct (run rt (resolveBinary rt ffprobePath ffprobe) s1)
      as [[p|err|] s2] eqn:E2; cbn [fst snd] in *.
    + split; [discriminate|]. split; [|discriminate]. intros _.
      pose proof (resolveBinary_caches rt _ _ _ _ _ E2) as Hc2.
      exists e, p. rewrite !run_pullBinary, Hc2, Hf, Hc1; [auto|discriminate].
    + split; [discriminate|]. split; [discriminate|]. intros msg _. right.
      destruct (resolveBinary_exn rt _ _ _ _ _ E2) as (Hm & Hc & _).
      now rewrite Hc.
    + repeat split; discriminate.
  - split; [|split; [discriminate|]].
    + intros e s' H. now inversion H.
    + intros msg _. left.
      destruct (resolveBinary_exn rt _ _ _ _ _ E1) as (Hm & Hc & _).
      simpl. now rewrite Hc.
  - repeat split; discriminate.
Qed.

Lemma testBinaries_outcome_witness :
  exists e p,
    run Demo.node (pullBinary ffmpeg)
        (snd (run Demo.node (testBinaries Demo.node None None) Demo.boot))
    = (Val e, snd (run Demo.node (testBinaries Demo.node None None) Demo.boot))
    /\ run Demo.node (pullBinary ffprobe)
           (snd (run Demo.node (testBinaries Demo.node None None) Demo.boot))
       = (Val p, snd (run Demo.node (testBinaries Demo.node None None) Demo.boot)).
Proof.
  exact (proj1 (proj2 (testBinaries_outcome Demo.node Demo.boot None None))
               eq_refl).
Defined.

(** * More of native.ts *)

Section NativeMore.

Context {W : Type} (rt : Runtime W).

(** The first closing or error event of a child, if there is one. *)
Lemma first_end (evs : list event) :
  existsb is_end evs = false
  \/ exists pre ev post,
       evs = (pre ++ ev :: post)%list
       /\ existsb is_end pre = false /\ is_end ev = true.
Proof.
  induction evs as [|ev evs IH]; [now left|].
  destruct (is_end ev) eqn:E.
  - right. now exists [], ev, evs.
  - destruct IH as [H | (pre & ev' & post & -> & Hp & He)].
    + left. simpl. now rewrite E.
    + right. exists (ev :: pre), ev', post. simpl. now rewrite E.
Qed.

(** Until the probe closes or fails, its handlers only collect output. *)
Lemma probe_quiet (pre : list event) (s : pstate) :
  existsb is_end pre = false ->
  fold_left (probe_handle rt) pre s =
  mkP (p_out s ++ stdout_of pre) (p_errOut s ++ stderr_of pre) (p_promise s).
Proof.
  revert s; induction pre as [|ev pre IH]; intros s Hd; simpl.
  - rewrite !str_app_nil_r. now destruct s.
  - simpl in Hd. apply orb_false_iff in Hd as [Hev Hd].
    destruct ev; try discriminate; rewrite (IH _ Hd); simpl;
      try now rewrite str_app_assoc.
    now destruct s.
Qed.

Lemma probe_run_first (pre post : list event) (ev : event) :
  existsb is_end pre = false -> is_end ev = true ->
  outcome (p_promise (probe_run rt (pre ++ ev :: post))) =
  outcome (p_promise
             (probe_handle rt (mkP (stdout_of pre) (stderr_of pre) pending) ev)).
Proof.
  intros Hp He. unfold probe_run. rewrite fold_left_mid, (probe_quiet _ _ Hp).
  simpl.
  destruct (outcome (p_promise (probe_handle rt
              (mkP (stdout_of pre) (stderr_of pre) pending) ev)))
    as [r|] eqn:E.
  - now apply probe_settled.
  - destruct ev; try discriminate; simpl in E; revert E; split_ifs;
      discriminate.
Qed.

(** A resolved probe closed with code zero after printing a number that
    is positive. *)
Lemma probe_resolved_inv (evs : list event) (d : number) :
  outcome (p_promise (probe_run rt evs)) = Some (inl d) ->
  exists pre post,
    evs = (pre ++ Close (Some 0) :: post)%list
    /\ existsb is_end pre = false
    /\ d = parseFloat rt (trim (stdout_of pre))
    /\ isNaN d = false /\ leb d (Num.of_Z 0) = false.
Proof.
  destruct (first_end evs) as [Hn | (pre & ev & post & -> & Hp & He)].
  - unfold probe_run. rewrite (probe_quiet _ _ Hn). discriminate.
  - rewrite (probe_run_first pre post ev Hp He).
    destruct ev; try discriminate; simpl.
    destruct code as [[| |]|]; simpl; try discriminate.
    destruct (isNaN (parseFloat rt (trim (stdout_of pre)))) eqn:En; simpl;
      [discriminate|].
    destruct (leb (parseFloat rt (trim (stdout_of pre))) (S754_zero false))
      eqn:El; simpl; [discriminate|].
    intros H. inversion H; subst. exists pre, post.
    split; [reflexivity|]. split; [exact Hp|]. split; [reflexivity|].
    split; [exact En | exact El].
Qed.

(** The timer of [compressVideo] is set once and never cleared: it has
    fired by the end of every run, and the child was sent the kill. *)
Lemma compress_run_fired (t : number) (evs : list event) :
  c_timer (compress_run rt t evs) = Fired
  /\ c_killed (compress_run rt t evs) = true.
Proof.
  unfold compress_run. cbv zeta.
  assert (H : forall l s,
             (c_timer s = Armed \/ (c_timer s = Fired /\ c_killed s = true)) ->
             let s' := fold_left (compress_handle rt t) l s in
             c_timer s' = Armed \/ (c_timer s' = Fired /\ c_killed s' = true)).
  { induction l as [|ev l IH]; intros s Hs; simpl; [assumption|].
    apply IH. destruct s as [e tm k p]; simpl in *.
    destruct Hs as [-> | [-> ->]]; destruct ev; simpl; split_ifs; auto. }
  generalize (H evs c_init (or_introl eq_refl)). clear H. cbv zeta.
  generalize (fold_left (compress_handle rt t) evs c_init).
  intros [e tm k p] [Hs | [Hs Hk]]; simpl in *; subst; simpl; auto.
Qed.

Lemma compress_run_first (t : number) (pre post : list event) (ev : event) :
  forallb is_data pre = true -> is_end ev = true ->
  outcome (c_promise (compress_run rt t (pre ++ ev :: post))) =
  outcome (c_promise
             (compress_handle rt t (mkC (stderr_of pre) Armed false pending) ev)).
Proof.
  intros Hp He. rewrite compress_run_fold, <- app_assoc.
  change ((ev :: post) ++ [TimerFired])%list
    with (ev :: (post ++ [TimerFired]))%list.
  rewrite fold_left_mid, (compress_data rt t _ _ Hp). simpl.
  assert (Hk : forall l s r, outcome (c_promise s) = Some r ->
                 outcome (c_promise (fold_left (compress_handle rt t) l s))
                 = Some r).
  { induction l as [|e l IH]; intros s r Hr; simpl; [assumption|].
    apply IH. destruct s as [eo tm k p]; simpl in *.
    destruct e, tm; simpl; split_ifs; auto; now rewrite Hr. }
  destruct (outcome (c_promise (compress_handle rt t
              (mkC (stderr_of pre) Armed false pending) ev))) as [r|] eqn:E.
  - now apply Hk.
  - destruct ev; try discriminate; simpl in E; revert E; split_ifs;
      discriminate.
Qed.

End NativeMore.

(** X10. Every duration that [getVideoDuration] returns is a number that
    is not NaN and is above zero; it is what [parseFloat] read in the
    trimmed standard output that the probe had produced when it closed
    with code zero, and the probe had not failed before. The call did
    nothing but start the probe from the cached path. *)
Theorem getVideoDuration_result {W} (rt : Runtime W) (inputPath : string)
    (s s' : state W) (d : number) :
  run rt (getVideoDuration rt inputPath) s = (Val d, s') ->
  isNaN d = false
  /\ leb d (Num.of_Z 0) = false
  /\ exists probe pre post w,
       as_truthy (cache s ffprobe) = Some probe
       /\ child_spawn rt probe (probe_args inputPath) (world s)
          = (inr (pre ++ Close (Some 0) :: post)%list, w)
       /\ existsb is_end pre = false
       /\ d = parseFloat rt (trim (stdout_of pre))
       /\ s' = logged s w (E_spawn probe (probe_args inputPath)).
Proof.
  rewrite run_getVideoDuration. intros H.
  apply spawn_step_val in H as (b & evs & w & Hb & Hs & Hd & ->).
  apply probe_resolved_inv in Hd as (pre & post & -> & Hp & Hv & Hn & Hl).
  repeat split; auto. now exists b, pre, post, w.
Qed.

(** The probe of [/usr/bin] reports 120 seconds. *)
Lemma getVideoDuration_result_witness :
  leb (Num.of_Z 120) (Num.of_Z 0) = false.
Proof.
  exact (proj1 (proj2
    (getVideoDuration_result Demo.node "/tmp/a.mp4"
       (Demo.resolved "/usr/bin/ffmpeg" "/usr/bin/ffprobe") _ (Num.of_Z 120)
       eq_refl))).
Defined.

(** X11. [getVideoDuration] with a cached probe path, when the probe does
    not close first: an error thrown by [spawn] is passed on as it is; an
    error event is reported as a spawn failure that carries the message
    of the event, whatever follows it; and a probe that neither closes
    nor fails leaves the call pending, as the function sets no timer. *)
Theorem getVideoDuration_without_close {W} (rt : Runtime W)
    (inputPath probe : string) (s : state W) :
  as_truthy (cache s ffprobe) = Some probe ->
  let call := run rt (getVideoDuration rt inputPath) s in
  (forall e w,
     child_spawn rt probe (probe_args inputPath) (world s) = (inl e, w) ->
     fst call = Exn e)
  /\ (forall pre err post w,
        child_spawn rt probe (probe_args inputPath) (world s)
        = (inr (pre ++ ErrorEv err :: post)%list, w) ->
        existsb is_end pre = false ->
        fst call = Exn (ProbeSpawnFailed (message rt err))
        /\ contains (message rt (ProbeSpawnFailed (message rt err)))
                    (message rt err))
  /\ (forall evs w,
        child_spawn rt probe (probe_args inputPath) (world s) = (inr evs, w) ->
        existsb is_end evs = false ->
        fst call = Hang).
Proof.
  intros Hb call. subst call. rewrite run_getVideoDuration.
  unfold spawn_step. rewrite Hb. split; [|split].
  - intros e w ->. reflexivity.
  - intros pre err post w -> Hp.
    rewrite (probe_run_first rt pre post (ErrorEv err) Hp eq_refl). simpl.
    split; [reflexivity|].
    exists "failed to spawn ffprobe: ", "". now rewrite str_app_nil_r.
  - intros evs w -> Hn. unfold probe_run. now rewrite (probe_quiet rt _ _ Hn).
Qed.

(** A cached probe path with nothing behind it. *)
Lemma getVideoDuration_without_close_witness :
  fst (run Demo.node (getVideoDuration Demo.node "/tmp/a.mp4")
           demo_missing_probe)
  = Exn Demo.enoent.
Proof.
  exact (proj1 (getVideoDuration_without_close Demo.node "/tmp/a.mp4"
                  "/opt/none/ffprobe" demo_missing_probe eq_refl)
               Demo.enoent _ eq_refl).
Defined.

(** X12. How the promise of [compressVideo] is settled when the encoder
    ends before the timer fires: closing with code zero resolves it; any
    other code rejects it with the code and all of the standard error
    received; an error event rejects it with the text of the event and the
    standard error. Standard output plays no part. In every run, with
    these endings or any other, the timer is still there afterwards: it
    fires, and the kill is sent to the child. *)
Theorem compressVideo_outcome {W} (rt : Runtime W) (t : number)
    (pre post : list event) :
  forallb is_data pre = true ->
  let settled ev := outcome (c_promise (compress_run rt t (pre ++ ev :: post))) in
  settled (Close (Some 0)) = Some (inl tt)
  /\ (forall code, code_is_zero code = false ->
        settled (Close code) = Some (inr (EncodeFailed code (stderr_of pre))))
  /\ (forall err,
        settled (ErrorEv err)
        = Some (inr (EncodeSpawnFailed (toString rt err) (stderr_of pre))))
  /\ (forall evs, c_timer (compress_run rt t evs) = Fired
                  /\ c_killed (compress_run rt t evs) = true).
Proof.
  intros Hp settled. subst settled. cbv beta.
  split; [|split; [|split]].
  - now rewrite (compress_run_first rt t pre post (Close (Some 0)) Hp eq_refl).
  - intros code Hc.
    rewrite (compress_run_first rt t pre post (Close code) Hp eq_refl). simpl.
    now rewrite Hc.
  - intros err.
    now rewrite (compress_run_first rt t pre post (ErrorEv err) Hp eq_refl).
  - apply compress_run_fired.
Qed.

Lemma compressVideo_outcome_witness :
  outcome (c_promise (compress_run Demo.node (Num.of_Z 10000)
                        [Stderr "frame=  240 fps= 60"; Close (Some 0)]))
  = Some (inl tt).
Proof.
  exact (proj1 (compressVideo_outcome Demo.node (Num.of_Z 10000)
                  [Stderr "frame=  240 fps= 60"] [] eq_refl)).
Defined.



Section HandleFileMore.

Context {W : Type} (rt : Runtime W).

Lemma after_cleanup_cache (paths : list string) (s : state W) :
  cache (after_cleanup rt paths s) = cache s.
Proof.
  unfold after_cleanup. now destruct (run_cleanup rt paths s) as [w ->].
Qed.

(** The encoder was run, resolved, and the output was read. *)
Lemma encode_part_val (inPath outPath : string) (vb : number)
    (preset resolution : string) (timeout : number) (s s2 : state W)
    (data : bytes) :
  run rt (encode_part rt inPath outPath vb preset resolution timeout) s
  = (Val data, s2) ->
  exists enc evs w0 w w',
    as_truthy (cache s ffmpeg) = Some enc
    /\ child_spawn rt enc (compress_args rt inPath outPath vb (Num.of_Z 128)
                                         preset resolution) (world s)
       = (inr evs, w0)
    /\ outcome (c_promise (compress_run rt timeout evs)) = Some (inl tt)
    /\ fs_readFile rt outPath w = (inr data, w')
    /\ cache s2 = cache s
    /\ log s2 = (log s ++ [ E_spawn enc (compress_args rt inPath outPath vb
                                           (Num.of_Z 128) preset resolution);
                            E_readFile outPath ])%list.
Proof.
  unfold encode_part. rewrite run_bind, run_compressVideo.
  destruct (spawn_step rt ffmpeg _ _ s) as [[[]|e|] s1] eqn:E;
    try discriminate.
  apply spawn_step_val in E as (enc & evs & w0 & Hb & Hs & Ho & ->).
  rewrite run_awaitReadFile.
  destruct (fs_readFile rt outPath _) as [[e|d] w'] eqn:Er; [discriminate|].
  intros H. inversion H; subst.
  exists enc, evs, w0, w0, w'. simpl in *. repeat split; auto.
  now rewrite <- app_assoc.
Qed.

Lemma no_resolve_bind {A B} (p : prog A) (f : A -> prog B) :
  no_resolve p -> (forall a, no_resolve (f a)) -> no_resolve (bind p f).
Proof. intros Hp Hf. induction Hp; simpl; auto; constructor; auto. Qed.

Lemma no_resolve_try_catch {A} (p : prog A) (h : error -> prog A) :
  no_resolve p -> (forall e, no_resolve (h e)) -> no_resolve (try_catch p h).
Proof. intros Hp Hh. induction Hp; simpl; auto; constructor; auto. Qed.

Lemma no_resolve_call {X} (o : op X) : op_no_resolve o -> no_resolve (call o).
Proof. intros H. constructor; [exact H | constructor]. Qed.

Lemma no_resolve_await {A} (p : promise A) : no_resolve (await p).
Proof. unfold await. destruct (outcome p) as [[a|e]|]; constructor. Qed.

Lemma no_resolve_pullBinary (bin : kind) : no_resolve (pullBinary bin).
Proof.
  unfold pullBinary. apply no_resolve_bind; [now apply no_resolve_call|].
  intros c. destruct (as_truthy c); constructor.
Qed.

Lemma no_resolve_cleanup (paths : list string) : no_resolve (cleanup paths).
Proof.
  induction paths as [|p paths IH]; [constructor|]. simpl.
  constructor; [exact I|]. intros _. exact IH.
Qed.

Lemma no_resolve_handleFile (fileData : bytes) (fileName : string)
    (target : number) (preset resolution : string) (timeout : number) :
  no_resolve (handleFile rt fileData fileName target preset resolution timeout).
Proof.
  assert (Hs : forall A bin args (f : list event -> prog A),
             (forall evs, no_resolve (f evs)) ->
             no_resolve (b <- pullBinary bin ;;
                         r <- call (Spawn b args) ;;
                         match r with inl e => Throw e | inr evs => f evs end)).
  { intros A bin args f Hf. apply no_resolve_bind; [apply no_resolve_pullBinary|].
    intros b. apply no_resolve_bind; [now apply no_resolve_call|].
    intros [e|evs]; [constructor | apply Hf]. }
  unfold handleFile. apply no_resolve_bind; [now apply no_resolve_call|].
  intros t_in. apply no_resolve_bind; [now apply no_resolve_call|].
  intros t_out. unfold handleFile_body. apply no_resolve_try_catch.
  - apply no_resolve_bind.
    { unfold awaitWriteFile. apply no_resolve_bind; [now apply no_resolve_call|].
      intros [e|]; constructor. }
    intros _. apply no_resolve_bind.
    { unfold getVideoDuration. apply Hs. intros evs. apply no_resolve_await. }
    intros d. cbv zeta.
    destruct (ltb (videoBitrate target d) (Num.of_Z 100)).
    + apply no_resolve_bind; [apply no_resolve_cleanup | constructor].
    + apply no_resolve_bind.
      { unfold compressVideo. apply Hs. intros evs. apply no_resolve_await. }
      intros _. apply no_resolve_bind.
      { unfold awaitReadFile. apply no_resolve_bind; [now apply no_resolve_call|].
        intros [e|data]; constructor. }
      intros res. apply no_resolve_bind; [apply no_resolve_cleanup | constructor].
  - intros e. apply no_resolve_bind; [apply no_resolve_cleanup | constructor].
Qed.

Lemma no_resolve_run {A} (p : prog A) (s : state W) :
  no_resolve p ->
  cache (snd (run rt p s)) = cache s
  /\ exists l, log (snd (run rt p s)) = (log s ++ l)%list
               /\ existsb is_resolve_effect l = false.
Proof.
  intros Hp. revert s. induction Hp; intros s; simpl;
    try (split; [reflexivity|]; exists []; now rewrite app_nil_r).
  assert (Ho : cache (snd (perform rt o s)) = cache s
               /\ exists l, log (snd (perform rt o s)) = (log s ++ l)%list
                            /\ existsb is_resolve_effect l = false).
  { destruct o; simpl in *; try contradiction.
    - destruct (Date_now rt (world s)). simpl. split; [reflexivity|].
      exists []. now rewrite app_nil_r.
    - split; [reflexivity|]. exists []. now rewrite app_nil_r.
    - destruct (fs_writeFile rt p data (world s)). simpl. split; [reflexivity|].
      now eexists [_].
    - destruct (fs_readFile rt p (world s)). simpl. split; [reflexivity|].
      now eexists [_].
    - destruct (fs_unlink rt p (world s)). simpl. split; [reflexivity|].
      now eexists [_].
    - destruct (child_spawn rt p args (world s)). simpl. split; [reflexivity|].
      now eexists [_]. }
  destruct (perform rt o s) as [x s1]. simpl in Ho.
  destruct Ho as (Hc & l1 & Hl1 & Hn1).
  destruct (H1 x s1) as (Hc2 & l2 & Hl2 & Hn2).
  split; [now rewrite Hc2|]. exists (l1 ++ l2)%list.
  rewrite Hl2, Hl1, <- app_assoc. split; [reflexivity|].
  rewrite existsb_app, Hn1, Hn2. reflexivity.
Qed.

(** The children that the steps of [handleFile] start. *)
Lemma probe_part_tools (inPath outPath preset resolution : string)
    (fileData : bytes) (s : state W) :
  let s1 := snd (run rt (probe_part rt inPath fileData) s) in
  cache s1 = cache s
  /\ exists l, log s1 = (log s ++ l)%list
               /\ Forall (cached_tool rt (cache s) inPath outPath preset
                                      resolution) l.
Proof.
  unfold probe_part. rewrite run_bind, run_awaitWriteFile.
  destruct (fs_writeFile rt inPath fileData (world s)) as [[e|] w];
    cbv beta iota zeta.
  - split; [reflexivity|]. exists [E_writeFile inPath].
    split; [reflexivity|]. repeat constructor.
  - rewrite run_getVideoDuration.
    match goal with
    | |- context [spawn_step rt ?b ?a ?f ?st] =>
        destruct (spawn_step_log rt b a f st) as (Hc & [H | (b' & Hb & H)])
    end; cbn [cache log logged] in *; rewrite Hc, H.
    + split; [reflexivity|]. exists [E_writeFile inPath].
      split; [reflexivity|]. repeat constructor.
    + split; [reflexivity|].
      exists [E_writeFile inPath; E_spawn b' (probe_args inPath)].
      split; [now rewrite <- app_assoc|].
      constructor; [exact I|]. constructor; [|constructor].
      left. now split.
Qed.

Lemma encode_part_tools (inPath outPath : string) (vb : number)
    (preset resolution : string) (timeout : number) (s : state W) :
  let s2 :=
    snd (run rt (encode_part rt inPath outPath vb preset resolution timeout) s) in
  cache s2 = cache s
  /\ exists l, log s2 = (log s ++ l)%list
               /\ Forall (cached_tool rt (cache s) inPath outPath preset
                                      resolution) l.
Proof.
  unfold encode_part. rewrite run_bind, run_compressVideo.
  match goal with
  | |- context [spawn_step rt ?b ?a ?f ?st] =>
      pose proof (spawn_step_log rt b a f st) as Hs;
      destruct (spawn_step rt b a f st) as [[[]|e|] s1]
  end; cbn [fst snd] in *; destruct Hs as (Hc & Hl).
  - rewrite run_awaitReadFile.
    destruct (fs_readFile rt outPath (world s1)) as [r w]. cbn [snd cache logged log].
    split; [exact Hc|].
    destruct Hl as [H | (b' & Hb & H)]; rewrite H.
    + exists [E_readFile outPath]. split; [reflexivity|]. repeat constructor.
    + eexists [_; _]. split; [now rewrite <- app_assoc|].
      constructor; [|repeat constructor]. right. now exists vb.
  - split; [exact Hc|].
    destruct Hl as [H | (b' & Hb & H)]; rewrite H.
    + exists []. split; [now rewrite app_nil_r | constructor].
    + eexists [_]. split; [reflexivity|].
      constructor; [|constructor]. right. now exists vb.
  - split; [exact Hc|].
    destruct Hl as [H | (b' & Hb & H)]; rewrite H.
    + exists []. split; [now rewrite app_nil_r | constructor].
    + eexists [_]. split; [reflexivity|].
      constructor; [|constructor]. right. now exists vb.
Qed.

Lemma cleanup_tools (c : kind -> option string)
    (inPath outPath preset resolution : string) (paths : list string) :
  Forall (cached_tool rt c inPath outPath preset resolution)
         (map E_unlink paths).
Proof. induction paths; constructor; [exact I | assumption]. Qed.

Lemma handleFile_tools (fileData : bytes) (fileName : string)
    (target : number) (preset resolution : string) (timeout : number)
    (s : state W) :
  let call :=
    run rt (handleFile rt fileData fileName target preset resolution timeout) s in
  let paths := fst (derive rt fileName s) in
  exists l, log (snd call) = (log s ++ l)%list
            /\ Forall (cached_tool rt (cache s) (fst paths) (snd paths) preset
                                   resolution) l.
Proof.
  cbv zeta. rewrite run_handleFile.
  destruct (derive rt fileName s) as [[inPath outPath] s0] eqn:Hd.
  destruct (derive_state rt _ _ _ _ _ Hd) as [Hlog Hcache]. cbn [fst snd].
  rewrite run_handleFile_body.
  destruct (probe_part_tools inPath outPath preset resolution fileData s0)
    as (Hc1 & l1 & Hl1 & Hf1).
  rewrite Hcache in Hf1.
  assert (Hend : forall paths s' l',
             log s' = (log s ++ l')%list ->
             Forall (cached_tool rt (cache s) inPath outPath preset resolution)
                    l' ->
             exists l, log (after_cleanup rt paths s') = (log s ++ l)%list
                       /\ Forall (cached_tool rt (cache s) inPath outPath
                                              preset resolution) l).
  { intros paths s' l' Hl' Hf'. exists (l' ++ map E_unlink paths)%list.
    rewrite after_cleanup_log, Hl', <- app_assoc. split; [reflexivity|].
    apply Forall_app. split; [exact Hf' | apply cleanup_tools]. }
  destruct (run rt (probe_part rt inPath fileData) s0) as [[d|e|] s1];
    cbn [snd] in *; rewrite Hlog in Hl1.
  - cbv zeta.
    destruct (ltb (videoBitrate target d) (Num.of_Z 100)); cbn [snd].
    + now apply (Hend [inPath] s1 l1).
    + destruct (encode_part_tools inPath outPath (videoBitrate target d)
                  preset resolution timeout s1) as (Hc2 & l2 & Hl2 & Hf2).
      rewrite Hc1, Hcache in Hf2. rewrite Hl1, <- app_assoc in Hl2.
      assert (Hf : Forall (cached_tool rt (cache s) inPath outPath preset
                                       resolution) (l1 ++ l2)%list).
      { apply Forall_app. now split. }
      destruct (run rt (encode_part rt inPath outPath _ preset resolution
                                    timeout) s1) as [[data|e|] s2];
        cbn [snd] in *.
      * now apply (Hend [inPath; outPath] s2 (l1 ++ l2)%list).
      * now apply (Hend [inPath; outPath] s2 (l1 ++ l2)%list).
      * now exists (l1 ++ l2)%list.
  - now apply (Hend [inPath; outPath] s1 l1).
  - now exists l1.
Qed.

Lemma errorText_message (e : error) :
  (forall n m, e <> RuntimeError n m) -> errorText rt e = message rt e.
Proof.
  intros Hn. unfold errorText.
  assert (Ha : forall a c b, truthy (a ++ String c b) = true).
  { intros [|x a] c b; reflexivity. }
  destruct e; simpl; try reflexivity; try (now elim (Hn name msg));
    try (destruct bin; reflexivity).
  - now rewrite Ha.
  - now rewrite Ha.
Qed.

End HandleFileMore.

(** X14. What a success of [handleFile] means. A call that returns the
    bytes [data] has done exactly this, in this order: written the input,
    run the probe, run the encoder, read the output, deleted the input
    and deleted the output; both tools were started from their cached
    paths; the probed duration is a positive number for which the bitrate
    is not below 100; [data] is what was read from the output path; and
    the cache is as it was. *)
Theorem handleFile_success {W} (rt : Runtime W)
    (fileData : bytes) (fileName : string) (target : number)
    (preset resolution : string) (timeout : number) (s s0 : state W)
    (inPath outPath : string) (data : bytes) :
  derive rt fileName s = (inPath, outPath, s0) ->
  let call :=
    run rt (handleFile rt fileData fileName target preset resolution timeout) s in
  fst call = Val (Success data) ->
  exists probe encoder d w w',
    as_truthy (cache s ffprobe) = Some probe
    /\ as_truthy (cache s ffmpeg) = Some encoder
    /\ isNaN d = false
    /\ leb d (Num.of_Z 0) = false
    /\ ltb (videoBitrate target d) (Num.of_Z 100) = false
    /\ fs_readFile rt outPath w = (inr data, w')
    /\ log (snd call)
       = (log s ++ full_run rt probe encoder inPath outPath
                            (videoBitrate target d) preset resolution)%list
    /\ cache (snd call) = cache s.
Proof.
  intros Hd call. subst call.
  destruct (derive_state rt _ _ _ _ _ Hd) as [Hlog Hcache].
  rewrite run_handleFile, Hd, run_handleFile_body.
  destruct (run rt (probe_part rt inPath fileData) s0) as [[d|e|] s1] eqn:Ep;
    [|discriminate|discriminate].
  cbv zeta.
  destruct (ltb (videoBitrate target d) (Num.of_Z 100)) eqn:Hlt;
    [discriminate|].
  destruct (run rt (encode_part rt inPath outPath _ preset resolution timeout) s1)
    as [[data'|e|] s2] eqn:Ee; [|discriminate|discriminate].
  cbn [fst snd]. intros H. inversion H; subst data'.
  pose proof Ep as Ep'.
  apply probe_part_val in Ep as (probe & evs & Hb & Ho & Hc1 & Hl1).
  apply probe_resolved_inv in Ho as (pre & post & _ & _ & _ & Hn & Hp).
  apply encode_part_val in Ee
    as (enc & evs' & w0 & w & w' & Hb' & _ & _ & Hr & Hc2 & Hl2).
  exists probe, enc, d, w, w'.
  rewrite after_cleanup_log, after_cleanup_cache, Hl2, Hl1, Hc2, Hc1.
  rewrite <- Hcache, Hlog. repeat split; auto; try congruence.
  unfold full_run. now rewrite <- !app_assoc.
Qed.

(** The direct run of [Demo]: a 9 MB target for the 120 s clip. *)
Lemma handleFile_success_witness :
  exists probe encoder d w w',
    as_truthy (cache (Demo.resolved "/usr/bin/ffmpeg" "/usr/bin/ffprobe") ffprobe)
    = Some probe
    /\ as_truthy (cache (Demo.resolved "/usr/bin/ffmpeg" "/usr/bin/ffprobe") ffmpeg)
       = Some encoder
    /\ isNaN d = false
    /\ leb d (Num.of_Z 0) = false
    /\ ltb (videoBitrate (Num.of_Z 9) d) (Num.of_Z 100) = false
    /\ fs_readFile Demo.node "/tmp/ac_out_1700000000000.mov" w = (inr [], w')
    /\ log (snd (demo_call "clip.mov" 9 "/usr/bin/ffmpeg" "/usr/bin/ffprobe"))
       = (log (Demo.resolved "/usr/bin/ffmpeg" "/usr/bin/ffprobe")
          ++ full_run Demo.node probe encoder "/tmp/ac_in_1700000000000.mov"
               "/tmp/ac_out_1700000000000.mov" (videoBitrate (Num.of_Z 9) d)
               "medium" "720")%list
    /\ cache (snd (demo_call "clip.mov" 9 "/usr/bin/ffmpeg" "/usr/bin/ffprobe"))
       = cache (Demo.resolved "/usr/bin/ffmpeg" "/usr/bin/ffprobe").
Proof.
  exact (handleFile_success Demo.node [] "clip.mov" (Num.of_Z 9) "medium" "720"
           (Num.of_Z 10000) (Demo.resolved "/usr/bin/ffmpeg" "/usr/bin/ffprobe")
           _ _ _ [] eq_refl eq_refl).
Defined.

(** X15. [handleFile] before the probe was resolved. With no cached probe
    path the call writes the input and then deletes both temporary paths,
    and that is all: no child is started. It returns a failure; when the
    write succeeded, the text is the one of [pullBinary]. *)
Theorem handleFile_unresolved {W} (rt : Runtime W)
    (fileData : bytes) (fileName : string) (target : number)
    (preset resolution : string) (timeout : number) (s s0 : state W)
    (inPath outPath : string) :
  derive rt fileName s = (inPath, outPath, s0) ->
  as_truthy (cache s ffprobe) = None ->
  let call :=
    run rt (handleFile rt fileData fileName target preset resolution timeout) s in
  log (snd call)
  = (log s ++ [E_writeFile inPath; E_unlink inPath; E_unlink outPath])%list
  /\ (exists text, fst call = Val (Failure text))
  /\ (forall w, fs_writeFile rt inPath fileData (world s0) = (None, w) ->
      fst call = Val (Failure "requested binary has not been resolved")).
Proof.
  intros Hd Hb call. subst call.
  destruct (derive_state rt _ _ _ _ _ Hd) as [Hlog Hcache].
  rewrite run_handleFile, Hd, run_handleFile_body.
  unfold probe_part. rewrite run_bind, run_awaitWriteFile.
  destruct (fs_writeFile rt inPath fileData (world s0)) as [[e|] w] eqn:Ew;
    cbv beta iota zeta.
  - cbn [fst snd]. rewrite after_cleanup_log. simpl.
    rewrite Hlog, <- app_assoc. split; [reflexivity|].
    split; [eauto | intros w0 H; discriminate H].
  - rewrite run_getVideoDuration. unfold spawn_step. cbn [cache logged].
    rewrite Hcache, Hb. cbn [fst snd]. rewrite after_cleanup_log. simpl.
    rewrite Hlog, <- app_assoc. split; [reflexivity|].
    split; [eauto | reflexivity].
Qed.

(** The host of [Demo] straight after boot: nothing is resolved. *)
Lemma handleFile_unresolved_witness :
  fst (run Demo.node
         (handleFile Demo.node [] "clip.mov" (Num.of_Z 9) "medium" "720"
                     (Num.of_Z 10000)) Demo.boot)
  = Val (Failure "requested binary has not been resolved").
Proof.
  exact (proj2 (proj2
    (handleFile_unresolved Demo.node [] "clip.mov" (Num.of_Z 9) "medium" "720"
       (Num.of_Z 10000) Demo.boot _ _ _ eq_refl eq_refl)) _ eq_refl).
Defined.

(** X16. [handleFile] resolves nothing itself: whatever happens, a call
    leaves the cache as it found it, tests no file for existence and
    writes no cache entry; and every child it starts is the probe or the
    encoder, on the temporary paths of the call, started from the path
    that the cache held for that tool when the call began. *)
Theorem handleFile_leaves_resolution {W} (rt : Runtime W)
    (fileData : bytes) (fileName : string) (target : number)
    (preset resolution : string) (timeout : number) (s : state W) :
  let call :=
    run rt (handleFile rt fileData fileName target preset resolution timeout) s in
  let paths := fst (derive rt fileName s) in
  cache (snd call) = cache s
  /\ exists l, log (snd call) = (log s ++ l)%list
               /\ existsb is_resolve_effect l = false
               /\ Forall (cached_tool rt (cache s) (fst paths) (snd paths)
                                      preset resolution) l.
Proof.
  intros call paths. subst call paths.
  destruct (no_resolve_run rt _ s
              (no_resolve_handleFile rt fileData fileName target preset
                                     resolution timeout))
    as (Hc & l & Hl & Hn).
  destruct (handleFile_tools rt fileData fileName target preset resolution
                             timeout s) as (l' & Hl' & Hf).
  split; [exact Hc|]. exists l. split; [exact Hl|]. split; [exact Hn|].
  rewrite Hl in Hl'. apply app_inv_head in Hl'. now subst l'.
Qed.

(** The direct run of [Demo]: the probe and the encoder of [/usr/bin]. *)
Lemma handleFile_leaves_resolution_witness :
  exists l,
    log (snd (demo_call "clip.mov" 9 "/usr/bin/ffmpeg" "/usr/bin/ffprobe"))
    = (log (Demo.resolved "/usr/bin/ffmpeg" "/usr/bin/ffprobe") ++ l)%list
    /\ existsb is_resolve_effect l = false
    /\ Forall (cached_tool Demo.node
                 (cache (Demo.resolved "/usr/bin/ffmpeg" "/usr/bin/ffprobe"))
                 "/tmp/ac_in_1700000000000.mov" "/tmp/ac_out_1700000000000.mov"
                 "medium" "720") l.
Proof.
  exact (proj2
    (handleFile_leaves_resolution Demo.node [] "clip.mov" (Num.of_Z 9) "medium"
       "720" (Num.of_Z 10000)
       (Demo.resolved "/usr/bin/ffmpeg" "/usr/bin/ffprobe"))).
Defined.

(** X17. The text of a failure caught in [handleFile] is never empty,
    and for every error made by the plugin itself it is the message of
    the error. *)
Theorem errorText_never_empty {W} (rt : Runtime W) (e : error) :
  truthy (errorText rt e) = true
  /\ ((forall n m, e <> RuntimeError n m) -> errorText rt e = message rt e).
Proof.
  split; [|apply errorText_message].
  unfold errorText.
  destruct (truthy (message rt e)) eqn:Em; [exact Em|].
  destruct (truthy (toString rt e)) eqn:Et; [exact Et | reflexivity].
Qed.

(** X18. An infinite duration, which [getVideoDuration] lets through,
    gives a bitrate of zero for every target whose bit count is finite:
    such a call always stops at the bitrate guard. *)
Theorem videoBitrate_infinite_duration (target : number) :
  isFinite (tgBits target) = true ->
  (exists sign, videoBitrate target (S754_infinity false) = S754_zero sign)
  /\ ltb (videoBitrate target (S754_infinity false)) (Num.of_Z 100) = true.
Proof.
  unfold videoBitrate. destruct (tgBits target) as [sg| | |sg m e];
    try discriminate; intros _; (split; [eexists|]; reflexivity).
Qed.

Lemma videoBitrate_infinite_duration_witness :
  ltb (videoBitrate (Num.of_Z 9) (S754_infinity false)) (Num.of_Z 100) = true.
Proof.
  exact (proj2 (videoBitrate_infinite_duration (Num.of_Z 9) eq_refl)).
Defined.

(** * index.ts *)

Section IndexFacts.

Context {W : Type} (rt : Runtime W).
Variable st : Settings.

Lemma filter_none {A} (f : A -> bool) (l : list A) :
  forallb (fun x => negb (f x)) l = true ->
  filter f l = [] /\ filter (fun x => negb (f x)) l = l.
Proof.
  induction l as [|x l IH]; simpl; [auto|].
  intros H. apply andb_true_iff in H as [Hx Hl].
  destruct (IH Hl) as [-> ->]. rewrite Hx.
  apply negb_true_iff in Hx. now rewrite Hx.
Qed.

Lemma filter_split_length {A} (f : A -> bool) (l : list A) :
  (List.length (filter f l) + List.length (filter (fun x => negb (f x)) l)
   = List.length l)%nat.
Proof.
  induction l as [|x l IH]; simpl; [reflexivity|].
  destruct (f x); simpl; lia.
Qed.

Lemma file_of_length (rs : list ProcessResult) :
  List.length (flat_map file_of rs) = List.length (filter is_processed rs).
Proof.
  induction rs as [|r rs IH]; simpl; [reflexivity|].
  destruct r; simpl; now rewrite IH.
Qed.

Lemma file_of_processed (rs : list ProcessResult) :
  flat_map file_of (filter is_processed rs) = flat_map file_of rs.
Proof.
  induction rs as [|r rs IH]; simpl; [reflexivity|].
  destruct r; simpl; now rewrite IH.
Qed.

Lemma length_zero_eqb {A} (l : list A) :
  (List.length l =? 0)%nat = match l with [] => true | _ => false end.
Proof. now destruct l. Qed.

Lemma length_pos_ltb {A} (l : list A) :
  (0 <? List.length l)%nat = match l with [] => false | _ => true end.
Proof. now destruct l. Qed.

Lemma uploads_app (a b : list action) :
  uploads (a ++ b) = (uploads a ++ uploads b)%list.
Proof. unfold uploads. apply flat_map_app. Qed.

Lemma uploads_invoke (fs : list File) : uploads (map Invoke fs) = [].
Proof. induction fs as [|f fs IH]; [reflexivity | exact IH]. Qed.

Lemma filter_all {A} (f : A -> bool) (l : list A) :
  forallb f l = true -> filter f l = l.
Proof.
  induction l as [|x l IH]; simpl; [auto|].
  intros H. apply andb_true_iff in H as [-> Hl]. now rewrite IH.
Qed.

Lemma filter_nil_existsb {A} (f : A -> bool) (l : list A) :
  filter f l = [] <-> existsb f l = false.
Proof.
  induction l as [|x l IH]; simpl; [tauto|].
  destruct (f x); simpl; [split; discriminate | exact IH].
Qed.

Lemma filter_negb_nil {A} (f : A -> bool) (l : list A) :
  filter (fun x => negb (f x)) l = [] <-> forallb f l = true.
Proof.
  induction l as [|x l IH]; simpl; [tauto|].
  destruct (f x); simpl; [exact IH | split; discriminate].
Qed.

End IndexFacts.

(** X19. [processFile] never throws. When reading the bytes of the file
    fails it reports the message of that error and has done nothing else.
    A success carries a file with the name and the type of the original
    whose size is the number of bytes that [handleFile] returned, and
    that number in megabytes; a failure carries the name of the original. *)
Theorem processFile_result {W} (rt : Runtime W) (st : Settings)
    (arrayBuffer : File -> error + bytes) (file : File) (s : state W) :
  let call := run rt (processFile rt st arrayBuffer file) s in
  (forall e, fst call <> Exn e)
  /\ (forall e, arrayBuffer file = inl e ->
        call = (Val (NotProcessed (f_name file) (message rt e)), s))
  /\ (forall f data size,
        fst call = Val (Processed f data size) ->
        f = mkFile (f_name file) (f_type file) (Z.of_nat (List.length data))
        /\ size = megabytes (Z.of_nat (List.length data))
        /\ exists buffer,
             arrayBuffer file = inr buffer
             /\ fst (run rt (handleFile rt buffer (f_name file)
                               (compressionTarget st) (compressionPreset st)
                               (maxResolution st)
                               (mul (ffmpegTimeout st) (Num.of_Z 1000))) s)
                = Val (Success data))
  /\ (forall name err,
        fst call = Val (NotProcessed name err) -> name = f_name file).
Proof.
  intros call. subst call. unfold processFile.
  rewrite run_try_catch, run_bind.
  destruct (arrayBuffer file) as [e|buffer]; cbn [run].
  - repeat split; try discriminate.
    + intros e' H. now inversion H.
    + intros name err H. now inversion H.
  - rewrite run_bind.
    destruct (run rt (handleFile rt buffer _ _ _ _ _) s) as [[[data|err]|e|] s1]
      eqn:Eh; cbn [run fst snd]; repeat split; try discriminate.
    + inversion H; subst. reflexivity.
    + inversion H; subst. reflexivity.
    + inversion H; subst. exists buffer. now rewrite Eh.
    + intros name err' H. now inversion H.
    + intros name err' H. now inversion H.
Qed.

(** X20. [handleFiles] when no file is to be compressed (none has a listed
    type and a size above the threshold): with a channel selected the
    pending uploads are cleared and the files are added again, all of
    them and in their order; nothing is compressed, no toast and no
    notification are shown. With no file at all only the clearing is
    done. *)
Theorem handleFiles_nothing_to_compress (st : Settings) (ch : string)
    (results : list File -> list ProcessResult) (files : list File) :
  truthy ch = true ->
  forallb (fun f => negb (compressible st f)) files = true ->
  handleFiles st (Some ch) results files
  = ClearAll ch :: match files with [] => [] | _ => [AddFiles ch files] end.
Proof.
  intros Hch Hn. unfold handleFiles. rewrite (truthy_as_truthy _ Hch).
  destruct (filter_none _ _ Hn) as [-> ->]. simpl.
  rewrite length_pos_ltb. now destruct files.
Qed.

(** A small picture with the default settings. *)
Lemma handleFiles_nothing_to_compress_witness :
  handleFiles default_settings (Some "42") (fun _ => [])
              [mkFile "a.png" "image/png" 20000000]
  = [ClearAll "42"; AddFiles "42" [mkFile "a.png" "image/png" 20000000]].
Proof.
  exact (handleFiles_nothing_to_compress default_settings "42" (fun _ => [])
           [mkFile "a.png" "image/png" 20000000] eq_refl eq_refl).
Defined.

(** X21. [handleFiles] accounts for every file. With a channel selected
    and one result for each file to compress, the upload manager is first
    cleared and then given the compressed files, in the order of the
    results, followed by the files that were not to be compressed; a file
    whose compression failed is not uploaded in any form, so the uploaded
    files and the failures add up to the files received. *)
Theorem handleFiles_accounts (st : Settings) (ch : string)
    (results : list File -> list ProcessResult) (files : list File) :
  truthy ch = true ->
  let rs := results (filter (compressible st) files) in
  let acts := handleFiles st (Some ch) results files in
  List.length rs = List.length (filter (compressible st) files) ->
  hd_error acts = Some (ClearAll ch)
  /\ uploads acts
     = (flat_map file_of rs
        ++ filter (fun f => negb (compressible st f)) files)%list
  /\ (List.length (uploads acts) + List.length (filter is_failed rs)
      = List.length files)%nat.
Proof.
  intros Hch rs acts Hlen.
  assert (Hu : uploads acts
               = (flat_map file_of rs
                  ++ filter (fun f => negb (compressible st f)) files)%list).
  { subst acts rs. unfold handleFiles. rewrite (truthy_as_truthy _ Hch).
    revert Hlen.
    generalize (results (filter (compressible st) files)) as rs.
    intros rs Hlen. cbv zeta. rewrite length_zero_eqb.
    destruct (filter (compressible st) files) as [|c cs] eqn:Ec.
    - destruct rs; [|discriminate Hlen]. simpl. rewrite length_pos_ltb.
      destruct (filter (fun f => negb (compressible st f)) files); simpl;
        [reflexivity | now rewrite app_nil_r].
    - rewrite length_pos_ltb, file_of_processed.
      change (uploads (ClearAll ch :: ?l)) with (uploads l).
      rewrite uploads_app.
      change (uploads (ShowToast ?t :: ?l)) with (uploads l).
      rewrite uploads_invoke, uploads_app. simpl.
      destruct (flat_map file_of rs
                ++ filter (fun f => negb (compressible st f)) files)%list;
        simpl; [reflexivity | now rewrite !app_nil_r]. }
  split; [|split; [exact Hu|]].
  - subst acts. unfold handleFiles. now rewrite (truthy_as_truthy _ Hch).
  - rewrite Hu, length_app, file_of_length. unfold is_failed.
    pose proof (filter_split_length is_processed rs).
    pose proof (filter_split_length (compressible st) files). lia.
Qed.

(** Two clips and a picture; the second clip fails. *)
Lemma handleFiles_accounts_witness :
  uploads (handleFiles default_settings (Some "42")
             (fun _ => [Processed (mkFile "a.mp4" "video/mp4" 9000000) [] (Num.of_Z 8);
                        NotProcessed "b.mp4" "ffprobe invalid data"])
             [mkFile "a.mp4" "video/mp4" 20000000;
              mkFile "p.png" "image/png" 20000000;
              mkFile "b.mp4" "video/mp4" 30000000])
  = [mkFile "a.mp4" "video/mp4" 9000000; mkFile "p.png" "image/png" 20000000].
Proof.
  exact (proj1 (proj2
    (handleFiles_accounts default_settings "42"
       (fun _ => [Processed (mkFile "a.mp4" "video/mp4" 9000000) [] (Num.of_Z 8);
                  NotProcessed "b.mp4" "ffprobe invalid data"])
       [mkFile "a.mp4" "video/mp4" 20000000;
        mkFile "p.png" "image/png" 20000000;
        mkFile "b.mp4" "video/mp4" 30000000] eq_refl eq_refl))).
Defined.

(** X22. The notification of [handleFiles]. When a channel is selected
    and a file is to be compressed, the last action is one notification;
    it is green when no compression failed, red when none succeeded and
    orange otherwise, and when none failed its body is the count alone,
    without a list of failures. *)
Theorem handleFiles_notification (st : Settings) (ch : string)
    (results : list File -> list ProcessResult) (files : list File) :
  truthy ch = true ->
  existsb (compressible st) files = true ->
  let rs := results (filter (compressible st) files) in
  let acts := handleFiles st (Some ch) results files in
  exists body,
    last acts (ClearAll ch)
    = ShowNotification "AutoCompress" body
        (if forallb is_processed rs then "#43b581"
         else if existsb is_processed rs then "#faa61a" else "#f04747")
    /\ (forallb is_processed rs = true ->
        body = ("Compressed " ++ of_len rs ++ "/" ++ of_len rs ++ " file(s)")%string).
Proof.
  intros Hch Hex rs acts. subst acts rs. unfold handleFiles.
  rewrite (truthy_as_truthy _ Hch). cbv zeta. rewrite length_zero_eqb.
  destruct (filter (compressible st) files) as [|c cs] eqn:Ec.
  { apply filter_nil_existsb in Ec. congruence. }
  generalize (results (c :: cs)) as rs. intros rs.
  eexists. split.
  - rewrite app_comm_cons, app_assoc, last_last. f_equal.
    unfold color_of. rewrite !length_zero_eqb.
    destruct (forallb is_processed rs) eqn:Ea.
    + now rewrite (proj2 (filter_negb_nil is_processed rs) Ea).
    + destruct (filter (fun r => negb (is_processed r)) rs) eqn:Ef.
      * apply filter_negb_nil in Ef. congruence.
      * destruct (existsb is_processed rs) eqn:Ee.
        -- destruct (filter is_processed rs) eqn:Es; [|reflexivity].
           apply filter_nil_existsb in Es. congruence.
        -- apply filter_nil_existsb in Ee. now rewrite Ee.
  - intros Ha. unfold summary. rewrite (filter_all _ _ Ha), length_pos_ltb.
    rewrite (proj2 (filter_negb_nil is_processed rs) Ha).
    now rewrite !str_app_nil_r.
Qed.

(** One clip, compressed. *)
Lemma handleFiles_notification_witness :
  exists body,
    last (handleFiles default_settings (Some "42")
            (fun _ => [Processed (mkFile "b.mp4" "video/mp4" 9000000) []
                                 (Num.of_Z 8)])
            [mkFile "b.mp4" "video/mp4" 30000000]) (ClearAll "42")
    = ShowNotification "AutoCompress" body "#43b581"
    /\ (true = true -> body = "Compressed 1/1 file(s)").
Proof.
  exact (handleFiles_notification default_settings "42"
           (fun _ => [Processed (mkFile "b.mp4" "video/mp4" 9000000) []
                                (Num.of_Z 8)])
           [mkFile "b.mp4" "video/mp4" 30000000] eq_refl eq_refl).
Defined.

(** X23. Stopping the plugin leaves a listener behind. [start] registers
    three listeners and [stop] removes two: whatever was registered
    before, after [start] and then [stop] the paste listener is still
    there, and the drop and drag-over listeners are not. *)
Theorem plugin_stop_keeps_paste (ls : list listener) :
  let after := plugin_stop (plugin_start ls) in
  In ("paste", hookPaste) after
  /\ ~ In ("drop", hookDrop) after
  /\ ~ In ("dragover", hookDrag) after.
Proof.
  assert (Hadd : forall t h l, In (t, h) (addEventListener t h l)).
  { intros t h l. unfold addEventListener.
    destruct (existsb (listener_eqb (t, h)) l) eqn:E.
    - apply existsb_exists in E as ([t' h'] & Hin & He).
      unfold listener_eqb in He. simpl in He.
      apply andb_true_iff in He as [Ht Hh]. apply String.eqb_eq in Ht.
      subst t'. destruct h, h'; try discriminate; exact Hin.
    - apply in_or_app. right. now left. }
  assert (Hrem : forall t h l, ~ In (t, h) (removeEventListener t h l)).
  { intros t h l Hin. unfold removeEventListener in Hin.
    apply filter_In in Hin as [_ Hf]. unfold listener_eqb in Hf. simpl in Hf.
    rewrite String.eqb_refl in Hf. now destruct h. }
  assert (Hkeep : forall t h t' h' l,
             listener_eqb (t, h) (t', h') = false ->
             In (t', h') l -> In (t', h') (removeEventListener t h l)).
  { intros t h t' h' l Hne Hin. unfold removeEventListener.
    apply filter_In. split; [exact Hin | now rewrite Hne]. }
  intros after. subst after. unfold plugin_stop, plugin_start.
  split; [|split].
  - apply Hkeep; [reflexivity|]. apply Hkeep; [reflexivity|]. apply Hadd.
  - intros Hin. unfold removeEventListener at 1 in Hin.
    apply filter_In in Hin as [Hin _]. now apply Hrem in Hin.
  - apply Hrem.
Qed.


(** X25. [handleFile] when the encoder closes with another code than
    zero before the timer fires: the call returns the failure whose text
    gives the code and the standard error of the encoder, the output is
    not read, and both temporary paths are deleted. *)
Theorem handleFile_encoder_failure {W} (rt : Runtime W)
    (fileData : bytes) (fileName : string) (target : number)
    (preset resolution : string) (timeout : number) (s s0 s1 : state W)
    (inPath outPath : string) (d : number) (bin : string)
    (pre post : list event) (code : option Z) (w' : W) :
  derive rt fileName s = (inPath, outPath, s0) ->
  run rt (probe_part rt inPath fileData) s0 = (Val d, s1) ->
  ltb (videoBitrate target d) (Num.of_Z 100) = false ->
  as_truthy (cache s1 ffmpeg) = Some bin ->
  child_spawn rt bin
    (compress_args rt inPath outPath (videoBitrate target d) (Num.of_Z 128)
                   preset resolution) (world s1)
  = (inr (pre ++ Close code :: post)%list, w') ->
  forallb is_data pre = true ->
  code_is_zero code = false ->
  let call :=
    run rt (handleFile rt fileData fileName target preset resolution timeout) s in
  fst call = Val (Failure (message rt (EncodeFailed code (stderr_of pre))))
  /\ contains (message rt (EncodeFailed code (stderr_of pre))) (stderr_of pre)
  /\ exists probe,
       log (snd call)
       = (log s ++ [ E_writeFile inPath;
                     E_spawn probe (probe_args inPath);
                     E_spawn bin (compress_args rt inPath outPath
                                    (videoBitrate target d) (Num.of_Z 128)
                                    preset resolution);
                     E_unlink inPath; E_unlink outPath ])%list.
Proof.
  intros Hd Hp Hlt Hbin Hsp Hdata Hcode call. subst call.
  destruct (derive_state rt _ _ _ _ _ Hd) as [Hlog _].
  rewrite run_handleFile, Hd, run_handleFile_body, Hp. cbv zeta. rewrite Hlt.
  unfold encode_part. rewrite run_bind, run_compressVideo.
  unfold spawn_step. rewrite Hbin, Hsp. cbv beta iota zeta.
  rewrite (compress_run_first rt timeout pre post (Close code) Hdata eq_refl).
  cbn [compress_handle]. rewrite Hcode. cbn [c_promise reject settle outcome pending res_of].
  cbn [fst snd]. split; [reflexivity|]. split.
  - exists ("ffmpeg exited with code " ++ of_code code ++ ", ")%string, "".
    simpl. now rewrite str_app_nil_r, !str_app_assoc.
  - apply probe_part_val in Hp as (probe & evs & _ & _ & _ & Hl).
    exists probe. rewrite after_cleanup_log. simpl.
    rewrite Hl, Hlog, <- !app_assoc. reflexivity.
Qed.

(** The encoder of [/opt/broken] on the 120 s clip. *)
Lemma handleFile_encoder_failure_witness :
  fst (run demo_broken
         (handleFile demo_broken [] "clip.mov" (Num.of_Z 9) "medium" "720"
                     (Num.of_Z 10000))
         (Demo.resolved "/opt/broken/ffmpeg" "/usr/bin/ffprobe"))
  = Val (Failure "ffmpeg exited with code 1, Unknown encoder 'libx264'").
Proof.
  exact (proj1
    (handleFile_encoder_failure demo_broken [] "clip.mov" (Num.of_Z 9) "medium"
       "720" (Num.of_Z 10000)
       (Demo.resolved "/opt/broken/ffmpeg" "/usr/bin/ffprobe") _ _ _ _ _
       "/opt/broken/ffmpeg" [Stderr "Unknown encoder 'libx264'"] [] (Some 1) _
       eq_refl eq_refl eq_refl eq_refl eq_refl eq_refl eq_refl)).
Defined.

(** X26. [handleFile] when the input cannot be written: the call returns
    the failure with the text of that error; it starts no child, and
    still asks for both temporary paths to be deleted. *)
Theorem handleFile_write_failure {W} (rt : Runtime W)
    (fileData : bytes) (fileName : string) (target : number)
    (preset resolution : string) (timeout : number) (s s0 : state W)
    (inPath outPath : string) (e : error) (w : W) :
  derive rt fileName s = (inPath, outPath, s0) ->
  fs_writeFile rt inPath fileData (world s0) = (Some e, w) ->
  let call :=
    run rt (handleFile rt fileData fileName target preset resolution timeout) s in
  fst call = Val (Failure (errorText rt e))
  /\ log (snd call)
     = (log s ++ [E_writeFile inPath; E_unlink inPath; E_unlink outPath])%list.
Proof.
  intros Hd Hw call. subst call.
  destruct (derive_state rt _ _ _ _ _ Hd) as [Hlog _].
  rewrite run_handleFile, Hd, run_handleFile_body.
  unfold probe_part. rewrite run_bind, run_awaitWriteFile, Hw.
  cbv beta iota zeta. cbn [fst snd]. rewrite after_cleanup_log. simpl.
  now rewrite Hlog, <- app_assoc.
Qed.

Lemma handleFile_write_failure_witness :
  fst (run demo_readonly
         (handleFile demo_readonly [] "clip.mov" (Num.of_Z 9) "medium" "720"
                     (Num.of_Z 10000))
         (Demo.resolved "/usr/bin/ffmpeg" "/usr/bin/ffprobe"))
  = Val (Failure "EROFS: read-only file system").
Proof.
  exact (proj1
    (handleFile_write_failure demo_readonly [] "clip.mov" (Num.of_Z 9) "medium"
       "720" (Num.of_Z 10000)
       (Demo.resolved "/usr/bin/ffmpeg" "/usr/bin/ffprobe") _ _ _ erofs _
       eq_refl eq_refl)).
Defined.
